(** * llmo-content: text recovery, generation services and document export

    A shallow embedding of the TypeScript route handlers

      - [extractJsonFromResponse] (generate-article, generate-titles),
      - [generateOptimizedArticleWithAI], [generateOptimizedTitlesWithAI]
        and the two [POST] handlers around them,
      - [generateMarkdown], [generateHTML], [escapeHtml] and the export
        [POST] handler,
      - [generateSEOMetadataWithAI] and the [POST] handler of the
        metadata route,
      - the export request, the title request and the copy button of the
        page,

    followed by the properties the specification states about them, and by
    further properties of the code. *)

From Stdlib Require Import String Ascii List NArith ZArith Lia Bool DecimalNat.
Import ListNotations.

Set Warnings "-register-all".

(* ================================================================== *)
(** * Part I. The embedding                                            *)
(* ================================================================== *)

(** ** JavaScript strings

    A JavaScript string is a sequence of UTF-16 code units.  Every string
    operation the handlers use ([trim], [indexOf], [substring], the
    regular expressions without the [u] flag) works on code units, so a
    string is a list of code units here. *)

Definition char := N.
Definition jsstring := list char.

(** Source literals are written as they stand in the TypeScript files.
    [js] reads the Rocq literal as the body of a JavaScript literal: the
    escapes [\n] and [\xHH] are interpreted (a double quote is written
    [\x22]), any other escaped character stands for itself, and the UTF-8
    bytes of every other character become UTF-16 code units (a code point
    above the basic plane becomes a surrogate pair). *)

Definition utf16_of_code_point (cp : N) : jsstring :=
  if (cp <? 65536)%N then [cp]
  else [(55296 + (cp - 65536) / 1024)%N; (56320 + (cp - 65536) mod 1024)%N].

Definition hex_value (b : N) : N :=
  if (b <? 58)%N then (b - 48)%N
  else if (b <? 71)%N then (b - 55)%N
  else (b - 87)%N.

Fixpoint utf16_of_utf8 (bs : list N) : jsstring :=
  match bs with
  | [] => []
  | b0 :: t0 =>
    if (b0 =? 92)%N then
      match t0 with
      | [] => []
      | b1 :: t1 =>
        if (b1 =? 110)%N then 10%N :: utf16_of_utf8 t1
        else if (b1 =? 120)%N then
          match t1 with
          | h1 :: h2 :: t2 =>
            (hex_value h1 * 16 + hex_value h2)%N :: utf16_of_utf8 t2
          | _ => []
          end
        else b1 :: utf16_of_utf8 t1
      end
    else if (b0 <? 128)%N then b0 :: utf16_of_utf8 t0 else
    match t0 with
    | [] => []
    | b1 :: t1 =>
      if (b0 <? 224)%N then
        utf16_of_code_point ((b0 - 192) * 64 + (b1 - 128)) ++ utf16_of_utf8 t1
      else
      match t1 with
      | [] => []
      | b2 :: t2 =>
        if (b0 <? 240)%N then
          utf16_of_code_point
            ((b0 - 224) * 4096 + (b1 - 128) * 64 + (b2 - 128))
            ++ utf16_of_utf8 t2
        else
        match t2 with
        | [] => []
        | b3 :: t3 =>
          utf16_of_code_point
            ((b0 - 240) * 262144 + (b1 - 128) * 4096
             + (b2 - 128) * 64 + (b3 - 128))
            ++ utf16_of_utf8 t3
        end
      end
    end
  end.

Definition js (s : string) : jsstring :=
  utf16_of_utf8 (map N_of_ascii (list_ascii_of_string s)).

(** The line feed. *)
Definition LF : char := 10%N.

(** *** Whitespace and [trim]

    [String.prototype.trim] and the regular-expression class [\s] remove
    or match the same set: WhiteSpace and LineTerminator of ECMAScript. *)

Definition isWhiteSpace (c : char) : bool :=
  ((9 <=? c) && (c <=? 13) || (c =? 32) || (c =? 160) || (c =? 5760)
   || (8192 <=? c) && (c <=? 8202) || (c =? 8232) || (c =? 8233)
   || (c =? 8239) || (c =? 8287) || (c =? 12288) || (c =? 65279))%N.

Fixpoint trimStart (s : jsstring) : jsstring :=
  match s with
  | c :: t => if isWhiteSpace c then trimStart t else s
  | [] => []
  end.

Definition trimEnd (s : jsstring) : jsstring := rev (trimStart (rev s)).

Definition trim (s : jsstring) : jsstring := trimEnd (trimStart s).

(** *** [startsWith], [endsWith], [indexOf], [lastIndexOf], [substring] *)

Fixpoint startsWith (s p : jsstring) {struct p} : bool :=
  match p, s with
  | [], _ => true
  | _ :: _, [] => false
  | a :: p', b :: s' => (a =? b)%N && startsWith s' p'
  end.

Definition endsWith (s p : jsstring) : bool := startsWith (rev s) (rev p).

Fixpoint indexOf_from (s p : jsstring) (i : Z) : Z :=
  if startsWith s p then i
  else match s with
       | [] => (-1)%Z
       | _ :: t => indexOf_from t p (i + 1)
       end.

(** [s.indexOf(p)]: the least index at which [p] occurs, or [-1]. *)
Definition indexOf (s p : jsstring) : Z := indexOf_from s p 0.

Fixpoint lastIndexOf_from (s p : jsstring) (i : Z) : Z :=
  match s with
  | [] => if startsWith s p then i else (-1)%Z
  | _ :: t =>
    let later := lastIndexOf_from t p (i + 1) in
    if (later =? -1)%Z then (if startsWith s p then i else (-1)%Z) else later
  end.

(** [s.lastIndexOf(p)]: the greatest index at which [p] occurs, or [-1]. *)
Definition lastIndexOf (s p : jsstring) : Z := lastIndexOf_from s p 0.

(** [s.substring(a, b)]: both bounds are clamped to [0, length] and
    swapped when out of order. *)
Definition substring (s : jsstring) (a b : Z) : jsstring :=
  let len := Z.of_nat (length s) in
  let a' := Z.min (Z.max a 0) len in
  let b' := Z.min (Z.max b 0) len in
  let lo := Z.min a' b' in
  let hi := Z.max a' b' in
  firstn (Z.to_nat (hi - lo)) (skipn (Z.to_nat lo) s).

(** [parts.join(sep)]. *)
Fixpoint join (sep : jsstring) (parts : list jsstring) : jsstring :=
  match parts with
  | [] => []
  | [p] => p
  | p :: rest => p ++ sep ++ join sep rest
  end.

(** [s.replace(/c/g, by)] for a one-character pattern. *)
Fixpoint replaceAll (c : char) (by_ : jsstring) (s : jsstring) : jsstring :=
  match s with
  | [] => []
  | x :: t => (if (x =? c)%N then by_ else [x]) ++ replaceAll c by_ t
  end.

(** The decimal digits of a non-negative integer, as [ToString] gives
    them for the array indices the handlers print. *)
Fixpoint decimal_of_uint (d : Decimal.uint) : jsstring :=
  match d with
  | Decimal.Nil => []
  | Decimal.D0 d' => 48%N :: decimal_of_uint d'
  | Decimal.D1 d' => 49%N :: decimal_of_uint d'
  | Decimal.D2 d' => 50%N :: decimal_of_uint d'
  | Decimal.D3 d' => 51%N :: decimal_of_uint d'
  | Decimal.D4 d' => 52%N :: decimal_of_uint d'
  | Decimal.D5 d' => 53%N :: decimal_of_uint d'
  | Decimal.D6 d' => 54%N :: decimal_of_uint d'
  | Decimal.D7 d' => 55%N :: decimal_of_uint d'
  | Decimal.D8 d' => 56%N :: decimal_of_uint d'
  | Decimal.D9 d' => 57%N :: decimal_of_uint d'
  end.

Definition decimal (n : nat) : jsstring := decimal_of_uint (Nat.to_uint n).

(** ** Regular expressions

    The two patterns of [extractJsonFromResponse] are sequences of
    literal characters, greedy stars over a character class and one lazy
    capturing star over a character class.  [exec] is the backtracking
    matcher of ECMAScript restricted to these forms: alternatives are
    tried in priority order (a greedy star the longest repetition first,
    a lazy star the shortest first) and the first success is the match.
    The result is the text of capture group 1. *)

Inductive atom : Type :=
| Lit (c : char)                   (* the character c *)
| Star (cls : char -> bool)        (* cls*  : greedy *)
| Capture_lazy (cls : char -> bool). (* (cls*?) : the capture group, lazy *)

Definition regex := list atom.

Fixpoint exec (re : regex) : jsstring -> option jsstring :=
  match re with
  | [] => fun _ => Some []
  | Lit c :: re' =>
    fun s =>
      match s with
      | x :: s' => if (x =? c)%N then exec re' s' else None
      | [] => None
      end
  | Star cls :: re' =>
    fix star (s : jsstring) : option jsstring :=
      match s with
      | x :: s' =>
        if cls x then
          match star s' with
          | Some m => Some m
          | None => exec re' s
          end
        else exec re' s
      | [] => exec re' s
      end
  | Capture_lazy cls :: re' =>
    fix grp (s : jsstring) : option jsstring :=
      match exec re' s with
      | Some _ => Some []
      | None =>
        match s with
        | x :: s' => if cls x then option_map (cons x) (grp s') else None
        | [] => None
        end
      end
  end.

(** [s.match(re)] for a pattern without the [g] flag: the match at the
    leftmost start position; [None] is JavaScript's [null], [Some g] the
    text of group 1. *)
Fixpoint regex_match (re : regex) (s : jsstring) : option jsstring :=
  match exec re s with
  | Some g => Some g
  | None =>
    match s with
    | [] => None
    | _ :: s' => regex_match re s'
    end
  end.

Definition lits (s : jsstring) : regex := map Lit s.
Definition any_char (_ : char) : bool := true.

(** ** JavaScript values and [JSON.parse]

    [VNumber neg m e] is the number whose JSON text denotes
    [(-1)^neg * m * 10^e]; the decimal is kept exactly and never
    compared, only tested for being zero (see [truthy]).  An object keeps
    its properties in creation order. *)

Inductive value : Type :=
| VUndefined
| VNull
| VBool (b : bool)
| VNumber (neg : bool) (m : N) (e : Z)
| VString (s : jsstring)
| VArray (items : list value)
| VObject (props : list (jsstring * value)).

Definition jsstring_eqb (a b : jsstring) : bool :=
  (length a =? length b)%nat && startsWith a b.

(** [obj[k] = v]: overwrite in place or append. *)
Fixpoint set_prop (props : list (jsstring * value)) (k : jsstring) (v : value)
  : list (jsstring * value) :=
  match props with
  | [] => [(k, v)]
  | (k', v') :: rest =>
    if jsstring_eqb k' k then (k, v) :: rest else (k', v') :: set_prop rest k v
  end.

Fixpoint lookup (props : list (jsstring * value)) (k : jsstring) : value :=
  match props with
  | [] => VUndefined
  | (k', v) :: rest => if jsstring_eqb k' k then v else lookup rest k
  end.

(** [v.k] for a property name [k] that no built-in prototype defines
    (the handlers read [title], [sections], [titles], [description], ...):
    [None] is the TypeError of reading a property of [null] or
    [undefined]; a primitive, an array or an object without the property
    gives [undefined]. *)
Definition get (v : value) (k : jsstring) : option value :=
  match v with
  | VUndefined | VNull => None
  | VObject props => Some (lookup props k)
  | _ => Some VUndefined
  end.

(** A JSON number is zero as a double when it is zero or rounds to zero:
    [m * 10^e <= 2^-1075] (round to nearest, ties to even). *)
Definition number_is_zero (m : N) (e : Z) : bool :=
  if (m =? 0)%N then true
  else if (0 <=? e)%Z then false
  else (Z.of_N m * 2 ^ 1075 <=? 10 ^ (- e))%Z.

(** [ToBoolean]. *)
Definition truthy (v : value) : bool :=
  match v with
  | VUndefined | VNull => false
  | VBool b => b
  | VNumber _ m e => negb (number_is_zero m e)
  | VString s => negb (jsstring_eqb s [])
  | VArray _ | VObject _ => true
  end.

Definition isArray (v : value) : bool :=
  match v with VArray _ => true | _ => false end.

(** *** The JSON grammar (ECMA-404), by recursive descent *)

Definition is_json_ws (c : char) : bool :=
  ((c =? 9) || (c =? 10) || (c =? 13) || (c =? 32))%N.

Fixpoint skip_ws (s : jsstring) : jsstring :=
  match s with
  | c :: t => if is_json_ws c then skip_ws t else s
  | [] => []
  end.

Definition is_digit (c : char) : bool := ((48 <=? c) && (c <=? 57))%N.

Definition hex_digit (c : char) : option N :=
  if is_digit c then Some (c - 48)%N
  else if ((97 <=? c) && (c <=? 102))%N then Some (c - 87)%N
  else if ((65 <=? c) && (c <=? 70))%N then Some (c - 55)%N
  else None.

Definition hex4 (a b c d : char) : option char :=
  match hex_digit a, hex_digit b, hex_digit c, hex_digit d with
  | Some x, Some y, Some z, Some w => Some (((x * 16 + y) * 16 + z) * 16 + w)%N
  | _, _, _, _ => None
  end.

(** The character a two-character escape stands for. *)
Definition unescape (c : char) : option char :=
  if (c =? 34)%N then Some 34%N          (* quote *)
  else if (c =? 92)%N then Some 92%N     (* backslash *)
  else if (c =? 47)%N then Some 47%N     (* slash *)
  else if (c =? 98)%N then Some 8%N      (* b: backspace *)
  else if (c =? 102)%N then Some 12%N    (* f: form feed *)
  else if (c =? 110)%N then Some 10%N    (* n: line feed *)
  else if (c =? 114)%N then Some 13%N    (* r: carriage return *)
  else if (c =? 116)%N then Some 9%N     (* t: tab *)
  else None.

Definition consumed (c : char) (r : option (jsstring * jsstring))
  : option (jsstring * jsstring) :=
  match r with
  | Some (str, rest) => Some (c :: str, rest)
  | None => None
  end.

(** The characters of a string literal, after its opening quote: the
    decoded string and the text after the closing quote. *)
Fixpoint parse_chars (s : jsstring) : option (jsstring * jsstring) :=
  match s with
  | [] => None
  | c :: t =>
    if (c =? 34)%N then Some ([], t)
    else if (c =? 92)%N then
      match t with
      | [] => None
      | e :: t' =>
        if (e =? 117)%N then
          match t' with
          | h1 :: h2 :: h3 :: h4 :: t'' =>
            match hex4 h1 h2 h3 h4 with
            | Some u => consumed u (parse_chars t'')
            | None => None
            end
          | _ => None
          end
        else
          match unescape e with
          | Some d => consumed d (parse_chars t')
          | None => None
          end
      end
    else if (c <? 32)%N then None
    else consumed c (parse_chars t)
  end.

(** A maximal run of digits: their values, and the rest. *)
Fixpoint span_digits (s : jsstring) : list N * jsstring :=
  match s with
  | c :: t =>
    if is_digit c then let (ds, r) := span_digits t in ((c - 48)%N :: ds, r)
    else ([], s)
  | [] => ([], [])
  end.

Definition N_of_digits (ds : list N) : N :=
  fold_left (fun acc d => (acc * 10 + d)%N) ds 0%N.

(** number = [-] int [frac] [exp]; int has no leading zero. *)

Definition parse_sign (s : jsstring) : bool * jsstring :=
  match s with
  | c :: t => if (c =? 45)%N then (true, t) else (false, s)
  | [] => (false, s)
  end.

(** The digits after the decimal point, if there is one. *)
Definition parse_frac (s : jsstring) : option (list N * jsstring) :=
  match s with
  | c :: t =>
    if (c =? 46)%N then
      let (ds, r) := span_digits t in
      match ds with [] => None | _ => Some (ds, r) end
    else Some ([], s)
  | [] => Some ([], s)
  end.

(** The sign of an exponent. *)
Definition parse_exp_sign (s : jsstring) : bool * jsstring :=
  match s with
  | sg :: u =>
    if (sg =? 45)%N then (true, u)
    else if (sg =? 43)%N then (false, u)
    else (false, s)
  | [] => (false, s)
  end.

(** The exponent, [0] when there is none. *)
Definition parse_exp (s : jsstring) : option (Z * jsstring) :=
  match s with
  | c :: t =>
    if ((c =? 101) || (c =? 69))%N then
      let (eneg, t') := parse_exp_sign t in
      let (ds, r) := span_digits t' in
      match ds with
      | [] => None
      | _ =>
        let x := Z.of_N (N_of_digits ds) in
        Some ((if eneg then - x else x)%Z, r)
      end
    else Some (0%Z, s)
  | [] => Some (0%Z, s)
  end.

Definition parse_number (s : jsstring) : option (value * jsstring) :=
  let (neg, s1) := parse_sign s in
  let (int_ds, s2) := span_digits s1 in
  match int_ds with
  | [] => None
  | d0 :: more =>
    if (d0 =? 0)%N && negb (length more =? 0)%nat then None else
    match parse_frac s2 with
    | None => None
    | Some (frac_ds, s3) =>
      match parse_exp s3 with
      | None => None
      | Some (x, s4) =>
        Some (VNumber neg (N_of_digits (int_ds ++ frac_ds))
                      (x - Z.of_nat (length frac_ds)), s4)
      end
    end
  end.

(** A keyword ([true], [false], [null]) at the head of the text. *)
Definition keyword (k : jsstring) (v : value) (s : jsstring)
  : option (value * jsstring) :=
  if startsWith s k then Some (v, skipn (length k) s) else None.

(** [parse_value], [parse_elements] (after [[] or [,]) and [parse_members]
    (after [{] or [,]).  Every recursive call spends one unit of fuel;
    a chain of calls spends at most two units for each character it
    has read, so [JSON_parse] starts with twice the length of the text
    (that this is enough is [JSON_parse_enough_fuel] below). *)
Fixpoint parse_value (fuel : nat) (s : jsstring) {struct fuel}
  : option (value * jsstring) :=
  match fuel with
  | O => None
  | S fuel' =>
    match skip_ws s with
    | [] => None
    | c :: t =>
      if (c =? 34)%N then
        match parse_chars t with
        | Some (str, r) => Some (VString str, r)
        | None => None
        end
      else if (c =? 91)%N then
        match skip_ws t with
        | c' :: r =>
          if (c' =? 93)%N then Some (VArray [], r)
          else match parse_elements fuel' t with
               | Some (vs, r') => Some (VArray vs, r')
               | None => None
               end
        | [] => None
        end
      else if (c =? 123)%N then
        match skip_ws t with
        | c' :: r =>
          if (c' =? 125)%N then Some (VObject [], r)
          else match parse_members fuel' t with
               | Some (kvs, r') =>
                 Some (VObject
                         (fold_left (fun o kv => set_prop o (fst kv) (snd kv))
                                    kvs []), r')
               | None => None
               end
        | [] => None
        end
      else if (c =? 116)%N then keyword (js "true") (VBool true) (c :: t)
      else if (c =? 102)%N then keyword (js "false") (VBool false) (c :: t)
      else if (c =? 110)%N then keyword (js "null") VNull (c :: t)
      else parse_number (c :: t)
    end
  end

with parse_elements (fuel : nat) (s : jsstring) {struct fuel}
  : option (list value * jsstring) :=
  match fuel with
  | O => None
  | S fuel' =>
    match parse_value fuel' s with
    | None => None
    | Some (v, r) =>
      match skip_ws r with
      | c :: r' =>
        if (c =? 44)%N then
          match parse_elements fuel' r' with
          | Some (vs, r'') => Some (v :: vs, r'')
          | None => None
          end
        else if (c =? 93)%N then Some ([v], r')
        else None
      | [] => None
      end
    end
  end

with parse_members (fuel : nat) (s : jsstring) {struct fuel}
  : option (list (jsstring * value) * jsstring) :=
  match fuel with
  | O => None
  | S fuel' =>
    match skip_ws s with
    | q :: t =>
      if (q =? 34)%N then
        match parse_chars t with
        | None => None
        | Some (k, r) =>
          match skip_ws r with
          | colon :: r1 =>
            if (colon =? 58)%N then
              match parse_value fuel' r1 with
              | None => None
              | Some (v, r2) =>
                match skip_ws r2 with
                | c :: r3 =>
                  if (c =? 44)%N then
                    match parse_members fuel' r3 with
                    | Some (kvs, r4) => Some ((k, v) :: kvs, r4)
                    | None => None
                    end
                  else if (c =? 125)%N then Some ([(k, v)], r3)
                  else None
                | [] => None
                end
              end
            else None
          | [] => None
          end
        end
      else None
    | [] => None
    end
  end.

(** [JSON.parse(text)]: [None] is the SyntaxError. *)
Definition JSON_parse (text : jsstring) : option value :=
  match parse_value (2 * length text + 2) text with
  | Some (v, rest) =>
    match skip_ws rest with
    | [] => Some v
    | _ :: _ => None
    end
  | None => None
  end.

(** ** Text recovery: [extractJsonFromResponse]

    The function is declared, with the same body, in the title, article
    and metadata routes. *)

Definition fence : jsstring := js "```".
Definition json_tag : jsstring := js "```json".

(** The part both patterns share: \s*([\s\S]*?)\s*``` *)
Definition re_block : regex :=
  [Star isWhiteSpace; Capture_lazy any_char; Star isWhiteSpace] ++ lits fence.

(** /```json\s*([\s\S]*?)\s*```/ *)
Definition re_json_fence : regex := lits json_tag ++ re_block.

(** /```\s*([\s\S]*?)\s*```/ *)
Definition re_any_fence : regex := lits fence ++ re_block.

Definition brace_scan (response : jsstring) : jsstring :=
  let jsonStart := indexOf response (js "{") in
  let jsonEnd := lastIndexOf response (js "}") in
  if negb (jsonStart =? -1)%Z && negb (jsonEnd =? -1)%Z
     && (jsonStart <? jsonEnd)%Z
  then substring response jsonStart (jsonEnd + 1)
  else trim response.

Definition any_fence_or_scan (response : jsstring) : jsstring :=
  match regex_match re_any_fence response with
  | Some g =>
    let content := trim g in
    if startsWith content (js "{") && endsWith content (js "}")
    then content
    else brace_scan response
  | None => brace_scan response
  end.

Definition extractJsonFromResponse (response : jsstring) : jsstring :=
  match JSON_parse (trim response) with
  | Some _ => trim response
  | None =>
    match regex_match re_json_fence response with
    | Some g => trim g
    | None => any_fence_or_scan response
    end
  end.

(** ** Exceptions and console output

    The handlers throw, catch and log.  A computation yields the lines
    it wrote to the console and either the exception it threw or its
    result. *)

Inductive exn : Type :=
| Error (message : jsstring)            (* new Error(message) *)
| ErrorFrom (prefix : jsstring) (cause : exn)
                                        (* new Error(prefix + cause.message) *)
| SyntaxError                           (* thrown by JSON.parse *)
| TypeError                             (* property of null, call of a non-function *)
| Rejected.                             (* a rejected network or API promise *)

(** One console call; only its first argument, the message literal, is
    kept. *)
Inductive log_entry : Type :=
| ConsoleError (message : jsstring)
| ConsoleWarn (message : jsstring).

Definition M (A : Type) : Type := (list log_entry * (exn + A))%type.

Definition ret {A} (a : A) : M A := ([], inr a).
Definition throw {A} (e : exn) : M A := ([], inl e).
Definition console_error (message : jsstring) : M unit :=
  ([ConsoleError message], inr tt).
Definition console_warn (message : jsstring) : M unit :=
  ([ConsoleWarn message], inr tt).

Definition bind {A B} (m : M A) (k : A -> M B) : M B :=
  match m with
  | (out, inl e) => (out, inl e)
  | (out, inr a) => let (out', r) := k a in (out ++ out', r)
  end.

(** [try { m } catch (e) { handler e }]. *)
Definition try_catch {A} (m : M A) (handler : exn -> M A) : M A :=
  match m with
  | (out, inl e) => let (out', r) := handler e in (out ++ out', r)
  | (out, inr a) => (out, inr a)
  end.

Notation "x <- m ;; k" := (bind m (fun x => k))
  (at level 61, m at next level, right associativity).
Notation "m ;;; k" := (bind m (fun _ => k))
  (at level 61, right associativity).

(** Property read and [JSON.parse], throwing. *)
Definition prop (v : value) (k : jsstring) : M value :=
  match get v k with
  | Some x => ret x
  | None => throw TypeError
  end.

Definition parse (text : jsstring) : M value :=
  match JSON_parse text with
  | Some v => ret v
  | None => throw SyntaxError
  end.

(** [items.map((x, index) => f x index)], starting at index [i]. *)
Fixpoint mapi_M {A B} (f : A -> nat -> M B) (items : list A) (i : nat)
  : M (list B) :=
  match items with
  | [] => ret []
  | x :: rest =>
    y <- f x i ;;
    ys <- mapi_M f rest (S i) ;;
    ret (y :: ys)
  end.

(** What a service has when it reads
    [completion.choices[0]?.message?.content], after it has built its
    prompts and awaited [openai.chat.completions.create].  [ApiRejects]:
    an exception came first (the promise was rejected, or a hole of a
    prompt could not be converted to a string); [ApiReturns]: the content
    is a string, or is [null] or missing. *)
Inductive completion : Type :=
| ApiRejects
| ApiReturns (content : option jsstring).

(** [const response = ...content; if (!response) throw ...]. *)
Definition completion_text (api : completion) : M jsstring :=
  match api with
  | ApiRejects => throw Rejected
  | ApiReturns None => throw (Error (js "OpenAIからの応答が取得できませんでした"))
  | ApiReturns (Some response) =>
    if jsstring_eqb response []
    then throw (Error (js "OpenAIからの応答が取得できませんでした"))
    else ret response
  end.

(** The two catch blocks every generation service ends with. *)
Definition on_parseError {A} (parseError : exn) : M A :=
  console_error (js "JSON解析エラー:") ;;;
  console_error (js "元の応答:") ;;;
  console_error (js "クリーンされた応答:") ;;;
  throw (ErrorFrom (js "応答の解析に失敗しました: ") parseError).

Definition on_apiError {A} (error : exn) : M A :=
  console_error (js "OpenAI API エラー:") ;;;
  throw (Error (js "OpenAI APIキーが設定されていないか、APIへの接続に失敗しました。")).

Definition invalid_structure {A} : M A :=
  console_error (js "Invalid response structure:") ;;;
  throw (Error (js "応答の形式が正しくありません")).

(** ** Article generation ([generate-article] route) *)

(** The prompts are built from the request fields and sent to the
    model; what comes of that is [api], the environment's, and is given
    (see [completion]). *)
Definition generateOptimizedArticleWithAI (api : completion) : M value :=
  try_catch
    (response <- completion_text api ;;
     let cleanJsonString := extractJsonFromResponse response in
     try_catch
       (parsedResponse <- parse cleanJsonString ;;
        title <- prop parsedResponse (js "title") ;;
        if negb (truthy title) then invalid_structure else
        sections <- prop parsedResponse (js "sections") ;;
        if negb (truthy sections) || negb (isArray sections)
        then invalid_structure
        else ret parsedResponse)
       on_parseError)
    on_apiError.

(** ** Title generation ([generate-titles] route) *)

Record GeneratedTitle : Type := {
  id : jsstring;
  title : value;
  description : value
}.

(** The arrow function [(title, index) => ({ id: 'ai-title-' + (index + 1),
    title: title.title, description: title.description })]. *)
Definition toGeneratedTitle (title : value) (index : nat) : M GeneratedTitle :=
  t <- prop title (js "title") ;;
  d <- prop title (js "description") ;;
  ret {| id := js "ai-title-" ++ decimal (index + 1);
         title := t;
         description := d |}.

Definition generateOptimizedTitlesWithAI (api : completion)
  : M (list GeneratedTitle) :=
  try_catch
    (response <- completion_text api ;;
     let cleanJsonString := extractJsonFromResponse response in
     try_catch
       (parsedResponse <- parse cleanJsonString ;;
        titles <- prop parsedResponse (js "titles") ;;
        if negb (truthy titles) || negb (isArray titles)
        then invalid_structure
        else
          match titles with
          | VArray items =>
            mapi_M toGeneratedTitle items 0
          | _ => throw TypeError
          end)
       on_parseError)
    on_apiError.

(** ** HTTP *)

Inductive http_response : Type :=
| JsonResponse (status : nat) (body : value)
    (* NextResponse.json(body, { status }) *)
| FileResponse (content : jsstring) (contentType : jsstring)
               (contentDisposition : jsstring).
    (* new NextResponse(content, { headers }), with the values of its
       Content-Type and Content-Disposition headers *)

Definition error_body (message : jsstring) : value :=
  VObject [(js "error", VString message)].

(** A request: what [request.json()] resolves to ([None]: it rejects)
    and [request.nextUrl.origin]. *)
Record Request : Type := {
  body : option value;
  origin : jsstring
}.

Definition request_json (request : Request) : M value :=
  match body request with
  | Some v => ret v
  | None => throw SyntaxError
  end.

(** A handler's outer [try]: whatever is thrown becomes the response of
    the [catch] block. *)
Definition respond (m : M http_response) (logged failed : jsstring)
  : list log_entry * http_response :=
  match m with
  | (out, inr r) => (out, r)
  | (out, inl _) =>
    (out ++ [ConsoleError logged], JsonResponse 500 (error_body failed))
  end.

Definition GeneratedTitle_value (t : GeneratedTitle) : value :=
  VObject [(js "id", VString (id t));
           (js "title", title t);
           (js "description", description t)].

Definition POST_titles (request : Request) (api : completion)
  : list log_entry * http_response :=
  respond
    (json <- request_json request ;;
     keyword <- prop json (js "keyword") ;;
     if negb (truthy keyword)
     then ret (JsonResponse 400 (error_body (js "キーワードが必要です")))
     else
       titles <- generateOptimizedTitlesWithAI api ;;
       ret (JsonResponse 200
              (VObject [(js "titles",
                         VArray (map GeneratedTitle_value titles))])))
    (js "タイトル生成エラー:") (js "タイトル生成に失敗しました").

(** *** The article handler and its dependent metadata call *)

(** What [fetch] answers: the promise rejects, or a response arrives with
    its [ok] flag and what [seoResponse.json()] resolves to ([None]: it
    rejects). *)
Inductive fetch_result : Type :=
| FetchRejects
| FetchResponds (ok : bool) (json : option value).

(** Whether [ToString] returns on a value that came out of
    [JSON.parse].  An object is converted by its [toString] method: the
    inherited one gives a fixed text, whereas a property of its own by
    that name is not a function, [valueOf] then gives the object back,
    and the conversion throws a TypeError.  An array is converted by
    [join]: its elements are converted in turn, except [null], which
    stands for the empty text. *)
Fixpoint converts (v : value) : bool :=
  match v with
  | VObject props =>
    negb (existsb (fun kv => jsstring_eqb (fst kv) (js "toString")) props)
  | VArray items => forallb converts items
  | _ => true
  end.

Section ArticleRoute.

(** [ToString] (built in): the text of a value that converts. *)
Variable ToString : value -> jsstring.

(** A template-literal hole: the value is converted, or the conversion
    throws (see [converts]). *)
Definition to_string (v : value) : M jsstring :=
  if converts v then ret (ToString v) else throw TypeError.

(** The network: the URL and the request body's object, before
    [JSON.stringify]. *)
Variable fetch : jsstring -> value -> fetch_result.

(** [`${sub.title}\n${sub.content}`] *)
Definition flatten_subheading (sub : value) (_ : nat) : M jsstring :=
  t <- prop sub (js "title") ;;
  t <- to_string t ;;
  c <- prop sub (js "content") ;;
  c <- to_string c ;;
  ret (t ++ js "\n" ++ c).

(** [`${section.heading}\n${section.content}\n${
      section.subheadings?.map(...).join('\n') || ''}`];
    [?.] stops at [null] and [undefined], and [.map] exists on arrays
    only. *)
Definition flatten_section (section : value) (_ : nat) : M jsstring :=
  h <- prop section (js "heading") ;;
  h <- to_string h ;;
  c <- prop section (js "content") ;;
  c <- to_string c ;;
  subheadings <- prop section (js "subheadings") ;;
  subs <- match subheadings with
          | VUndefined | VNull => ret []
          | VArray items =>
            parts <- mapi_M flatten_subheading items 0 ;;
            ret (join (js "\n") parts)
          | _ => throw TypeError
          end ;;
  ret (h ++ js "\n" ++ c ++ js "\n" ++ subs).

Definition articleContent (article : value) : M jsstring :=
  sections <- prop article (js "sections") ;;
  match sections with
  | VArray items =>
    parts <- mapi_M flatten_section items 0 ;;
    ret (join (js "\n") parts)
  | _ => throw TypeError
  end.

(** [article.seoMetadata = v] *)
Definition assign_seoMetadata (article v : value) : M value :=
  match article with
  | VObject props => ret (VObject (set_prop props (js "seoMetadata") v))
  | _ => throw TypeError
  end.

(** The body of [if (generateSEO) { try { ... } catch { ... } }]: the
    article as it is afterwards. *)
Definition attach_seo (request : Request)
           (article keyword description baseUrl : value) : M value :=
  try_catch
    (content <- articleContent article ;;
     title <- prop article (js "title") ;;
     match fetch (origin request ++ js "/api/generate-seo")
                 (VObject [(js "title", title);
                           (js "content", VString content);
                           (js "keyword", keyword);
                           (js "description", description);
                           (js "baseUrl", baseUrl)]) with
     | FetchRejects => throw Rejected
     | FetchResponds true (Some seoData) =>
       seoMetadata <- prop seoData (js "seoMetadata") ;;
       assign_seoMetadata article seoMetadata
     | FetchResponds true None => throw SyntaxError
     | FetchResponds false _ =>
       console_warn
         (js "SEOメタデータ生成に失敗しましたが、記事は正常に生成されました") ;;;
       ret article
     end)
    (fun seoError =>
       console_warn
         (js "SEOメタデータ生成でエラーが発生しましたが、記事は正常に生成されました:") ;;;
       ret article).

Definition POST_article (request : Request) (api : completion)
  : list log_entry * http_response :=
  respond
    (json <- request_json request ;;
     title <- prop json (js "title") ;;
     description <- prop json (js "description") ;;
     keyword <- prop json (js "keyword") ;;
     generateSEO <- prop json (js "generateSEO") ;;
     baseUrl <- prop json (js "baseUrl") ;;
     let generateSEO :=
       match generateSEO with VUndefined => VBool true | v => v end in
     if negb (truthy title) || negb (truthy keyword)
     then ret (JsonResponse 400
                 (error_body (js "タイトルとキーワードが必要です")))
     else
       article <- generateOptimizedArticleWithAI api ;;
       article <- (if truthy generateSEO
                   then attach_seo request article keyword description baseUrl
                   else ret article) ;;
       ret (JsonResponse 200 (VObject [(js "article", article)])))
    (js "記事生成エラー:") (js "記事生成に失敗しました").

End ArticleRoute.

(** ** Document export ([export] route) *)

Record Subheading : Type := {
  sub_title : jsstring;
  sub_content : jsstring
}.

Record ArticleSection : Type := {
  heading : jsstring;
  content : jsstring;
  subheadings : option (list Subheading)
}.

Record StructuredData : Type := {
  sd_type : jsstring;
  sd_name : jsstring;
  sd_description : jsstring;
  sd_author : jsstring;
  sd_datePublished : jsstring;
  sd_dateModified : jsstring;
  sd_keywords : list jsstring
}.

Record SEOMetadata : Type := {
  seo_title : jsstring;
  seo_description : jsstring;
  keywords : list jsstring;
  ogTitle : jsstring;
  ogDescription : jsstring;
  twitterTitle : jsstring;
  twitterDescription : jsstring;
  metaRobots : jsstring;
  canonicalUrl : option jsstring;
  structuredData : option StructuredData
}.

Record Article : Type := {
  art_title : jsstring;
  sections : list ArticleSection;
  seoMetadata : option SEOMetadata
}.

Record ExportOptions : Type := {
  includeSEO : option bool;
  includeStyles : option bool;
  filename : option jsstring
}.

(** What the [new Date()] calls of one export print:
    [toISOString().split('T')[0]] in the front matter,
    [toLocaleDateString('ja-JP')] in the HTML banner and in both footers,
    [toLocaleTimeString('ja-JP')] in the HTML footer. *)
Record Clock : Type := {
  isoDate : jsstring;
  bannerDate : jsstring;
  footerDate : jsstring;
  footerTime : jsstring
}.

(** Truthiness of an optional boolean and of an optional string. *)
Definition flag (b : option bool) : bool :=
  match b with Some true => true | _ => false end.

Definition nonempty (s : option jsstring) : option jsstring :=
  match s with
  | Some (c :: t) => Some (c :: t)
  | _ => None
  end.

(** [options.includeSEO && article.seoMetadata] *)
Definition seo_included (article : Article) (options : ExportOptions)
  : option SEOMetadata :=
  if flag (includeSEO options) then seoMetadata article else None.

(** *** Markdown *)

(** The callback of [section.subheadings.forEach]: [markdown] before
    and after. *)
Definition markdown_subheading (markdown : jsstring) (sub : Subheading)
  : jsstring :=
  let markdown := markdown ++ js "### " ++ sub_title sub ++ js "\n\n" in
  let markdown := markdown ++ sub_content sub ++ js "\n\n" in
  markdown.

(** The callback of [article.sections.forEach]. *)
Definition markdown_section (markdown : jsstring) (section : ArticleSection)
  : jsstring :=
  let markdown := markdown ++ js "## " ++ heading section ++ js "\n\n" in
  let markdown := markdown ++ content section ++ js "\n\n" in
  match subheadings section with
  | Some subs => fold_left markdown_subheading subs markdown
  | None => markdown
  end.

Definition generateMarkdown (clock : Clock) (article : Article)
           (options : ExportOptions) : jsstring :=
  let markdown := [] in
  let markdown :=
    match seo_included article options with
    | Some seo =>
      let markdown := markdown ++ js "---\n" in
      let markdown :=
        markdown ++ js "title: \x22" ++ seo_title seo ++ js "\x22\n" in
      let markdown :=
        markdown ++ js "description: \x22" ++ seo_description seo
                 ++ js "\x22\n" in
      let markdown :=
        markdown ++ js "keywords: ["
                 ++ join (js ", ")
                      (map (fun k => js "\x22" ++ k ++ js "\x22")
                           (keywords seo))
                 ++ js "]\n" in
      let markdown :=
        markdown ++ js "robots: \x22" ++ metaRobots seo ++ js "\x22\n" in
      let markdown :=
        match nonempty (canonicalUrl seo) with
        | Some url => markdown ++ js "canonical: \x22" ++ url ++ js "\x22\n"
        | None => markdown
        end in
      let markdown :=
        markdown ++ js "date: \x22" ++ isoDate clock ++ js "\x22\n" in
      let markdown := markdown ++ js "author: \x22CloudFlow Dynamics\x22\n" in
      let markdown := markdown ++ js "og:\n" in
      let markdown :=
        markdown ++ js "  title: \x22" ++ ogTitle seo ++ js "\x22\n" in
      let markdown :=
        markdown ++ js "  description: \x22" ++ ogDescription seo
                 ++ js "\x22\n" in
      let markdown := markdown ++ js "  type: \x22article\x22\n" in
      let markdown := markdown ++ js "twitter:\n" in
      let markdown :=
        markdown ++ js "  title: \x22" ++ twitterTitle seo ++ js "\x22\n" in
      let markdown :=
        markdown ++ js "  description: \x22" ++ twitterDescription seo
                 ++ js "\x22\n" in
      let markdown :=
        markdown ++ js "  card: \x22summary_large_image\x22\n" in
      markdown ++ js "---\n\n"
    | None => markdown
    end in
  let markdown := markdown ++ js "# " ++ art_title article ++ js "\n\n" in
  let markdown := fold_left markdown_section (sections article) markdown in
  let markdown := markdown ++ js "---\n\n" in
  let markdown :=
    markdown
      ++ js "*この記事は [LLMO コンテンツ生成システム](https://github.com/ukenn2112/llmo-content) により自動生成されました。*\n" in
  let markdown :=
    markdown ++ js "*生成日: " ++ footerDate clock ++ js "*\n" in
  markdown.

(** *** HTML *)

Definition html_entity (m : char) : option jsstring :=
  if (m =? 38)%N then Some (js "&amp;")
  else if (m =? 60)%N then Some (js "&lt;")
  else if (m =? 62)%N then Some (js "&gt;")
  else if (m =? 34)%N then Some (js "&quot;")
  else if (m =? 39)%N then Some (js "&#039;")
  else None.

(** [text.replace(re, (m) => map[m])], where [re] is the global pattern
    for one character out of ampersand, less-than, greater-than, double
    quote and apostrophe. *)
Definition escapeHtml (text : jsstring) : jsstring :=
  flat_map (fun m => match html_entity m with
                     | Some entity => entity
                     | None => [m]
                     end) text.

(** The inline stylesheet. *)
Definition html_styles : jsstring := js "
  <style>
    body {
      font-family: -apple-system, BlinkMacSystemFont, 'Segoe UI', 'Roboto', 'Oxygen', 'Ubuntu', 'Cantarell', sans-serif;
      line-height: 1.6;
      max-width: 800px;
      margin: 0 auto;
      padding: 20px;
      color: #333;
      background-color: #fff;
    }
    
    h1 {
      color: #2c3e50;
      border-bottom: 3px solid #3498db;
      padding-bottom: 10px;
      margin-bottom: 30px;
    }
    
    h2 {
      color: #34495e;
      margin-top: 40px;
      margin-bottom: 20px;
      padding-left: 10px;
      border-left: 4px solid #3498db;
    }
    
    h3 {
      color: #7f8c8d;
      margin-top: 30px;
      margin-bottom: 15px;
    }
    
    p {
      margin-bottom: 16px;
      text-align: justify;
    }
    
    .section {
      margin-bottom: 40px;
    }
    
    .subsection {
      margin-left: 20px;
      margin-bottom: 25px;
      padding: 15px;
      background-color: #f8f9fa;
      border-radius: 8px;
      border-left: 3px solid #28a745;
    }
    
    .footer {
      margin-top: 60px;
      padding: 20px;
      background-color: #ecf0f1;
      border-radius: 8px;
      text-align: center;
      color: #7f8c8d;
      font-size: 14px;
    }
    
    .meta-info {
      background-color: #e3f2fd;
      padding: 15px;
      border-radius: 8px;
      margin-bottom: 30px;
      border-left: 4px solid #2196f3;
    }
    
    .meta-info h4 {
      margin: 0 0 10px 0;
      color: #1976d2;
    }
    
    @media (max-width: 768px) {
      body {
        padding: 10px;
      }
      
      .subsection {
        margin-left: 10px;
      }
    }
    
    @media print {
      body {
        background-color: white;
      }
      
      .footer {
        background-color: white;
        border: 1px solid #ddd;
      }
    }
  </style>
".

(** The callback of [section.subheadings.forEach]: [html] before and
    after. *)
Definition html_subheading (html : jsstring) (sub : Subheading) : jsstring :=
  let html := html ++ js "    <div class=\x22subsection\x22>\n" in
  let html :=
    html ++ js "      <h3>" ++ escapeHtml (sub_title sub) ++ js "</h3>\n" in
  let html :=
    html ++ js "      <p>"
         ++ replaceAll LF (js "</p>\n      <p>") (escapeHtml (sub_content sub))
         ++ js "</p>\n" in
  let html := html ++ js "    </div>\n" in
  html.

(** The callback of [article.sections.forEach]. *)
Definition html_section (html : jsstring) (section : ArticleSection)
  : jsstring :=
  let html := html ++ js "  <div class=\x22section\x22>\n" in
  let html :=
    html ++ js "    <h2>" ++ escapeHtml (heading section) ++ js "</h2>\n" in
  let html :=
    html ++ js "    <p>"
         ++ replaceAll LF (js "</p>\n    <p>") (escapeHtml (content section))
         ++ js "</p>\n" in
  let html :=
    match subheadings section with
    | Some subs => fold_left html_subheading subs html
    | None => html
    end in
  let html := html ++ js "  </div>\n\n" in
  html.

(** The export handler's trace records, besides console output, each
    call of a generator. *)

Inductive export_event : Type :=
| Called_generateMarkdown
| Called_generateHTML
| Logged (entry : log_entry).

Record ExportRequest : Type := {
  format : value;
  article : option Article;
  options : option ExportOptions
}.

Definition default_options : ExportOptions :=
  {| includeSEO := None; includeStyles := None; filename := None |}.

(** [encodeURIComponent]: a character of the unreserved set stands for
    itself, any other code point for the octets of its UTF-8 encoding,
    each written as a percent sign and two capital hexadecimal digits.
    [None] is the URIError of a surrogate without its pair. *)

Definition uri_unreserved (c : char) : bool :=
  ((65 <=? c) && (c <=? 90) || (97 <=? c) && (c <=? 122)
   || (48 <=? c) && (c <=? 57)
   || (c =? 45) || (c =? 95) || (c =? 46) || (c =? 33) || (c =? 126)
   || (c =? 42) || (c =? 39) || (c =? 40) || (c =? 41))%N.

Definition hex_upper (d : N) : char :=
  if (d <? 10)%N then (48 + d)%N else (55 + d)%N.

Definition percent_octet (octet : N) : jsstring :=
  [37%N; hex_upper (octet / 16); hex_upper (octet mod 16)].

Definition utf8_of_code_point (cp : N) : list N :=
  if (cp <? 128)%N then [cp]
  else if (cp <? 2048)%N then [(192 + cp / 64)%N; (128 + cp mod 64)%N]
  else if (cp <? 65536)%N then
    [(224 + cp / 4096)%N; (128 + (cp / 64) mod 64)%N; (128 + cp mod 64)%N]
  else
    [(240 + cp / 262144)%N; (128 + (cp / 4096) mod 64)%N;
     (128 + (cp / 64) mod 64)%N; (128 + cp mod 64)%N].

Definition percent_encoded (cp : N) : jsstring :=
  flat_map percent_octet (utf8_of_code_point cp).

Definition is_high_surrogate (c : char) : bool :=
  ((55296 <=? c) && (c <=? 56319))%N.

Definition is_low_surrogate (c : char) : bool :=
  ((56320 <=? c) && (c <=? 57343))%N.

Fixpoint encodeURIComponent (s : jsstring) : option jsstring :=
  match s with
  | [] => Some []
  | c :: t =>
    if uri_unreserved c then option_map (cons c) (encodeURIComponent t)
    else if is_low_surrogate c then None
    else if is_high_surrogate c then
      match t with
      | d :: t' =>
        if is_low_surrogate d
        then option_map
               (app (percent_encoded
                       (65536 + (c - 55296) * 1024 + (d - 56320))))
               (encodeURIComponent t')
        else None
      | [] => None
      end
    else option_map (app (percent_encoded c)) (encodeURIComponent t)
  end.

(** The handler's last statement, [return new NextResponse(...)], after
    [called] has produced [exportedContent].  A file name that
    [encodeURIComponent] refuses throws, and the handler's [catch]
    answers. *)
Definition send_file (called : export_event)
           (exportedContent mimeType filename : jsstring)
  : list export_event * http_response :=
  match encodeURIComponent filename with
  | Some encoded =>
    ([called],
     FileResponse exportedContent (mimeType ++ js "; charset=utf-8")
                  (js "attachment; filename=\x22" ++ encoded ++ js "\x22"))
  | None =>
    ([called; Logged (ConsoleError (js "エクスポートエラー:"))],
     JsonResponse 500 (error_body (js "エクスポートに失敗しました")))
  end.

Section HtmlExport.

(** [JSON.stringify(seo.structuredData, null, 2)] (built in). *)
Variable JSON_stringify : StructuredData -> jsstring.

Definition generateHTML (clock : Clock) (article : Article)
           (options : ExportOptions) : jsstring :=
  let includeStyles :=
    match includeStyles options with Some false => false | _ => true end in
  let html := js "<!DOCTYPE html>\n<html lang=\x22ja\x22>\n<head>\n" in
  let html := html ++ js "  <meta charset=\x22UTF-8\x22>\n" in
  let html :=
    html ++ js "  <meta name=\x22viewport\x22 content=\x22width=device-width, initial-scale=1.0\x22>\n" in
  let html :=
    match seo_included article options with
    | Some seo =>
      let html :=
        html ++ js "  <title>" ++ escapeHtml (seo_title seo)
             ++ js "</title>\n" in
      let html :=
        html ++ js "  <meta name=\x22description\x22 content=\x22"
             ++ escapeHtml (seo_description seo) ++ js "\x22>\n" in
      let html :=
        html ++ js "  <meta name=\x22keywords\x22 content=\x22"
             ++ escapeHtml (join (js ", ") (keywords seo))
             ++ js "\x22>\n" in
      let html :=
        html ++ js "  <meta name=\x22robots\x22 content=\x22"
             ++ escapeHtml (metaRobots seo) ++ js "\x22>\n" in
      let html :=
        match nonempty (canonicalUrl seo) with
        | Some url =>
          html ++ js "  <link rel=\x22canonical\x22 href=\x22"
               ++ escapeHtml url ++ js "\x22>\n"
        | None => html
        end in
      let html :=
        html ++ js "  <meta property=\x22og:title\x22 content=\x22"
             ++ escapeHtml (ogTitle seo) ++ js "\x22>\n" in
      let html :=
        html ++ js "  <meta property=\x22og:description\x22 content=\x22"
             ++ escapeHtml (ogDescription seo) ++ js "\x22>\n" in
      let html :=
        html ++ js "  <meta property=\x22og:type\x22 content=\x22article\x22>\n" in
      let html :=
        match nonempty (canonicalUrl seo) with
        | Some url =>
          html ++ js "  <meta property=\x22og:url\x22 content=\x22"
               ++ escapeHtml url ++ js "\x22>\n"
        | None => html
        end in
      let html :=
        html ++ js "  <meta name=\x22twitter:card\x22 content=\x22summary_large_image\x22>\n" in
      let html :=
        html ++ js "  <meta name=\x22twitter:title\x22 content=\x22"
             ++ escapeHtml (twitterTitle seo) ++ js "\x22>\n" in
      let html :=
        html ++ js "  <meta name=\x22twitter:description\x22 content=\x22"
             ++ escapeHtml (twitterDescription seo) ++ js "\x22>\n" in
      match structuredData seo with
      | Some data =>
        let html :=
          html ++ js "  <script type=\x22application/ld+json\x22>\n" in
        let html := html ++ js "  " ++ JSON_stringify data ++ js "\n" in
        html ++ js "  </script>\n"
      | None => html
      end
    | None =>
      html ++ js "  <title>" ++ escapeHtml (art_title article)
           ++ js "</title>\n"
    end in
  let html := if includeStyles then html ++ html_styles else html in
  let html := html ++ js "</head>\n<body>\n" in
  let html :=
    match seo_included article options with
    | Some _ =>
      let html := html ++ js "  <div class=\x22meta-info\x22>\n" in
      let html := html ++ js "    <h4>📊 記事情報</h4>\n" in
      let html :=
        html ++ js "    <p><strong>生成日:</strong> " ++ bannerDate clock
             ++ js "</p>\n" in
      let html :=
        html ++ js "    <p><strong>生成システム:</strong> LLMO コンテンツ生成システム (CloudFlow Dynamics)</p>\n" in
      let html :=
        html ++ js "    <p><strong>最適化:</strong> SEO + LLMO/GEO統合最適化</p>\n" in
      html ++ js "  </div>\n"
    | None => html
    end in
  let html :=
    html ++ js "  <h1>" ++ escapeHtml (art_title article)
         ++ js "</h1>\n\n" in
  let html := fold_left html_section (sections article) html in
  let html := html ++ js "  <div class=\x22footer\x22>\n" in
  let html :=
    html ++ js "    <p>🤖 <strong>この記事はAIにより自動生成されました</strong></p>\n" in
  let html :=
    html ++ js "    <p><em>LLMO コンテンツ生成システム</em> - CloudFlow Dynamics</p>\n" in
  let html :=
    html ++ js "    <p>生成日: " ++ footerDate clock ++ js " "
         ++ footerTime clock ++ js "</p>\n" in
  let html := html ++ js "  </div>\n" in
  let html := html ++ js "</body>\n</html>" in
  html.

(** [request] is what [request.json()] resolves to ([None]: it
    rejects, and the outer [catch] answers). *)
Definition POST_export (clock : Clock) (request : option ExportRequest)
  : list export_event * http_response :=
  match request with
  | None =>
    ([Logged (ConsoleError (js "エクスポートエラー:"))],
     JsonResponse 500 (error_body (js "エクスポートに失敗しました")))
  | Some req =>
    let options :=
      match options req with Some o => o | None => default_options end in
    match truthy (format req), article req with
    | true, Some article =>
      match format req with
      | VString fmt =>
        if jsstring_eqb fmt (js "markdown") then
          let exportedContent := generateMarkdown clock article options in
          let mimeType := js "text/markdown" in
          let filename :=
            match nonempty (filename options) with
            | Some f => f
            | None => js "article.md"
            end in
          send_file Called_generateMarkdown exportedContent mimeType filename
        else if jsstring_eqb fmt (js "html") then
          let exportedContent := generateHTML clock article options in
          let mimeType := js "text/html" in
          let filename :=
            match nonempty (filename options) with
            | Some f => f
            | None => js "article.html"
            end in
          send_file Called_generateHTML exportedContent mimeType filename
        else
          ([], JsonResponse 400
                 (error_body (js "サポートされていないフォーマットです")))
      | _ =>
        ([], JsonResponse 400
               (error_body (js "サポートされていないフォーマットです")))
      end
    | _, _ =>
      ([], JsonResponse 400
             (error_body (js "フォーマットと記事データが必要です")))
    end
  end.

End HtmlExport.

(** ** Metadata generation ([generate-seo] route) *)

(** The hole
    [${content ? `記事内容（抜粋）: ${content.substring(0, 1000)}...` : ''}]
    of the user prompt.  [substring] is a method of strings: on any other
    truthy value the call throws. *)
Definition content_excerpt (content : value) : M jsstring :=
  if truthy content then
    match content with
    | VString s =>
      ret (js "記事内容（抜粋）: " ++ substring s 0 1000 ++ js "...")
    | _ => throw TypeError
    end
  else ret [].

Definition invalid_seo_structure {A} : M A :=
  console_error (js "Invalid SEO metadata structure:") ;;;
  throw (Error (js "SEOメタデータの形式が正しくありません")).

Definition on_seo_parseError {A} (parseError : exn) : M A :=
  console_error (js "JSON解析エラー:") ;;;
  console_error (js "元の応答:") ;;;
  console_error (js "クリーンされた応答:") ;;;
  throw (ErrorFrom (js "SEOメタデータの解析に失敗しました: ") parseError).

(** As in the other two services the prompt goes to the model, whose
    answer [api] is given; of the prompt's holes the excerpt of [content]
    is the one whose evaluation calls a method. *)
Definition generateSEOMetadataWithAI (content : value) (api : completion)
  : M value :=
  try_catch
    (content_excerpt content ;;;
     response <- completion_text api ;;
     let cleanJsonString := extractJsonFromResponse response in
     try_catch
       (parsedResponse <- parse cleanJsonString ;;
        title <- prop parsedResponse (js "title") ;;
        if negb (truthy title) then invalid_seo_structure else
        description <- prop parsedResponse (js "description") ;;
        if negb (truthy description) then invalid_seo_structure else
        keywords <- prop parsedResponse (js "keywords") ;;
        if negb (truthy keywords) then invalid_seo_structure
        else ret parsedResponse)
       on_seo_parseError)
    on_apiError.

Definition POST_seo (request : Request) (api : completion)
  : list log_entry * http_response :=
  respond
    (json <- request_json request ;;
     title <- prop json (js "title") ;;
     content <- prop json (js "content") ;;
     keyword <- prop json (js "keyword") ;;
     description <- prop json (js "description") ;;
     baseUrl <- prop json (js "baseUrl") ;;
     if negb (truthy title) || negb (truthy keyword)
     then ret (JsonResponse 400
                 (error_body (js "タイトルとキーワードが必要です")))
     else
       seoMetadata <- generateSEOMetadataWithAI content api ;;
       ret (JsonResponse 200 (VObject [(js "seoMetadata", seoMetadata)])))
    (js "SEOメタデータ生成エラー:") (js "SEOメタデータの生成に失敗しました").

(** ** The page ([page.tsx]) *)

(** *** The export request ([handleExport]) *)

(** The class [\w] of a pattern without the [i] and [u] flags. *)
Definition isWordChar (c : char) : bool :=
  ((65 <=? c) && (c <=? 90) || (97 <=? c) && (c <=? 122)
   || (48 <=? c) && (c <=? 57) || (c =? 95))%N.

(** [s.replace(/[^\w\s-]/g, '')] *)
Definition remove_symbols (s : jsstring) : jsstring :=
  filter (fun c => isWordChar c || isWhiteSpace c || (c =? 45)%N) s.

(** [s.replace(/\s+/g, '-')]: every maximal run of whitespace becomes
    one hyphen.  [in_run] says that the character before was
    whitespace. *)
Fixpoint hyphenate_from (in_run : bool) (s : jsstring) : jsstring :=
  match s with
  | [] => []
  | c :: t =>
    if isWhiteSpace c
    then (if in_run then hyphenate_from true t
          else 45%N :: hyphenate_from true t)
    else c :: hyphenate_from false t
  end.

Definition hyphenate (s : jsstring) : jsstring := hyphenate_from false s.

(** The type ['markdown' | 'html'] of the handler's argument. *)
Inductive ExportFormat : Type := Markdown | Html.

Definition format_name (fmt : ExportFormat) : jsstring :=
  match fmt with
  | Markdown => js "markdown"
  | Html => js "html"
  end.

Section Page.

(** [String.prototype.toLowerCase] (built in). *)
Variable toLowerCase : jsstring -> jsstring.

(** [`${generatedArticle.title.replace(/[^\w\s-]/g, '')
          .replace(/\s+/g, '-').toLowerCase()}.${
          format === 'markdown' ? 'md' : 'html'}`] *)
Definition export_filename (title : jsstring) (fmt : ExportFormat)
  : jsstring :=
  toLowerCase (hyphenate (remove_symbols title))
  ++ js "."
  ++ match fmt with Markdown => js "md" | Html => js "html" end.



End Page.

(** *** The copy button of the article *)

(** [`### ${sub.title}\n\n${sub.content}\n\n`] *)
Definition copied_subheading (sub : Subheading) : jsstring :=
  js "### " ++ sub_title sub ++ js "\n\n" ++ sub_content sub ++ js "\n\n".

(** [`## ${section.heading}\n\n${section.content}\n\n` +
     (section.subheadings?.map(...).join('') || '')] *)
Definition copied_section (section : ArticleSection) : jsstring :=
  (js "## " ++ heading section ++ js "\n\n" ++ content section ++ js "\n\n")
  ++ match subheadings section with
     | Some subs => join [] (map copied_subheading subs)
     | None => []
     end.

(** The text the button writes to the clipboard. *)
Definition copied_article (generatedArticle : Article) : jsstring :=
  (js "# " ++ art_title generatedArticle ++ js "\n\n")
  ++ join [] (map copied_section (sections generatedArticle)).

(** *** The title request ([generateTitles]) *)

(** The body of the request to the title route; nothing is sent for a
    keyword that is blank. *)
Definition generateTitles_body (keyword overview : jsstring) : option value :=
  match trim keyword with
  | [] => None
  | _ :: _ =>
    Some (VObject [(js "keyword", VString keyword);
                   (js "overview", VString overview)])
  end.

(* ================================================================== *)
(** * Part II. Definitions for the specification                       *)
(* ================================================================== *)

(** ** Whitespace *)

Definition all_ws (w : jsstring) : Prop := forallb isWhiteSpace w = true.

(** ** Contiguous substrings *)

Definition infix (g s : jsstring) : Prop := exists a b, s = a ++ g ++ b.

(** ** The regular-expression matcher *)

(** *** First occurrences *)

(** [p] does not occur in [c ++ F] at a position inside [c]. *)
Definition first_at (p c F : jsstring) : Prop :=
  forall a b, c = a ++ b -> b <> [] -> startsWith (b ++ F) p = false.

(** *** The fenced-block pattern *)

(** After optional whitespace, the closing fence. *)
Definition closes (t : jsstring) : bool := startsWith (trimStart t) fence.

(** The lazy group followed by the closer. *)
Definition capture : jsstring -> option jsstring :=
  exec (Capture_lazy any_char :: Star isWhiteSpace :: lits fence).

(** ** Generation services *)

(** *** The dependent metadata call *)

(** The metadata call has failed when the request was rejected, the
    response is not ok, or reading the answer throws. *)
Definition fetch_failed (r : fetch_result) : bool :=
  match r with
  | FetchRejects => true
  | FetchResponds false _ => true
  | FetchResponds true None => true
  | FetchResponds true (Some seoData) =>
    match get seoData (js "seoMetadata") with
    | None => true
    | Some _ => false
    end
  end.

(** *** Validation of a generated article *)

(** The invariant the data model states for an accepted article: its
    sections are a non-empty array and every section is an object with a
    non-empty heading string and a non-empty content string. *)
Definition nonempty_string (v : value) : Prop :=
  exists c s, v = VString (c :: s).

Definition sections_invariant (article : value) : Prop :=
  exists first others,
    get article (js "sections") = Some (VArray (first :: others))
    /\ Forall (fun section =>
                 (exists h, get section (js "heading") = Some h
                            /\ nonempty_string h)
                 /\ (exists c, get section (js "content") = Some c
                               /\ nonempty_string c))
              (first :: others).

(** The two halves of the invariant: the array has an element, and
    every element of it is a section in good form. *)
Definition sections_nonempty (article : value) : Prop :=
  exists first others,
    get article (js "sections") = Some (VArray (first :: others)).

Definition has_nonempty (field : jsstring) (section : value) : Prop :=
  exists v, get section field = Some v /\ nonempty_string v.

Definition sections_wellformed (article : value) : Prop :=
  exists items,
    get article (js "sections") = Some (VArray items)
    /\ Forall (fun section => has_nonempty (js "heading") section
                              /\ has_nonempty (js "content") section)
              items.

(** The generic error every failure of a generation service ends as. *)
Definition api_error : exn :=
  Error (js "OpenAI APIキーが設定されていないか、APIへの接続に失敗しました。").

(** *** Title candidates *)

Definition title_id (index : nat) : jsstring :=
  js "ai-title-" ++ decimal (index + 1).

(** ** HTML export: every interpolated field is escaped *)

(** *** The document as a sequence of segments *)

Inductive segment : Type :=
| Template (text : jsstring)
    (* literal text of the exporter *)
| Field (source : jsstring) (break : option jsstring)
    (* a field of the article or of its metadata: shown escaped, and in
       paragraphs (every line feed replaced by [break]) when [break] is
       given *)
| Payload (text : jsstring)
    (* the serialized structured data *)
| Stamp (text : jsstring).
    (* a date or a time of day *)

Definition text_of (seg : segment) : jsstring :=
  match seg with
  | Template text | Payload text | Stamp text => text
  | Field source None => escapeHtml source
  | Field source (Some break) => replaceAll LF break (escapeHtml source)
  end.

Definition render (segs : list segment) : jsstring := flat_map text_of segs.

(** The fields a layout interpolates, in document order. *)
Definition sources (segs : list segment) : list jsstring :=
  flat_map (fun seg => match seg with
                       | Field source _ => [source]
                       | _ => []
                       end) segs.

(** A field in a text node or an attribute, and a field in paragraphs. *)
Definition inline (source : jsstring) : segment := Field source None.

Definition paragraphs (break source : jsstring) : segment :=
  Field source (Some break).

Definition subheading_layout (sub : Subheading) : list segment :=
  [ Template (js "    <div class=\x22subsection\x22>\n");
    Template (js "      <h3>"); inline (sub_title sub);
    Template (js "</h3>\n");
    Template (js "      <p>");
    paragraphs (js "</p>\n      <p>") (sub_content sub);
    Template (js "</p>\n");
    Template (js "    </div>\n") ].

Definition section_layout (section : ArticleSection) : list segment :=
  [ Template (js "  <div class=\x22section\x22>\n");
    Template (js "    <h2>"); inline (heading section);
    Template (js "</h2>\n");
    Template (js "    <p>");
    paragraphs (js "</p>\n    <p>") (content section);
    Template (js "</p>\n") ]
  ++ match subheadings section with
     | Some subs => flat_map subheading_layout subs
     | None => []
     end
  ++ [ Template (js "  </div>\n\n") ].

Definition meta_layout (open : string) (source : jsstring) : list segment :=
  [ Template (js open); inline source; Template (js "\x22>\n") ].

Definition head_layout (stringify : StructuredData -> jsstring)
           (article : Article) (options : ExportOptions) : list segment :=
  match seo_included article options with
  | Some seo =>
    [ Template (js "  <title>"); inline (seo_title seo);
      Template (js "</title>\n") ]
    ++ meta_layout "  <meta name=\x22description\x22 content=\x22"
                   (seo_description seo)
    ++ meta_layout "  <meta name=\x22keywords\x22 content=\x22"
                   (join (js ", ") (keywords seo))
    ++ meta_layout "  <meta name=\x22robots\x22 content=\x22" (metaRobots seo)
    ++ match nonempty (canonicalUrl seo) with
       | Some url =>
         meta_layout "  <link rel=\x22canonical\x22 href=\x22" url
       | None => []
       end
    ++ meta_layout "  <meta property=\x22og:title\x22 content=\x22"
                   (ogTitle seo)
    ++ meta_layout "  <meta property=\x22og:description\x22 content=\x22"
                   (ogDescription seo)
    ++ [ Template
           (js "  <meta property=\x22og:type\x22 content=\x22article\x22>\n") ]
    ++ match nonempty (canonicalUrl seo) with
       | Some url =>
         meta_layout "  <meta property=\x22og:url\x22 content=\x22" url
       | None => []
       end
    ++ [ Template
           (js "  <meta name=\x22twitter:card\x22 content=\x22summary_large_image\x22>\n") ]
    ++ meta_layout "  <meta name=\x22twitter:title\x22 content=\x22"
                   (twitterTitle seo)
    ++ meta_layout "  <meta name=\x22twitter:description\x22 content=\x22"
                   (twitterDescription seo)
    ++ match structuredData seo with
       | Some data =>
         [ Template (js "  <script type=\x22application/ld+json\x22>\n");
           Template (js "  "); Payload (stringify data); Template (js "\n");
           Template (js "  </script>\n") ]
       | None => []
       end
  | None =>
    [ Template (js "  <title>"); inline (art_title article);
      Template (js "</title>\n") ]
  end.

Definition banner_layout (clock : Clock) (article : Article)
           (options : ExportOptions) : list segment :=
  match seo_included article options with
  | Some _ =>
    [ Template (js "  <div class=\x22meta-info\x22>\n");
      Template (js "    <h4>📊 記事情報</h4>\n");
      Template (js "    <p><strong>生成日:</strong> ");
      Stamp (bannerDate clock); Template (js "</p>\n");
      Template (js "    <p><strong>生成システム:</strong> LLMO コンテンツ生成システム (CloudFlow Dynamics)</p>\n");
      Template (js "    <p><strong>最適化:</strong> SEO + LLMO/GEO統合最適化</p>\n");
      Template (js "  </div>\n") ]
  | None => []
  end.

Definition html_layout (stringify : StructuredData -> jsstring)
           (clock : Clock) (article : Article) (options : ExportOptions)
  : list segment :=
  [ Template (js "<!DOCTYPE html>\n<html lang=\x22ja\x22>\n<head>\n");
    Template (js "  <meta charset=\x22UTF-8\x22>\n");
    Template (js "  <meta name=\x22viewport\x22 content=\x22width=device-width, initial-scale=1.0\x22>\n") ]
  ++ head_layout stringify article options
  ++ match includeStyles options with
     | Some false => []
     | _ => [ Template html_styles ]
     end
  ++ [ Template (js "</head>\n<body>\n") ]
  ++ banner_layout clock article options
  ++ [ Template (js "  <h1>"); inline (art_title article);
       Template (js "</h1>\n\n") ]
  ++ flat_map section_layout (sections article)
  ++ [ Template (js "  <div class=\x22footer\x22>\n");
       Template (js "    <p>🤖 <strong>この記事はAIにより自動生成されました</strong></p>\n");
       Template (js "    <p><em>LLMO コンテンツ生成システム</em> - CloudFlow Dynamics</p>\n");
       Template (js "    <p>生成日: "); Stamp (footerDate clock);
       Template (js " "); Stamp (footerTime clock); Template (js "</p>\n");
       Template (js "  </div>\n");
       Template (js "</body>\n</html>") ].

(** *** The fields of an export *)

Definition subheading_fields (sub : Subheading) : list jsstring :=
  [sub_title sub; sub_content sub].

Definition section_fields (section : ArticleSection) : list jsstring :=
  [heading section; content section]
  ++ match subheadings section with
     | Some subs => flat_map subheading_fields subs
     | None => []
     end.

Definition canonical_field (seo : SEOMetadata) : list jsstring :=
  match nonempty (canonicalUrl seo) with
  | Some url => [url]
  | None => []
  end.

(** The metadata strings of the document head (the keywords joined as
    the exporter joins them), in the order of their tags. *)
Definition seo_fields (seo : SEOMetadata) : list jsstring :=
  [seo_title seo; seo_description seo; join (js ", ") (keywords seo);
   metaRobots seo]
  ++ canonical_field seo
  ++ [ogTitle seo; ogDescription seo]
  ++ canonical_field seo
  ++ [twitterTitle seo; twitterDescription seo].

(** Every text field an HTML export shows: the metadata strings when
    metadata is included and the title otherwise (page title), then the
    title (first heading), then each section's heading and content and
    each subheading's title and content. *)
Definition html_fields (article : Article) (options : ExportOptions)
  : list jsstring :=
  match seo_included article options with
  | Some seo => seo_fields seo
  | None => [art_title article]
  end
  ++ [art_title article]
  ++ flat_map section_fields (sections article).

(** *** The escaped form of a field

    The escaped form of a text, in the words of the specification: each
    of the five characters is replaced by a character reference to it,
    and every other character is kept. *)

Definition character_references : list (char * jsstring) :=
  [ (38%N, js "&amp;"); (60%N, js "&lt;"); (62%N, js "&gt;");
    (34%N, js "&quot;"); (39%N, js "&#039;") ].

Fixpoint reference_to (c : char) (table : list (char * jsstring))
  : option jsstring :=
  match table with
  | [] => None
  | (c', r) :: rest => if (c =? c')%N then Some r else reference_to c rest
  end.

Definition escaped_form (text : jsstring) : jsstring :=
  flat_map (fun c => match reference_to c character_references with
                     | Some r => r
                     | None => [c]
                     end) text.

(** What a field hole of the document holds: the escaped form of the
    field, with every line feed replaced by the paragraph break where
    the field is shown in paragraphs. *)
Definition field_text (break : option jsstring) (source : jsstring)
  : jsstring :=
  match break with
  | Some b => replaceAll LF b (escaped_form source)
  | None => escaped_form source
  end.

(** *** What a browser shows

    In a text node and in an attribute value an HTML parser replaces a
    character reference by the character it refers to.  Of the syntax of
    references this is the part that concerns the five characters: the
    named references to them and the decimal numeric references.  After
    an ampersand, [reference] gives the character referred to and the
    number of code units of the reference. *)

Definition named_reference (t : jsstring) : option (char * nat) :=
  if startsWith t (js "amp;") then Some (38%N, 4)
  else if startsWith t (js "lt;") then Some (60%N, 3)
  else if startsWith t (js "gt;") then Some (62%N, 3)
  else if startsWith t (js "quot;") then Some (34%N, 5)
  else if startsWith t (js "apos;") then Some (39%N, 5)
  else None.

Definition numeric_reference (t : jsstring) : option (char * nat) :=
  match t with
  | c :: u =>
    if (c =? 35)%N then
      let (ds, r) := span_digits u in
      match ds, r with
      | _ :: _, semicolon :: _ =>
        if (semicolon =? 59)%N
        then Some (N_of_digits ds, S (S (length ds)))
        else None
      | _, _ => None
      end
    else None
  | [] => None
  end.

Definition reference (t : jsstring) : option (char * nat) :=
  match named_reference t with
  | Some r => Some r
  | None => numeric_reference t
  end.

(** The text shown for [s]; [skip] code units of [s] belong to a
    reference that has been read already. *)
Fixpoint shown_from (skip : nat) (s : jsstring) : jsstring :=
  match s with
  | [] => []
  | c :: t =>
    match skip with
    | S k => shown_from k t
    | O =>
      if (c =? 38)%N then
        match reference t with
        | Some (referred, len) => referred :: shown_from len t
        | None => c :: shown_from 0 t
        end
      else c :: shown_from 0 t
    end
  end.

Definition shown (s : jsstring) : jsstring := shown_from 0 s.

(** Every ampersand of the text begins a character reference. *)
Fixpoint ampersands_begin_references (t : jsstring) : bool :=
  match t with
  | [] => true
  | c :: r =>
    (if (c =? 38)%N
     then match reference r with Some _ => true | None => false end
     else true)
    && ampersands_begin_references r
  end.

(** The characters that open or close markup or an attribute value. *)
Definition is_markup (c : char) : bool :=
  ((c =? 60) || (c =? 62) || (c =? 34) || (c =? 39))%N.

Definition markup_free (t : jsstring) : Prop :=
  forallb (fun c => negb (is_markup c)) t = true.

(** *** No raw script tag

    [scan] runs the text through the matching automaton of the tag:
    state [q < 8] says that the last [q] characters read are the first
    [q] of the tag and are the longest such suffix; state [8] is kept
    once the whole tag has been read. *)

Definition script_tag : jsstring := js "<script>".

Definition step (q : nat) (c : char) : nat :=
  if (q =? 8)%nat then 8
  else if (nth q script_tag 0 =? c)%N then S q
  else if (c =? 60)%N then 1
  else 0.

Definition scan (q : nat) (text : jsstring) : nat := fold_left step text q.

(** The automaton is back in its initial state after the text. *)
Definition quiet (text : jsstring) : Prop := scan 0 text = 0.

(** Texts without a less-than sign. *)
Definition no_lt (t : jsstring) : Prop :=
  forallb (fun c => negb (c =? 60)%N) t = true.

Definition clock_no_lt (clock : Clock) : Prop :=
  no_lt (bannerDate clock) /\ no_lt (footerDate clock)
  /\ no_lt (footerTime clock).

(** The serialized structured data an export embeds, if any. *)
Definition payload (stringify : StructuredData -> jsstring)
           (article : Article) (options : ExportOptions) : option jsstring :=
  match seo_included article options with
  | Some seo => option_map stringify (structuredData seo)
  | None => None
  end.

(** ** Markdown export and re-extraction *)

(** *** Re-extraction, following the specification's words

    The specification re-extracts headings and bodies by splitting the
    exported text at the heading markers.  [reextract_by_heading_markers]
    is that procedure: the text is split into lines; a front-matter block
    at the top is skipped and the footer rule ends the article; a line
    that starts with a marker is a heading, and the lines up to the next
    heading are its body, without the blank line that separates it from
    the heading and without trailing whitespace. *)


















(** What the round trip needs of the exported strings. *)







(** *** Kinds of lines *)


(** *** The exported text *)

Definition subheading_text (sub : Subheading) : jsstring :=
  js "### " ++ sub_title sub ++ js "\n\n" ++ sub_content sub ++ js "\n\n".

Definition section_text (section : ArticleSection) : jsstring :=
  js "## " ++ heading section ++ js "\n\n" ++ content section ++ js "\n\n"
  ++ match subheadings section with
     | Some subs => flat_map subheading_text subs
     | None => []
     end.

(** The key-value lines between the two rules of the front matter. *)
Definition front_matter_body (clock : Clock) (seo : SEOMetadata) : jsstring :=
  (js "title: \x22" ++ seo_title seo ++ js "\x22\n")
  ++ (js "description: \x22" ++ seo_description seo ++ js "\x22\n")
  ++ (js "keywords: ["
        ++ join (js ", ")
             (map (fun k => js "\x22" ++ k ++ js "\x22") (keywords seo))
        ++ js "]\n")
  ++ (js "robots: \x22" ++ metaRobots seo ++ js "\x22\n")
  ++ match nonempty (canonicalUrl seo) with
     | Some url => js "canonical: \x22" ++ url ++ js "\x22\n"
     | None => []
     end
  ++ (js "date: \x22" ++ isoDate clock ++ js "\x22\n")
  ++ js "author: \x22CloudFlow Dynamics\x22\n"
  ++ js "og:\n"
  ++ (js "  title: \x22" ++ ogTitle seo ++ js "\x22\n")
  ++ (js "  description: \x22" ++ ogDescription seo ++ js "\x22\n")
  ++ js "  type: \x22article\x22\n"
  ++ js "twitter:\n"
  ++ (js "  title: \x22" ++ twitterTitle seo ++ js "\x22\n")
  ++ (js "  description: \x22" ++ twitterDescription seo ++ js "\x22\n")
  ++ js "  card: \x22summary_large_image\x22\n".

Definition front_matter (clock : Clock) (article : Article)
           (options : ExportOptions) : jsstring :=
  match seo_included article options with
  | Some seo => js "---\n" ++ front_matter_body clock seo ++ js "---\n\n"
  | None => []
  end.

Definition markdown_footer (clock : Clock) : jsstring :=
  js "---\n\n"
  ++ js "*この記事は [LLMO コンテンツ生成システム](https://github.com/ukenn2112/llmo-content) により自動生成されました。*\n"
  ++ js "*生成日: " ++ footerDate clock ++ js "*\n".

(** *** The lines of the exported text *)





(** *** Rules *)


(** *** The front matter *)



(** ** Sample inputs *)

Definition sample_article : Article :=
  {| art_title := js "T";
     sections := [{| heading := js "H"; content := js "body";
                     subheadings := None |}];
     seoMetadata := None |}.

Definition sample_request : Request :=
  {| body := Some (VObject [(js "title", VString (js "T"));
                            (js "keyword", VString (js "k"))]);
     origin := js "http://localhost:3000" |}.

Definition sample_completion : completion :=
  ApiReturns
    (Some (js "{\x22title\x22:\x22T\x22,\x22sections\x22:[{\x22heading\x22:\x22H\x22,\x22content\x22:\x22C\x22}]}")).

(** An answer whose [sections] array has three elements, none of them a
    section in good form: an object with an empty heading and an empty
    content, [null], and a number. *)
Definition malformed_sections_completion : completion :=
  ApiReturns
    (Some (js "{\x22title\x22:\x22T\x22,\x22sections\x22:[{\x22heading\x22:\x22\x22,\x22content\x22:\x22\x22},null,7]}")).

Definition no_sections_completion : completion :=
  ApiReturns (Some (js "{\x22title\x22:\x22T\x22,\x22sections\x22:[]}")).

Definition sample_clock : Clock :=
  {| isoDate := js "2025-01-15"; bannerDate := js "2025/1/15";
     footerDate := js "2025/1/15"; footerTime := js "9:00:00" |}.

Definition script_article : Article :=
  {| art_title := js "<script>alert(1)</script>";
     sections :=
       [{| heading := js "<script>h</script>";
           content := js "a\n<script>c</script> & \x22q\x22";
           subheadings :=
             Some [{| sub_title := js "<script>";
                      sub_content := js "'<script>'\n" |}] |}];
     seoMetadata :=
       Some {| seo_title := js "<script>";
               seo_description := js "\x22><script>";
               keywords := [js "<script>"; js "k"];
               ogTitle := js "<script>";
               ogDescription := js "<script>";
               twitterTitle := js "<script>";
               twitterDescription := js "<script>";
               metaRobots := js "<script>";
               canonicalUrl := Some (js "https://example.com/<script>");
               structuredData := None |} |}.

Definition with_seo : ExportOptions :=
  {| includeSEO := Some true; includeStyles := None; filename := None |}.

Definition plain_article : Article :=
  {| art_title := js "Remote work";
     sections :=
       [{| heading := js "Why";
           content := js "First line.\nSecond line.  \n";
           subheadings :=
             Some [{| sub_title := js "Numbers";
                      sub_content := js "40% # of teams\n- item" |}] |};
        {| heading := js "How"; content := js "Plan."; subheadings := None |}];
     seoMetadata :=
       Some {| seo_title := js "Remote work";
               seo_description := js "A guide";
               keywords := [js "remote"; js "work"];
               ogTitle := js "Remote work";
               ogDescription := js "A guide";
               twitterTitle := js "Remote work";
               twitterDescription := js "A guide";
               metaRobots := js "index, follow";
               canonicalUrl := Some (js "https://example.com/remote");
               structuredData := None |} |}.





(** ** Generation services *)

(** [null] or [undefined]: the values whose properties cannot be read. *)
Definition is_nullish (v : value) : bool :=
  match v with
  | VUndefined | VNull => true
  | _ => false
  end.

(** The console lines of the two catch blocks of a service. *)
Definition parse_failure_log : list log_entry :=
  [ConsoleError (js "JSON解析エラー:");
   ConsoleError (js "元の応答:");
   ConsoleError (js "クリーンされた応答:")].

Definition api_failure_log : list log_entry :=
  [ConsoleError (js "OpenAI API エラー:")].

(** ** The routes together *)


(** The status of a response; a file is sent with the default, 200. *)
Definition status_of (r : http_response) : nat :=
  match r with
  | JsonResponse status _ => status
  | FileResponse _ _ _ => 200
  end.

(** ** Occurrences *)

(** The texts that follow the occurrences of [p] in [s], one for each
    occurrence. *)
Fixpoint after_each (p s : jsstring) : list jsstring :=
  (if startsWith s p then [skipn (length p) s] else [])
  ++ match s with
     | [] => []
     | _ :: t => after_each p t
     end.

(** ** [escapeHtml] *)

(** One of the five characters that are replaced. *)
Definition is_special (c : char) : bool :=
  match html_entity c with Some _ => true | None => false end.

(** ** File names *)

Definition is_slug_char (c : char) : bool :=
  ((97 <=? c) && (c <=? 122) || (48 <=? c) && (c <=? 57)
   || (c =? 95) || (c =? 45))%N.

(** Lower case within ASCII. *)
Definition ascii_lower (c : char) : char :=
  if ((65 <=? c) && (c <=? 90))%N then (c + 32)%N else c.

Definition is_ascii (c : char) : bool := (c <? 128)%N.

(** What the development needs of [toLowerCase]: on ASCII text it maps
    each capital letter to its small letter and leaves the rest. *)
Definition lowers_ascii (toLowerCase : jsstring -> jsstring) : Prop :=
  forall s, forallb is_ascii s = true -> toLowerCase s = map ascii_lower s.

(** ** Export options *)

Definition without_metadata (a : Article) : Article :=
  {| art_title := art_title a; sections := sections a; seoMetadata := None |}.

Definition set_includeStyles (o : ExportOptions) (b : option bool)
  : ExportOptions :=
  {| includeSEO := includeSEO o; includeStyles := b; filename := filename o |}.

(** ** The file an export sends *)

(** The characters of an encoded file name: the unreserved ones and the
    percent sign. *)
Definition uri_safe (c : char) : bool := uri_unreserved c || (c =? 37)%N.

(** A UTF-16 code unit. *)
Definition is_code_unit (c : char) : bool := (c <? 65536)%N.




Definition extension (fmt : ExportFormat) : jsstring :=
  match fmt with
  | Markdown => js "md"
  | Html => js "html"
  end.


(** A request for [fmt] with an article and options. *)
Definition export_request (fmt : ExportFormat) (a : Article)
           (o : ExportOptions) : ExportRequest :=
  {| format := VString (format_name fmt); article := Some a;
     options := Some o |}.



(** The stem of the page's file name, when [toLowerCase] is as in
    [lowers_ascii]. *)
Definition slug (title : jsstring) : jsstring :=
  map ascii_lower (hyphenate (remove_symbols title)).

(* ================================================================== *)
(** * Part III. Properties                                             *)
(* ================================================================== *)

(** ** Strings *)

Lemma startsWith_refl (s : jsstring) : startsWith s s = true.
Proof.
  induction s as [|c s IH]; simpl; [reflexivity|].
  now rewrite N.eqb_refl.
Qed.

Lemma startsWith_app (p rest : jsstring) : startsWith (p ++ rest) p = true.
Proof.
  induction p as [|c p IH]; simpl; [reflexivity|].
  now rewrite N.eqb_refl.
Qed.

Lemma startsWith_inv (s p : jsstring) :
  startsWith s p = true -> exists rest, s = p ++ rest.
Proof.
  revert s; induction p as [|a p IH]; intros s H.
  - now exists s.
  - destruct s as [|b s]; simpl in H; [discriminate|].
    apply andb_true_iff in H as [Hab Hs].
    apply N.eqb_eq in Hab; subst b.
    destruct (IH _ Hs) as [rest ->].
    now exists rest.
Qed.

Lemma jsstring_eqb_eq (a b : jsstring) : jsstring_eqb a b = true <-> a = b.
Proof.
  unfold jsstring_eqb; split.
  - intros H; apply andb_true_iff in H as [Hlen Hpre].
    apply Nat.eqb_eq in Hlen.
    destruct (startsWith_inv _ _ Hpre) as [rest ->].
    rewrite length_app in Hlen.
    destruct rest; [now rewrite app_nil_r | simpl in Hlen; lia].
  - intros ->; now rewrite Nat.eqb_refl, startsWith_refl.
Qed.

Lemma jsstring_eqb_neq (a b : jsstring) : jsstring_eqb a b = false <-> a <> b.
Proof.
  rewrite <- jsstring_eqb_eq; destruct (jsstring_eqb a b); split;
    congruence.
Qed.

(** ** [JSON.parse]: the fuel is enough *)

Lemma skip_ws_length (s : jsstring) : length (skip_ws s) <= length s.
Proof.
  induction s as [|c s IH]; simpl; [lia|].
  destruct (is_json_ws c); simpl; lia.
Qed.

Lemma consumed_inv (c : char) (x : option (jsstring * jsstring))
      (str r : jsstring) :
  consumed c x = Some (str, r) -> exists str', x = Some (str', r).
Proof.
  destruct x as [[str' r']|]; simpl; [|discriminate].
  intros H; injection H as _ <-; now eexists.
Qed.

Lemma parse_chars_progress (n : nat) :
  forall s str r,
    length s <= n -> parse_chars s = Some (str, r) -> length r < length s.
Proof.
  induction n as [|n IH]; intros s str r Hn H.
  - destruct s; [discriminate|simpl in Hn; lia].
  - destruct s as [|c t]; [discriminate|].
    simpl in Hn; cbn [parse_chars] in H.
    destruct (c =? 34)%N.
    { injection H as _ <-; simpl; lia. }
    destruct (c =? 92)%N.
    + destruct t as [|e t']; [discriminate|].
      destruct (e =? 117)%N.
      * destruct t' as [|h1 [|h2 [|h3 [|h4 t'']]]]; try discriminate.
        destruct (hex4 h1 h2 h3 h4); [|discriminate].
        apply consumed_inv in H as [str' H].
        apply IH in H; simpl in *; lia.
      * destruct (unescape e); [|discriminate].
        apply consumed_inv in H as [str' H].
        apply IH in H; simpl in *; lia.
    + destruct (c <? 32)%N; [discriminate|].
      apply consumed_inv in H as [str' H].
      apply IH in H; simpl in *; lia.
Qed.

Lemma span_digits_length (s : jsstring) :
  length (snd (span_digits s)) + length (fst (span_digits s)) = length s.
Proof.
  induction s as [|c s IH]; simpl; [reflexivity|].
  destruct (is_digit c); [|simpl; lia].
  destruct (span_digits s) as [ds r]; simpl in *; lia.
Qed.

Lemma parse_sign_length (s : jsstring) :
  length (snd (parse_sign s)) <= length s.
Proof.
  destruct s as [|c t]; simpl; [lia|].
  destruct (c =? 45)%N; simpl; lia.
Qed.

Lemma parse_frac_length (s : jsstring) (ds : list N) (r : jsstring) :
  parse_frac s = Some (ds, r) -> length r <= length s.
Proof.
  destruct s as [|c t]; simpl.
  - intros H; injection H as _ <-; simpl; lia.
  - destruct (c =? 46)%N.
    + pose proof (span_digits_length t) as Hl.
      destruct (span_digits t) as [ds' r']; simpl in Hl.
      destruct ds'; [discriminate|].
      intros H; injection H as _ <-; lia.
    + intros H; injection H as _ <-; simpl; lia.
Qed.

Lemma parse_exp_sign_length (s : jsstring) :
  length (snd (parse_exp_sign s)) <= length s.
Proof.
  destruct s as [|sg u]; simpl; [lia|].
  destruct (sg =? 45)%N; [|destruct (sg =? 43)%N]; simpl; lia.
Qed.

Lemma parse_exp_length (s : jsstring) (x : Z) (r : jsstring) :
  parse_exp s = Some (x, r) -> length r <= length s.
Proof.
  destruct s as [|c t]; simpl.
  - intros H; injection H as _ <-; simpl; lia.
  - destruct ((c =? 101) || (c =? 69))%N.
    + pose proof (parse_exp_sign_length t) as Hsign.
      destruct (parse_exp_sign t) as [eneg t']; simpl in Hsign.
      pose proof (span_digits_length t') as Hl.
      destruct (span_digits t') as [ds' r']; simpl in Hl.
      destruct ds'; [discriminate|].
      intros H; injection H as _ <-; lia.
    + intros H; injection H as _ <-; simpl; lia.
Qed.

Lemma parse_number_progress (s : jsstring) (v : value) (r : jsstring) :
  parse_number s = Some (v, r) -> length r < length s.
Proof.
  unfold parse_number.
  pose proof (parse_sign_length s) as Hsign.
  destruct (parse_sign s) as [neg s1]; simpl in Hsign.
  pose proof (span_digits_length s1) as Hint.
  destruct (span_digits s1) as [int_ds s2]; simpl in Hint.
  destruct int_ds as [|d0 more]; [discriminate|].
  destruct ((d0 =? 0)%N && negb (length more =? 0)%nat); [discriminate|].
  destruct (parse_frac s2) as [[frac_ds s3]|] eqn:Ef; [|discriminate].
  destruct (parse_exp s3) as [[x s4]|] eqn:Ee; [|discriminate].
  apply parse_frac_length in Ef; apply parse_exp_length in Ee.
  intros H; injection H as _ <-; unfold jsstring, char in *; simpl in *.
  lia.
Qed.

Lemma skipn_prefix (k rest : jsstring) : skipn (length k) (k ++ rest) = rest.
Proof. induction k as [|c k IH]; [reflexivity|exact IH]. Qed.

Lemma keyword_progress (k : jsstring) (v : value) (s : jsstring)
      (v' : value) (r : jsstring) :
  k <> [] -> keyword k v s = Some (v', r) -> length r < length s.
Proof.
  unfold keyword; intros Hk.
  destruct (startsWith s k) eqn:E; [|discriminate].
  destruct (startsWith_inv _ _ E) as [rest ->].
  intros H; injection H as _ <-.
  rewrite skipn_prefix, length_app.
  destruct k; [congruence|simpl; lia].
Qed.

(** Whatever a parser returns, it has read at least one character. *)
Lemma parse_progress (fuel : nat) :
  (forall s v r, parse_value fuel s = Some (v, r) -> length r < length s)
  /\ (forall s vs r,
         parse_elements fuel s = Some (vs, r) -> length r < length s)
  /\ (forall s kvs r,
         parse_members fuel s = Some (kvs, r) -> length r < length s).
Proof.
  induction fuel as [|fuel (IHv & IHe & IHm)];
    [repeat split; intros; discriminate|].
  repeat split.
  - intros s v r; cbn [parse_value].
    pose proof (skip_ws_length s) as Hs.
    destruct (skip_ws s) as [|c t]; [discriminate|]; simpl in Hs.
    destruct (c =? 34)%N.
    { destruct (parse_chars t) as [[str r']|] eqn:E; [|discriminate].
      apply (parse_chars_progress _ _ _ _ (le_n _)) in E.
      intros H; injection H as _ <-; lia. }
    destruct (c =? 91)%N.
    { pose proof (skip_ws_length t) as Ht.
      destruct (skip_ws t) as [|c' r0]; [discriminate|]; simpl in Ht.
      destruct (c' =? 93)%N.
      - intros H; injection H as _ <-; lia.
      - destruct (parse_elements fuel t) as [[vs r']|] eqn:E; [|discriminate].
        apply IHe in E; intros H; injection H as _ <-; lia. }
    destruct (c =? 123)%N.
    { pose proof (skip_ws_length t) as Ht.
      destruct (skip_ws t) as [|c' r0]; [discriminate|]; simpl in Ht.
      destruct (c' =? 125)%N.
      - intros H; injection H as _ <-; lia.
      - destruct (parse_members fuel t) as [[kvs r']|] eqn:E; [|discriminate].
        apply IHm in E; intros H; injection H as _ <-; lia. }
    destruct (c =? 116)%N.
    { intros H; apply keyword_progress in H; [simpl in H; lia|discriminate]. }
    destruct (c =? 102)%N.
    { intros H; apply keyword_progress in H; [simpl in H; lia|discriminate]. }
    destruct (c =? 110)%N.
    { intros H; apply keyword_progress in H; [simpl in H; lia|discriminate]. }
    intros H; apply parse_number_progress in H; simpl in H; lia.
  - intros s vs r; cbn [parse_elements].
    destruct (parse_value fuel s) as [[v r0]|] eqn:E; [|discriminate].
    apply IHv in E.
    pose proof (skip_ws_length r0) as Hr.
    destruct (skip_ws r0) as [|c r']; [discriminate|]; simpl in Hr.
    destruct (c =? 44)%N.
    + destruct (parse_elements fuel r') as [[vs' r'']|] eqn:E'; [|discriminate].
      apply IHe in E'; intros H; injection H as _ <-; lia.
    + destruct (c =? 93)%N; [|discriminate].
      intros H; injection H as _ <-; lia.
  - intros s kvs r; cbn [parse_members].
    pose proof (skip_ws_length s) as Hs.
    destruct (skip_ws s) as [|q t]; [discriminate|]; simpl in Hs.
    destruct (q =? 34)%N; [|discriminate].
    destruct (parse_chars t) as [[k r0]|] eqn:Ek; [|discriminate].
    apply (parse_chars_progress _ _ _ _ (le_n _)) in Ek.
    pose proof (skip_ws_length r0) as Hr0.
    destruct (skip_ws r0) as [|colon r1]; [discriminate|]; simpl in Hr0.
    destruct (colon =? 58)%N; [|discriminate].
    destruct (parse_value fuel r1) as [[v r2]|] eqn:Ev; [|discriminate].
    apply IHv in Ev.
    pose proof (skip_ws_length r2) as Hr2.
    destruct (skip_ws r2) as [|c r3]; [discriminate|]; simpl in Hr2.
    destruct (c =? 44)%N.
    + destruct (parse_members fuel r3) as [[kvs' r4]|] eqn:Em; [|discriminate].
      apply IHm in Em; intros H; injection H as _ <-; lia.
    + destruct (c =? 125)%N; [|discriminate].
      intros H; injection H as _ <-; lia.
Qed.

(** More fuel does not change an answer. *)
Lemma parse_mono (fuel : nat) :
  forall fuel',
    fuel <= fuel' ->
    (forall s res, parse_value fuel s = Some res ->
                   parse_value fuel' s = Some res)
    /\ (forall s res, parse_elements fuel s = Some res ->
                      parse_elements fuel' s = Some res)
    /\ (forall s res, parse_members fuel s = Some res ->
                      parse_members fuel' s = Some res).
Proof.
  induction fuel as [|fuel IH]; intros fuel' Hle;
    [repeat split; intros; discriminate|].
  destruct fuel' as [|fuel']; [lia|].
  destruct (IH fuel' ltac:(lia)) as (Mv & Me & Mm).
  repeat split.
  - intros s res; cbn [parse_value].
    destruct (skip_ws s) as [|c t]; [discriminate|].
    destruct (c =? 34)%N; [auto|].
    destruct (c =? 91)%N.
    { destruct (skip_ws t) as [|c' r0]; [discriminate|].
      destruct (c' =? 93)%N; [auto|].
      destruct (parse_elements fuel t) as [x|] eqn:E; [|discriminate].
      now rewrite (Me _ _ E). }
    destruct (c =? 123)%N; [|auto].
    destruct (skip_ws t) as [|c' r0]; [discriminate|].
    destruct (c' =? 125)%N; [auto|].
    destruct (parse_members fuel t) as [x|] eqn:E; [|discriminate].
    now rewrite (Mm _ _ E).
  - intros s res; cbn [parse_elements].
    destruct (parse_value fuel s) as [[v r]|] eqn:E; [|discriminate].
    rewrite (Mv _ _ E).
    destruct (skip_ws r) as [|c r']; [discriminate|].
    destruct (c =? 44)%N; [|auto].
    destruct (parse_elements fuel r') as [x|] eqn:E'; [|discriminate].
    now rewrite (Me _ _ E').
  - intros s res; cbn [parse_members].
    destruct (skip_ws s) as [|q t]; [discriminate|].
    destruct (q =? 34)%N; [|discriminate].
    destruct (parse_chars t) as [[k r0]|]; [|discriminate].
    destruct (skip_ws r0) as [|colon r1]; [discriminate|].
    destruct (colon =? 58)%N; [|discriminate].
    destruct (parse_value fuel r1) as [[v r2]|] eqn:Ev; [|discriminate].
    rewrite (Mv _ _ Ev).
    destruct (skip_ws r2) as [|c r3]; [discriminate|].
    destruct (c =? 44)%N; [|auto].
    destruct (parse_members fuel r3) as [x|] eqn:Em; [|discriminate].
    now rewrite (Mm _ _ Em).
Qed.

(** An answer found with some fuel is found with fuel twice the length
    of the text. *)
Lemma parse_enough (fuel : nat) :
  (forall s res, parse_value fuel s = Some res ->
                 parse_value (2 * length s + 1) s = Some res)
  /\ (forall s res, parse_elements fuel s = Some res ->
                    parse_elements (2 * length s + 2) s = Some res)
  /\ (forall s res, parse_members fuel s = Some res ->
                    parse_members (2 * length s + 2) s = Some res).
Proof.
  induction fuel as [|fuel (IHv & IHe & IHm)];
    [repeat split; intros; discriminate|].
  destruct (parse_progress fuel) as (Pv & _ & _).
  repeat split.
  - intros s res.
    replace (2 * length s + 1) with (S (2 * length s)) by lia.
    cbn [parse_value].
    pose proof (skip_ws_length s) as Hs.
    destruct (skip_ws s) as [|c t]; [discriminate|]; simpl in Hs.
    destruct (c =? 34)%N; [auto|].
    destruct (c =? 91)%N.
    { destruct (skip_ws t) as [|c' r0]; [discriminate|].
      destruct (c' =? 93)%N; [auto|].
      destruct (parse_elements fuel t) as [x|] eqn:E; [|discriminate].
      apply IHe in E.
      assert (Hle : 2 * length t + 2 <= 2 * length s) by lia.
      now rewrite (proj1 (proj2 (parse_mono _ _ Hle)) _ _ E). }
    destruct (c =? 123)%N; [|auto].
    destruct (skip_ws t) as [|c' r0]; [discriminate|].
    destruct (c' =? 125)%N; [auto|].
    destruct (parse_members fuel t) as [x|] eqn:E; [|discriminate].
    apply IHm in E.
    assert (Hle : 2 * length t + 2 <= 2 * length s) by lia.
    now rewrite (proj2 (proj2 (parse_mono _ _ Hle)) _ _ E).
  - intros s res.
    replace (2 * length s + 2) with (S (2 * length s + 1)) by lia.
    cbn [parse_elements].
    destruct (parse_value fuel s) as [[v r]|] eqn:E; [|discriminate].
    pose proof (Pv _ _ _ E) as Hr.
    rewrite (IHv _ _ E).
    pose proof (skip_ws_length r) as Hr'.
    destruct (skip_ws r) as [|c r']; [discriminate|]; simpl in Hr'.
    destruct (c =? 44)%N; [|auto].
    destruct (parse_elements fuel r') as [x|] eqn:E'; [|discriminate].
    apply IHe in E'.
    assert (Hle : 2 * length r' + 2 <= 2 * length s + 1) by lia.
    now rewrite (proj1 (proj2 (parse_mono _ _ Hle)) _ _ E').
  - intros s res.
    replace (2 * length s + 2) with (S (2 * length s + 1)) by lia.
    cbn [parse_members].
    pose proof (skip_ws_length s) as Hs.
    destruct (skip_ws s) as [|q t]; [discriminate|]; simpl in Hs.
    destruct (q =? 34)%N; [|discriminate].
    destruct (parse_chars t) as [[k r0]|] eqn:Ek; [|discriminate].
    apply (parse_chars_progress _ _ _ _ (le_n _)) in Ek.
    pose proof (skip_ws_length r0) as Hr0.
    destruct (skip_ws r0) as [|colon r1]; [discriminate|]; simpl in Hr0.
    destruct (colon =? 58)%N; [|discriminate].
    destruct (parse_value fuel r1) as [[v r2]|] eqn:Ev; [|discriminate].
    pose proof (Pv _ _ _ Ev) as Hr2.
    apply IHv in Ev.
    assert (Hle1 : 2 * length r1 + 1 <= 2 * length s + 1) by lia.
    rewrite (proj1 (parse_mono _ _ Hle1) _ _ Ev).
    pose proof (skip_ws_length r2) as Hr3.
    destruct (skip_ws r2) as [|c r3]; [discriminate|]; simpl in Hr3.
    destruct (c =? 44)%N; [|auto].
    destruct (parse_members fuel r3) as [x|] eqn:Em; [|discriminate].
    apply IHm in Em.
    assert (Hle3 : 2 * length r3 + 2 <= 2 * length s + 1) by lia.
    now rewrite (proj2 (proj2 (parse_mono _ _ Hle3)) _ _ Em).
Qed.

(** [JSON_parse] does not fail for want of fuel: a text that the
    descent accepts with any fuel at all is accepted, with that value. *)
Lemma JSON_parse_enough_fuel (fuel : nat) (text : jsstring) (v : value)
      (rest : jsstring) :
  parse_value fuel text = Some (v, rest) -> skip_ws rest = [] ->
  JSON_parse text = Some v.
Proof.
  intros H Hrest; unfold JSON_parse.
  apply (proj1 (parse_enough fuel)) in H.
  assert (Hle : 2 * length text + 1 <= 2 * length text + 2) by lia.
  rewrite (proj1 (parse_mono _ _ Hle) _ _ H).
  now rewrite Hrest.
Qed.

(** ** Text recovery: the direct parse *)

(** C2.  When the trimmed response parses as JSON, text recovery returns
    the trimmed response itself; the fenced-block searches and the brace
    scan play no part in the result. *)
Theorem direct_parse_returns_trimmed_input :
  forall (response : jsstring) (v : value),
    JSON_parse (trim response) = Some v ->
    extractJsonFromResponse response = trim response.
Proof.
  intros response v H; unfold extractJsonFromResponse; now rewrite H.
Qed.

(** A JSON document whose string value itself holds a tagged fence and
    braces: the direct parse wins. *)
Lemma direct_parse_witness :
  extractJsonFromResponse
    (js "  {\x22note\x22: \x22```json {1} ```\x22, \x22n\x22: [1, 2.5e-3]}\n")
  = trim (js "  {\x22note\x22: \x22```json {1} ```\x22, \x22n\x22: [1, 2.5e-3]}\n").
Proof.
  eapply direct_parse_returns_trimmed_input.
  vm_compute; reflexivity.
Defined.

(** ** The export handler *)

(** C8.  An export request whose format is neither [markdown] nor
    [html] is answered with an error response (status 400), and no
    generator has been called when the handler returns. *)
Theorem unsupported_format_is_rejected :
  forall (stringify : StructuredData -> jsstring) (clock : Clock)
         (request : ExportRequest),
    format request <> VString (js "markdown") ->
    format request <> VString (js "html") ->
    exists message,
      POST_export stringify clock (Some request)
      = ([], JsonResponse 400 (error_body message)).
Proof.
  intros stringify clock [fmt art opts] Hmd Hhtml; simpl in *.
  unfold POST_export; simpl.
  destruct (truthy fmt), art as [a|]; try (eexists; reflexivity).
  destruct fmt as [ | |b|neg m e|s|items|props]; try (eexists; reflexivity).
  destruct (jsstring_eqb s (js "markdown")) eqn:E1.
  { apply jsstring_eqb_eq in E1; subst s; now elim Hmd. }
  destruct (jsstring_eqb s (js "html")) eqn:E2.
  { apply jsstring_eqb_eq in E2; subst s; now elim Hhtml. }
  eexists; reflexivity.
Qed.

Lemma unsupported_format_witness :
  exists message,
    POST_export (fun _ => js "{}")
                {| isoDate := js "2025-01-15"; bannerDate := js "2025/1/15";
                   footerDate := js "2025/1/15"; footerTime := js "9:00:00" |}
                (Some {| format := VString (js "pdf");
                         article := Some sample_article;
                         options := None |})
    = ([], JsonResponse 400 (error_body message)).
Proof.
  apply unsupported_format_is_rejected; simpl; intros H; inversion H.
Defined.

(** ** Whitespace *)

Lemma trimStart_split (s : jsstring) :
  exists w, s = w ++ trimStart s /\ all_ws w.
Proof.
  induction s as [|c s (w & Hs & Hw)]; [now exists []|].
  simpl; destruct (isWhiteSpace c) eqn:Ec.
  - exists (c :: w); split; [simpl; congruence|].
    unfold all_ws; simpl; now rewrite Ec.
  - now exists [].
Qed.

Lemma trimStart_ws_app (w s : jsstring) :
  all_ws w -> trimStart (w ++ s) = trimStart s.
Proof.
  unfold all_ws; induction w as [|c w IH]; simpl; [reflexivity|].
  intros H; apply andb_true_iff in H as [-> Hw]; auto.
Qed.

Lemma trimStart_all_ws (w : jsstring) : all_ws w -> trimStart w = [].
Proof.
  intros H; rewrite <- (app_nil_r w); now rewrite trimStart_ws_app.
Qed.

Lemma trimStart_nil_all_ws (s : jsstring) : trimStart s = [] -> all_ws s.
Proof.
  intros H; destruct (trimStart_split s) as (w & Hs & Hw).
  rewrite H, app_nil_r in Hs; now subst.
Qed.

Lemma trimStart_head (s : jsstring) (c : char) (t : jsstring) :
  trimStart s = c :: t -> isWhiteSpace c = false.
Proof.
  induction s as [|x s IH]; simpl; [discriminate|].
  destruct (isWhiteSpace x) eqn:Ex; [assumption|].
  intros H; injection H as <- _; assumption.
Qed.

Lemma trimStart_fixed (c : char) (t : jsstring) :
  isWhiteSpace c = false -> trimStart (c :: t) = c :: t.
Proof. intros H; simpl; now rewrite H. Qed.

Lemma trimStart_app (s t : jsstring) :
  trimStart s <> [] -> trimStart (s ++ t) = trimStart s ++ t.
Proof.
  induction s as [|c s IH]; simpl; [congruence|].
  destruct (isWhiteSpace c); auto.
Qed.

Lemma trimStart_idem (s : jsstring) : trimStart (trimStart s) = trimStart s.
Proof.
  destruct (trimStart s) as [|c t] eqn:E; [reflexivity|].
  apply trimStart_fixed; eapply trimStart_head; eassumption.
Qed.

Lemma all_ws_app (a b : jsstring) : all_ws (a ++ b) <-> all_ws a /\ all_ws b.
Proof. unfold all_ws; rewrite forallb_app; apply andb_true_iff. Qed.

Lemma all_ws_rev (w : jsstring) : all_ws w -> all_ws (rev w).
Proof.
  unfold all_ws; rewrite !forallb_forall; intros H x Hx.
  apply H; now apply in_rev.
Qed.

Lemma all_ws_dec (s : jsstring) : {all_ws s} + {trimStart s <> []}.
Proof.
  destruct (trimStart s) eqn:E; [left|right; congruence].
  now apply trimStart_nil_all_ws.
Qed.

(** [trimEnd] peels whitespace off the end: the recursion equation. *)
Lemma trimEnd_cons (x : char) (s : jsstring) :
  trimEnd (x :: s)
  = if forallb isWhiteSpace (x :: s) then [] else x :: trimEnd s.
Proof.
  unfold trimEnd; simpl rev.
  destruct (all_ws_dec (rev s)) as [Hws|Hne].
  - rewrite (trimStart_ws_app _ _ Hws), (trimStart_all_ws _ Hws).
    apply all_ws_rev in Hws; rewrite rev_involutive in Hws.
    simpl forallb; rewrite Hws, andb_true_r.
    simpl; now destruct (isWhiteSpace x).
  - rewrite (trimStart_app _ _ Hne), rev_app_distr; simpl.
    destruct (isWhiteSpace x && forallb isWhiteSpace s) eqn:E;
      [|reflexivity].
    exfalso; apply Hne, trimStart_all_ws, all_ws_rev.
    now apply andb_true_iff in E.
Qed.

Lemma trimEnd_nil : trimEnd [] = [].
Proof. reflexivity. Qed.

Lemma trimEnd_all_ws (w : jsstring) : all_ws w -> trimEnd w = [].
Proof.
  intros H; unfold trimEnd.
  now rewrite (trimStart_all_ws _ (all_ws_rev _ H)).
Qed.

Lemma trimEnd_ws_app (s w : jsstring) :
  all_ws w -> trimEnd (s ++ w) = trimEnd s.
Proof.
  intros H; unfold trimEnd.
  now rewrite rev_app_distr, (trimStart_ws_app _ _ (all_ws_rev _ H)).
Qed.

(** A trimmed string starts as its argument does. *)
Lemma trimEnd_head (c : char) (t : jsstring) :
  isWhiteSpace c = false -> exists t', trimEnd (c :: t) = c :: t'.
Proof.
  intros Hc; rewrite trimEnd_cons; simpl; rewrite Hc; simpl.
  now eexists.
Qed.

Lemma trimEnd_idem (s : jsstring) : trimEnd (trimEnd s) = trimEnd s.
Proof.
  unfold trimEnd; now rewrite rev_involutive, trimStart_idem.
Qed.

Lemma trim_idem (s : jsstring) : trim (trim s) = trim s.
Proof.
  unfold trim.
  destruct (trimStart s) as [|c t] eqn:E; [reflexivity|].
  destruct (trimEnd_head c t (trimStart_head _ _ _ E)) as [t' Ht].
  rewrite Ht, (trimStart_fixed _ _ (trimStart_head _ _ _ E)), <- Ht.
  apply trimEnd_idem.
Qed.

(** Whitespace around a string does not change what [trim] gives. *)
Lemma trim_padded (w1 g w2 : jsstring) :
  all_ws w1 -> all_ws w2 -> trim (w1 ++ g ++ w2) = trim g.
Proof.
  intros H1 H2; unfold trim; rewrite (trimStart_ws_app _ _ H1).
  destruct (all_ws_dec g) as [Hg|Hg].
  - rewrite (trimStart_ws_app _ _ Hg), (trimStart_all_ws _ Hg),
      (trimStart_all_ws _ H2); reflexivity.
  - rewrite (trimStart_app _ _ Hg); now apply trimEnd_ws_app.
Qed.

(** ** Contiguous substrings *)

Lemma infix_refl (s : jsstring) : infix s s.
Proof. exists [], []; now rewrite app_nil_r. Qed.

Lemma infix_trans (a b c : jsstring) : infix a b -> infix b c -> infix a c.
Proof.
  intros (x & y & ->) (u & v & ->).
  exists (u ++ x), (y ++ v); now rewrite <- !app_assoc.
Qed.

Lemma trimStart_infix (s : jsstring) : infix (trimStart s) s.
Proof.
  destruct (trimStart_split s) as (w & Hs & _).
  exists w, []; now rewrite app_nil_r.
Qed.

Lemma trimEnd_infix (s : jsstring) : infix (trimEnd s) s.
Proof.
  unfold trimEnd.
  destruct (trimStart_split (rev s)) as (w & Hs & _).
  exists [], (rev w); simpl.
  rewrite <- rev_app_distr, <- Hs; now rewrite rev_involutive.
Qed.

Lemma trim_infix (s : jsstring) : infix (trim s) s.
Proof.
  unfold trim; eapply infix_trans; [apply trimEnd_infix|apply trimStart_infix].
Qed.

Lemma substring_infix (s : jsstring) (a b : Z) : infix (substring s a b) s.
Proof.
  unfold substring.
  match goal with
  | |- infix (firstn ?n (skipn ?lo s)) s =>
    exists (firstn lo s), (skipn n (skipn lo s))
  end.
  now rewrite !firstn_skipn.
Qed.

(** ** The regular-expression matcher *)

Lemma exec_lits (p : jsstring) (re : regex) (rest : jsstring) :
  exec (lits p ++ re) (p ++ rest) = exec re rest.
Proof.
  induction p as [|c p IH]; simpl; [reflexivity|].
  now rewrite N.eqb_refl.
Qed.

Lemma exec_lits_inv (p : jsstring) (re : regex) (s g : jsstring) :
  exec (lits p ++ re) s = Some g ->
  exists rest, s = p ++ rest /\ exec re rest = Some g.
Proof.
  revert s; induction p as [|c p IH]; intros s H; simpl in *.
  - now exists s.
  - destruct s as [|x s]; [discriminate|].
    destruct (N.eqb_spec x c) as [->|]; [|discriminate].
    destruct (IH _ H) as (rest & -> & Hrest); now exists rest.
Qed.

Lemma exec_lits_mismatch (p : jsstring) (re : regex) (s : jsstring) :
  startsWith s p = false -> exec (lits p ++ re) s = None.
Proof.
  revert s; induction p as [|c p IH]; intros s H; simpl in *;
    [discriminate|].
  destruct s as [|x s]; [reflexivity|].
  rewrite N.eqb_sym in H.
  destruct (x =? c)%N; [now apply IH | reflexivity].
Qed.

Lemma exec_lits_end (p s : jsstring) :
  exec (lits p) s = if startsWith s p then Some [] else None.
Proof.
  revert s; induction p as [|c p IH]; intros s; simpl; [reflexivity|].
  destruct s as [|x s]; [reflexivity|].
  rewrite (N.eqb_sym c x); destruct (x =? c)%N; [apply IH | reflexivity].
Qed.

Lemma exec_star_nil (cls : char -> bool) (re : regex) :
  exec (Star cls :: re) [] = exec re [].
Proof. reflexivity. Qed.

Lemma exec_star_cons (cls : char -> bool) (re : regex) (x : char)
      (s : jsstring) :
  exec (Star cls :: re) (x :: s)
  = if cls x then
      match exec (Star cls :: re) s with
      | Some m => Some m
      | None => exec re (x :: s)
      end
    else exec re (x :: s).
Proof. reflexivity. Qed.

Lemma exec_capture_unfold (cls : char -> bool) (re : regex) (s : jsstring) :
  exec (Capture_lazy cls :: re) s
  = match exec re s with
    | Some _ => Some []
    | None =>
      match s with
      | x :: s' =>
        if cls x then option_map (cons x) (exec (Capture_lazy cls :: re) s')
        else None
      | [] => None
      end
    end.
Proof. destruct s; reflexivity. Qed.

(** Leftmost match: what [regex_match] finds, and where. *)
Lemma regex_match_inv (re : regex) (s g : jsstring) :
  regex_match re s = Some g ->
  exists a b, s = a ++ b /\ exec re b = Some g.
Proof.
  induction s as [|x s IH]; simpl.
  - destruct (exec re []) eqn:E; [|discriminate].
    intros H; injection H as ->; now exists [], [].
  - destruct (exec re (x :: s)) eqn:E.
    + intros H; injection H as ->; now exists [], (x :: s).
    + intros H; destruct (IH H) as (a & b & -> & Hb).
      now exists (x :: a), b.
Qed.

Lemma regex_match_here (re : regex) (s g : jsstring) :
  exec re s = Some g -> regex_match re s = Some g.
Proof. intros H; destruct s; simpl; now rewrite H. Qed.

Lemma regex_match_skip (re : regex) (pre rest : jsstring) :
  (forall a b, pre = a ++ b -> b <> [] -> exec re (b ++ rest) = None) ->
  regex_match re (pre ++ rest) = regex_match re rest.
Proof.
  induction pre as [|x pre IH]; intros H; [reflexivity|].
  simpl.
  change (x :: pre ++ rest) with ((x :: pre) ++ rest).
  rewrite (H [] (x :: pre) eq_refl) by discriminate.
  apply IH; intros a b -> Hb.
  now apply (H (x :: a) b).
Qed.

Lemma regex_match_none (re : regex) (s : jsstring) :
  (forall a b, s = a ++ b -> exec re b = None) -> regex_match re s = None.
Proof.
  induction s as [|x s IH]; intros H; simpl.
  - now rewrite (H [] [] eq_refl).
  - rewrite (H [] (x :: s) eq_refl).
    apply IH; intros a b ->; now apply (H (x :: a) b).
Qed.

(** *** First occurrences *)

Lemma indexOf_from_first (p c F : jsstring) (i : Z) :
  indexOf_from (c ++ F) p i = (i + Z.of_nat (length c))%Z -> first_at p c F.
Proof.
  revert i; induction c as [|x c IH]; intros i H a b Hc Hb.
  - destruct a, b; try discriminate; congruence.
  - simpl app in H; simpl length in H.
    unfold indexOf_from in H; fold indexOf_from in H.
    destruct (startsWith (x :: c ++ F) p) eqn:E; [lia|].
    destruct a as [|y a]; simpl in Hc.
    + now subst b.
    + injection Hc as _ Hc.
      apply (IH (i + 1)%Z) with (a := a); [|exact Hc|exact Hb].
      rewrite H; lia.
Qed.

Lemma indexOf_first (p c F : jsstring) :
  indexOf (c ++ F) p = Z.of_nat (length c) -> first_at p c F.
Proof. intros H; now apply indexOf_from_first with (i := 0%Z). Qed.

Lemma indexOf_from_none (p s : jsstring) (i : Z) :
  (0 <= i)%Z -> indexOf_from s p i = (-1)%Z ->
  forall a b, s <> a ++ p ++ b.
Proof.
  revert i; induction s as [|x s IH]; intros i Hi H a b Hs.
  - simpl in H.
    destruct a; [|discriminate]; destruct p; [|discriminate].
    simpl in H; lia.
  - unfold indexOf_from in H; fold indexOf_from in H.
    destruct (startsWith (x :: s) p) eqn:E; [lia|].
    destruct a as [|y a]; simpl in Hs.
    + rewrite Hs, startsWith_app in E; discriminate.
    + injection Hs as _ Hs.
      apply (IH (i + 1)%Z) with (a := a) (b := b); [lia|exact H|exact Hs].
Qed.

Lemma indexOf_none (p s : jsstring) :
  indexOf s p = (-1)%Z -> forall a b, s <> a ++ p ++ b.
Proof. apply indexOf_from_none; lia. Qed.

Lemma indexOf_from_found (p s : jsstring) (i : Z) :
  (0 <= i)%Z -> forall a b, s = a ++ p ++ b -> indexOf_from s p i <> (-1)%Z.
Proof.
  intros Hi a b Hs Hnone.
  exact (indexOf_from_none p s i Hi Hnone a b Hs).
Qed.

(** *** The fenced-block pattern *)

Lemma whitespace_is_not_backtick (x : char) :
  isWhiteSpace x = true -> (x =? 96)%N = false.
Proof.
  intros H; destruct (N.eqb_spec x 96) as [->|]; [|reflexivity].
  vm_compute in H; discriminate.
Qed.

Lemma trimStart_fence (post : jsstring) :
  trimStart (fence ++ post) = fence ++ post.
Proof. reflexivity. Qed.

Lemma exec_closer (t : jsstring) :
  exec (Star isWhiteSpace :: lits fence) t
  = if closes t then Some [] else None.
Proof.
  induction t as [|x t IH].
  - reflexivity.
  - rewrite exec_star_cons; unfold closes; simpl trimStart.
    destruct (isWhiteSpace x) eqn:Ex.
    + rewrite IH; fold (closes t); destruct (closes t); [reflexivity|].
      apply (exec_lits_mismatch fence []).
      change (startsWith (x :: t) fence)
        with ((96 =? x)%N && startsWith t (96 :: [96])%N).
      now rewrite N.eqb_sym, (whitespace_is_not_backtick _ Ex).
    + apply exec_lits_end.
Qed.

Lemma capture_unfold (s : jsstring) :
  capture s
  = if closes s then Some []
    else match s with
         | x :: s' => option_map (cons x) (capture s')
         | [] => None
         end.
Proof.
  unfold capture; rewrite exec_capture_unfold, exec_closer.
  destruct (closes s); [reflexivity|]; now destruct s.
Qed.

Lemma capture_inv (s g : jsstring) :
  capture s = Some g -> exists t, s = g ++ t /\ closes t = true.
Proof.
  revert g; induction s as [|x s IH]; intros g; rewrite capture_unfold.
  - destruct (closes []) eqn:E; [|discriminate].
    intros H; injection H as <-; now exists [].
  - destruct (closes (x :: s)) eqn:E.
    + intros H; injection H as <-; now exists (x :: s).
    + destruct (capture s) as [g'|]; [|discriminate].
      simpl; intros H; injection H as <-.
      destruct (IH g' eq_refl) as (t & -> & Ht); now exists t.
Qed.

Lemma capture_ws_none (x : char) (s : jsstring) :
  isWhiteSpace x = true -> capture s = None -> capture (x :: s) = None.
Proof.
  intros Hx Hs; rewrite capture_unfold.
  assert (Hcl : closes (x :: s) = closes s)
    by (unfold closes; simpl trimStart; now rewrite Hx).
  rewrite Hcl, Hs.
  rewrite capture_unfold in Hs.
  destruct (closes s); [discriminate|reflexivity].
Qed.

Lemma capture_trimStart_none (s : jsstring) :
  capture (trimStart s) = None -> capture s = None.
Proof.
  induction s as [|x s IH]; simpl; [auto|].
  destruct (isWhiteSpace x) eqn:Ex; [|auto].
  intros H; now apply capture_ws_none, IH.
Qed.

Lemma exec_re_block (rest : jsstring) :
  exec re_block rest = capture (trimStart rest).
Proof.
  change (exec re_block rest)
    with (exec (Star isWhiteSpace
                  :: Capture_lazy any_char :: Star isWhiteSpace :: lits fence)
               rest).
  induction rest as [|x rest IH].
  - reflexivity.
  - rewrite exec_star_cons; simpl trimStart.
    destruct (isWhiteSpace x) eqn:Ex; [|reflexivity].
    rewrite IH; destruct (capture (trimStart rest)) eqn:Ec; [reflexivity|].
    now apply capture_ws_none, capture_trimStart_none.
Qed.

Lemma closes_inv (t : jsstring) :
  closes t = true ->
  exists w post, t = w ++ fence ++ post /\ all_ws w.
Proof.
  unfold closes; intros H.
  destruct (trimStart_split t) as (w & Ht & Hw).
  destruct (startsWith_inv _ _ H) as [post Hpost].
  exists w, post; split; [congruence|assumption].
Qed.

(** What the pattern matched, laid out in the text. *)
Lemma exec_re_block_inv (rest g : jsstring) :
  exec re_block rest = Some g ->
  exists w1 w2 post,
    rest = w1 ++ g ++ w2 ++ fence ++ post /\ all_ws w1 /\ all_ws w2.
Proof.
  rewrite exec_re_block; intros H.
  destruct (trimStart_split rest) as (w1 & Hrest & Hw1).
  destruct (capture_inv _ _ H) as (t & Ht & Hcl).
  destruct (closes_inv _ Hcl) as (w2 & post & -> & Hw2).
  exists w1, w2, post; repeat split; try assumption.
  now rewrite Hrest at 1; rewrite Ht.
Qed.

(** With the closing fence the first one after [c], the group is [c]
    without its trailing whitespace. *)
Lemma capture_first_fence (c post : jsstring) :
  first_at fence c (fence ++ post) ->
  capture (c ++ fence ++ post) = Some (trimEnd c).
Proof.
  induction c as [|x c IH]; intros H.
  - change ([] ++ fence ++ post) with (fence ++ post).
    rewrite capture_unfold; unfold closes.
    now rewrite trimStart_fence, startsWith_app.
  - rewrite capture_unfold, trimEnd_cons; unfold closes.
    destruct (all_ws_dec (x :: c)) as [Hws|Hne].
    + rewrite (trimStart_ws_app _ _ Hws), trimStart_fence, startsWith_app.
      now rewrite Hws.
    + rewrite (trimStart_app _ _ Hne).
      destruct (trimStart_split (x :: c)) as (w & Hs & Hw).
      rewrite (H w (trimStart (x :: c)) Hs Hne).
      destruct (forallb isWhiteSpace (x :: c)) eqn:E.
      { elim Hne; now apply trimStart_all_ws. }
      cbn [app]; rewrite IH; [reflexivity|].
      intros a b -> Hb; now apply (H (x :: a) b).
Qed.

Lemma exec_re_block_first_fence (content post : jsstring) :
  first_at fence content (fence ++ post) ->
  exec re_block (content ++ fence ++ post) = Some (trim content).
Proof.
  intros H; rewrite exec_re_block.
  destruct (trimStart_split content) as (w & Hc & Hw).
  assert (Hts : trimStart (content ++ fence ++ post)
                = trimStart content ++ fence ++ post).
  { destruct (all_ws_dec content) as [Hws|Hne].
    - now rewrite (trimStart_ws_app _ _ Hws), (trimStart_all_ws _ Hws),
        trimStart_fence.
    - now apply trimStart_app. }
  rewrite Hts; unfold trim; apply capture_first_fence.
  intros a b Hab Hb; apply (H (w ++ a) b); [|exact Hb].
  now rewrite Hc at 1; rewrite Hab, app_assoc.
Qed.

(** A whole fenced block, opened by [opening] (the bare fence or the
    tagged one) at its first occurrence. *)
Lemma regex_match_first_block (opening pre content post : jsstring) :
  first_at opening pre (opening ++ content ++ fence ++ post) ->
  first_at fence content (fence ++ post) ->
  regex_match (lits opening ++ re_block)
              (pre ++ opening ++ content ++ fence ++ post)
  = Some (trim content).
Proof.
  intros Hpre Hcontent.
  rewrite regex_match_skip.
  - apply regex_match_here.
    rewrite exec_lits; now apply exec_re_block_first_fence.
  - intros a b Hab Hb; apply exec_lits_mismatch; now apply (Hpre a b).
Qed.

(** ** Text recovery: fenced blocks and the brace scan *)

(** What a successful fenced-block match says about the text. *)
Lemma regex_match_block_layout (opening response g : jsstring) :
  regex_match (lits opening ++ re_block) response = Some g ->
  exists pre content post,
    response = pre ++ opening ++ content ++ fence ++ post
    /\ trim content = trim g.
Proof.
  intros H.
  destruct (regex_match_inv _ _ _ H) as (pre & b & -> & Hb).
  destruct (exec_lits_inv _ _ _ _ Hb) as (rest & -> & Hrest).
  destruct (exec_re_block_inv _ _ Hrest) as (w1 & w2 & post & -> & Hw1 & Hw2).
  exists pre, (w1 ++ g ++ w2), post; split.
  - now rewrite <- !app_assoc.
  - now apply trim_padded.
Qed.

(** No tagged fence is followed by a closing fence: the tagged pattern
    does not match. *)
Lemma no_tagged_block (response : jsstring) :
  (forall a b, response = a ++ json_tag ++ b -> indexOf b fence = (-1)%Z) ->
  regex_match re_json_fence response = None.
Proof.
  intros Hnone; apply regex_match_none; intros a b ->.
  destruct (exec re_json_fence b) as [g|] eqn:E; [|reflexivity].
  destruct (exec_lits_inv _ _ _ _ E) as (rest & -> & Hrest).
  destruct (exec_re_block_inv _ _ Hrest) as (w1 & w2 & post & -> & _ & _).
  specialize (Hnone a _ eq_refl).
  exfalso; revert Hnone.
  apply (indexOf_from_found fence _ 0%Z ltac:(lia) (w1 ++ g ++ w2) post).
  now rewrite <- !app_assoc.
Qed.

(** C3.  The response does not parse as it stands and holds a block
    tagged [json]: the opening fence with its tag at its first
    occurrence (after [pre]), then [content], then the first closing
    fence after it.  Text recovery returns [content] trimmed, whatever
    [pre] and [post] are, so braces in the prose around the block never
    reach the brace scan. *)
Theorem json_fence_takes_precedence :
  forall pre content post : jsstring,
    JSON_parse (trim (pre ++ json_tag ++ content ++ fence ++ post)) = None ->
    indexOf (pre ++ json_tag ++ content ++ fence ++ post) json_tag
    = Z.of_nat (length pre) ->
    indexOf (content ++ fence ++ post) fence = Z.of_nat (length content) ->
    extractJsonFromResponse (pre ++ json_tag ++ content ++ fence ++ post)
    = trim content.
Proof.
  intros pre content post Hparse Hopen Hclose.
  unfold extractJsonFromResponse; rewrite Hparse.
  unfold re_json_fence.
  rewrite regex_match_first_block by now apply indexOf_first.
  apply trim_idem.
Qed.

Lemma json_fence_witness :
  extractJsonFromResponse
    (js "Here is { the result:\n" ++ json_tag ++ js "\n{\x22a\x22: 1}\n"
        ++ fence ++ js "\nHope } that helps }")
  = trim (js "\n{\x22a\x22: 1}\n").
Proof.
  apply json_fence_takes_precedence; vm_compute; reflexivity.
Defined.

(** C5, as the code has it.  The response does not parse as it stands
    and has no tagged block; its first fence (after [pre]) opens a block
    [content] closed by the next fence, and [content] trimmed starts
    with an opening brace and ends with a closing brace: text recovery
    returns [content] trimmed. *)
Theorem first_plain_fence_is_extracted :
  forall pre content post : jsstring,
    JSON_parse (trim (pre ++ fence ++ content ++ fence ++ post)) = None ->
    (forall a b,
        pre ++ fence ++ content ++ fence ++ post = a ++ json_tag ++ b ->
        indexOf b fence = (-1)%Z) ->
    indexOf (pre ++ fence ++ content ++ fence ++ post) fence
    = Z.of_nat (length pre) ->
    indexOf (content ++ fence ++ post) fence = Z.of_nat (length content) ->
    startsWith (trim content) (js "{") = true ->
    endsWith (trim content) (js "}") = true ->
    extractJsonFromResponse (pre ++ fence ++ content ++ fence ++ post)
    = trim content.
Proof.
  intros pre content post Hparse Hnotag Hopen Hclose Hstart Hend.
  unfold extractJsonFromResponse; rewrite Hparse.
  rewrite (no_tagged_block _ Hnotag).
  unfold any_fence_or_scan, re_any_fence.
  rewrite regex_match_first_block by now apply indexOf_first.
  now rewrite trim_idem, Hstart, Hend.
Qed.

Lemma first_plain_fence_witness :
  extractJsonFromResponse
    (js "Result {draft}:\n" ++ fence ++ js "\n{\x22a\x22: 1}\n" ++ fence
        ++ js "\n" ++ fence ++ js "\n{\x22b\x22: 2}\n" ++ fence)
  = trim (js "\n{\x22a\x22: 1}\n").
Proof.
  apply first_plain_fence_is_extracted; try (vm_compute; reflexivity).
  intros a b Hab; exfalso; revert Hab.
  apply indexOf_none; vm_compute; reflexivity.
Defined.

(** The claim as the specification words it, for any block and not only
    the first, fails: when the first block is prose, the second block is
    not returned; the brace scan runs over both instead. *)
Lemma later_plain_fence_is_not_extracted :
  ~ (forall pre content post : jsstring,
        JSON_parse (trim (pre ++ fence ++ content ++ fence ++ post)) = None ->
        (forall a b,
            pre ++ fence ++ content ++ fence ++ post = a ++ json_tag ++ b ->
            indexOf b fence = (-1)%Z) ->
        indexOf (content ++ fence ++ post) fence
        = Z.of_nat (length content) ->
        startsWith (trim content) (js "{") = true ->
        endsWith (trim content) (js "}") = true ->
        extractJsonFromResponse (pre ++ fence ++ content ++ fence ++ post)
        = trim content).
Proof.
  intros Hclaim.
  specialize (Hclaim (fence ++ js "\nnote {\n" ++ fence ++ js "\n")
                     (js "\n{\x22a\x22: 1}\n") []).
  assert (Hdiffer :
            extractJsonFromResponse
              ((fence ++ js "\nnote {\n" ++ fence ++ js "\n")
                 ++ fence ++ js "\n{\x22a\x22: 1}\n" ++ fence ++ [])
            = js "{\n```\n```\n{\x22a\x22: 1}")
    by (vm_compute; reflexivity).
  rewrite Hclaim in Hdiffer; try (vm_compute; reflexivity).
  - vm_compute in Hdiffer; discriminate.
  - intros a b Hab; exfalso; revert Hab.
    apply indexOf_none; vm_compute; reflexivity.
Qed.

(** *** The brace scan *)

Lemma startsWith_char (s : jsstring) (c : char) :
  startsWith s [c] = true <-> exists t, s = c :: t.
Proof.
  destruct s as [|x t]; simpl.
  - split; [discriminate|intros [t H]; discriminate].
  - rewrite andb_true_r, N.eqb_eq; split.
    + intros ->; now exists t.
    + intros [t' H]; now injection H.
Qed.

Lemma indexOf_from_char (c : char) (s : jsstring) :
  forall i,
    indexOf_from s [c] i <> (-1)%Z ->
    exists a b,
      s = a ++ c :: b
      /\ indexOf_from s [c] i = (i + Z.of_nat (length a))%Z
      /\ ~ In c a.
Proof.
  induction s as [|x t IH]; intros i H.
  - now elim H.
  - unfold indexOf_from in *; fold indexOf_from in *.
    destruct (startsWith (x :: t) [c]) eqn:E.
    + apply startsWith_char in E as [t' E]; injection E as -> <-.
      exists [], t; repeat split; [simpl; lia|auto].
    + destruct (IH _ H) as (a & b & -> & Hi & Hnot).
      exists (x :: a), b; repeat split.
      * rewrite Hi; simpl length; lia.
      * intros [->|Hin]; [|auto].
        rewrite (proj2 (startsWith_char (c :: a ++ c :: b) c)) in E;
          [discriminate|now eexists].
Qed.

Lemma lastIndexOf_from_none (c : char) (s : jsstring) :
  forall i, (0 <= i)%Z -> lastIndexOf_from s [c] i = (-1)%Z -> ~ In c s.
Proof.
  induction s as [|x t IH]; intros i Hi H; [auto|].
  cbn [lastIndexOf_from] in H.
  destruct (lastIndexOf_from t [c] (i + 1) =? -1)%Z eqn:El.
  - apply Z.eqb_eq in El.
    destruct (startsWith (x :: t) [c]) eqn:E; [lia|].
    intros [->|Hin].
    + rewrite (proj2 (startsWith_char (c :: t) c)) in E;
        [discriminate|now eexists].
    + now apply (IH (i + 1)%Z ltac:(lia) El).
  - apply Z.eqb_neq in El; congruence.
Qed.

Lemma lastIndexOf_from_char (c : char) (s : jsstring) :
  forall i,
    (0 <= i)%Z ->
    lastIndexOf_from s [c] i <> (-1)%Z ->
    exists a b,
      s = a ++ c :: b
      /\ lastIndexOf_from s [c] i = (i + Z.of_nat (length a))%Z
      /\ ~ In c b.
Proof.
  induction s as [|x t IH]; intros i Hi H.
  - now elim H.
  - cbn [lastIndexOf_from] in *.
    destruct (lastIndexOf_from t [c] (i + 1) =? -1)%Z eqn:El.
    + apply Z.eqb_eq in El.
      destruct (startsWith (x :: t) [c]) eqn:E; [|now elim H].
      apply startsWith_char in E as [t' E]; injection E as -> <-.
      exists [], t; repeat split; [simpl; lia|].
      now apply (lastIndexOf_from_none c t (i + 1)%Z ltac:(lia)).
    + apply Z.eqb_neq in El.
      destruct (IH (i + 1)%Z ltac:(lia) El) as (a & b & -> & Hj & Hnot).
      exists (x :: a), b; repeat split; [|exact Hnot].
      rewrite Hj; simpl length; lia.
Qed.

Lemma firstn_exact (m rest : jsstring) : firstn (length m) (m ++ rest) = m.
Proof. induction m as [|c m IH]; [reflexivity|simpl; now rewrite IH]. Qed.

Lemma substring_middle (a m b : jsstring) :
  substring (a ++ m ++ b) (Z.of_nat (length a))
            (Z.of_nat (length a + length m))
  = m.
Proof.
  unfold substring; rewrite !length_app.
  replace (Z.min (Z.max (Z.of_nat (length a)) 0)
                 (Z.of_nat (length a + (length m + length b))))
    with (Z.of_nat (length a)) by lia.
  replace (Z.min (Z.max (Z.of_nat (length a + length m)) 0)
                 (Z.of_nat (length a + (length m + length b))))
    with (Z.of_nat (length a + length m)) by lia.
  replace (Z.min (Z.of_nat (length a)) (Z.of_nat (length a + length m)))
    with (Z.of_nat (length a)) by lia.
  replace (Z.max (Z.of_nat (length a)) (Z.of_nat (length a + length m)))
    with (Z.of_nat (length a + length m)) by lia.
  replace (Z.to_nat (Z.of_nat (length a + length m) - Z.of_nat (length a)))
    with (length m) by lia.
  now rewrite Nat2Z.id, skipn_prefix, firstn_exact.
Qed.

(** When the scan applies, it returns the text from the first opening
    brace to the last closing brace, both included. *)
Lemma brace_scan_shape (response : jsstring) :
  indexOf response (js "{") <> (-1)%Z ->
  (indexOf response (js "{") < lastIndexOf response (js "}"))%Z ->
  exists a mid b,
    response = a ++ js "{" ++ mid ++ js "}" ++ b
    /\ ~ infix (js "{") a /\ ~ infix (js "}") b
    /\ substring response (indexOf response (js "{"))
                 (lastIndexOf response (js "}") + 1)
       = js "{" ++ mid ++ js "}".
Proof.
  change (js "{") with (@cons char 123%N nil).
  change (js "}") with (@cons char 125%N nil).
  unfold indexOf, lastIndexOf; intros Hstart Hlt.
  destruct (indexOf_from_char 123%N response 0%Z Hstart)
    as (a & b1 & Hr1 & Hi & Ha).
  assert (Hend : lastIndexOf_from response (@cons char 125%N nil) 0 <> (-1)%Z)
    by lia.
  destruct (lastIndexOf_from_char 125%N response 0%Z ltac:(lia) Hend)
    as (a2 & b & Hr2 & Hj & Hb).
  rewrite Hi, Hj in *.
  assert (Hsplit : exists mid, a2 = a ++ 123%N :: mid).
  { rewrite Hr1 in Hr2.
    apply app_eq_app in Hr2 as [l [[Ha2 Hb1]|[Ha2 Hb1]]].
    - subst a; rewrite length_app in Hlt; lia.
    - destruct l as [|x l].
      + rewrite app_nil_r in Ha2; subst a2; lia.
      + injection Hb1 as <- _; now exists l. }
  destruct Hsplit as [mid ->].
  exists a, mid, b; repeat split.
  - rewrite Hr2, <- app_assoc; reflexivity.
  - intros (p & q & ->); apply Ha, in_or_app; right; now left.
  - intros (p & q & ->); apply Hb, in_or_app; right; now left.
  - rewrite Hr2.
    etransitivity;
      [|exact (substring_middle a (123%N :: mid ++ [125%N]) b)].
    unfold char; f_equal.
    + now rewrite <- app_assoc, <- !app_comm_cons, <- app_assoc.
    + rewrite !length_app; simpl length; rewrite length_app; simpl length; lia.
Qed.

(** C9.  Whatever the response, the recovered text is a contiguous part
    of it, and it is one of: the trimmed response; the trimmed content
    of a fenced block of the response (bare or tagged); the part from
    the first opening brace to the last closing brace, both included. *)
Theorem recovered_text_is_substring :
  forall response : jsstring,
    infix (extractJsonFromResponse response) response
    /\ (extractJsonFromResponse response = trim response
        \/ (exists opening pre content post,
               (opening = fence \/ opening = json_tag)
               /\ response = pre ++ opening ++ content ++ fence ++ post
               /\ extractJsonFromResponse response = trim content)
        \/ (exists a mid b,
               response = a ++ js "{" ++ mid ++ js "}" ++ b
               /\ ~ infix (js "{") a /\ ~ infix (js "}") b
               /\ extractJsonFromResponse response
                  = js "{" ++ mid ++ js "}")).
Proof.
  intros response.
  assert (Hscan :
            infix (brace_scan response) response
            /\ (brace_scan response = trim response
                \/ (exists a mid b,
                       response = a ++ js "{" ++ mid ++ js "}" ++ b
                       /\ ~ infix (js "{") a /\ ~ infix (js "}") b
                       /\ brace_scan response = js "{" ++ mid ++ js "}"))).
  { unfold brace_scan.
    destruct (negb (indexOf response (js "{") =? -1)%Z
              && negb (lastIndexOf response (js "}") =? -1)%Z
              && (indexOf response (js "{")
                  <? lastIndexOf response (js "}"))%Z) eqn:E.
    - apply andb_true_iff in E as [E Hlt].
      apply andb_true_iff in E as [Hstart _].
      apply negb_true_iff, Z.eqb_neq in Hstart.
      apply Z.ltb_lt in Hlt.
      split; [apply substring_infix|right].
      destruct (brace_scan_shape response Hstart Hlt)
        as (a & mid & b & Hr & Ha & Hb & Hsub).
      exists a, mid, b; auto.
    - split; [apply trim_infix|now left]. }
  assert (Hblock :
            forall opening g,
              opening = fence \/ opening = json_tag ->
              regex_match (lits opening ++ re_block) response = Some g ->
              infix (trim g) response
              /\ exists opening pre content post,
                  (opening = fence \/ opening = json_tag)
                  /\ response = pre ++ opening ++ content ++ fence ++ post
                  /\ trim g = trim content).
  { intros opening g Hop Hm.
    destruct (regex_match_block_layout _ _ _ Hm)
      as (pre & content & post & Hr & Ht).
    split.
    - rewrite <- Ht; apply infix_trans with (b := content);
        [apply trim_infix|].
      exists (pre ++ opening), (fence ++ post).
      now rewrite Hr, <- !app_assoc.
    - exists opening, pre, content, post; auto. }
  unfold extractJsonFromResponse.
  destruct (JSON_parse (trim response)).
  { split; [apply trim_infix|now left]. }
  destruct (regex_match re_json_fence response) as [g|] eqn:Etag.
  { destruct (Hblock json_tag g (or_intror eq_refl) Etag) as [Hin Hlay].
    split; [exact Hin|right; left; exact Hlay]. }
  unfold any_fence_or_scan.
  destruct (regex_match re_any_fence response) as [g|] eqn:Eany.
  - destruct (startsWith (trim g) (js "{") && endsWith (trim g) (js "}")).
    + destruct (Hblock fence g (or_introl eq_refl) Eany) as [Hin Hlay].
      split; [exact Hin|right; left; exact Hlay].
    + destruct Hscan as [Hin [Ht|Hb]]; split; auto.
  - destruct Hscan as [Hin [Ht|Hb]]; split; auto.
Qed.

(** ** Generation services *)

(** *** Console output and exceptions of the building blocks *)

Lemma bind_ret {A B} (a : A) (k : A -> M B) : bind (ret a) k = k a.
Proof. unfold bind, ret; now destruct (k a). Qed.

Lemma prop_object (props : list (jsstring * value)) (k : jsstring) :
  prop (VObject props) k = ret (lookup props k).
Proof. reflexivity. Qed.

Lemma prop_silent (v : value) (k : jsstring) : fst (prop v k) = [].
Proof. unfold prop; now destruct (get v k). Qed.

Lemma bind_silent {A B} (m : M A) (k : A -> M B) :
  fst m = [] -> (forall a, fst (k a) = []) -> fst (bind m k) = [].
Proof.
  destruct m as [out [e|a]]; simpl; intros -> Hk; [reflexivity|].
  specialize (Hk a); destruct (k a) as [out' r]; simpl in *; now subst.
Qed.

Lemma mapi_M_silent {A B} (f : A -> nat -> M B) (items : list A) :
  (forall x i, fst (f x i) = []) ->
  forall i, fst (mapi_M f items i) = [].
Proof.
  intros Hf; induction items as [|x items IH]; intros i; simpl;
    [reflexivity|].
  apply bind_silent; [apply Hf|]; intros y.
  apply bind_silent; [apply IH|]; intros ys; reflexivity.
Qed.

Section ArticleRouteFacts.

Variable ToString : value -> jsstring.
Variable fetch : jsstring -> value -> fetch_result.

Lemma to_string_silent (v : value) : fst (to_string ToString v) = [].
Proof. unfold to_string; now destruct (converts v). Qed.

Lemma flatten_subheading_silent (sub : value) (i : nat) :
  fst (flatten_subheading ToString sub i) = [].
Proof.
  unfold flatten_subheading.
  repeat (apply bind_silent;
          [apply prop_silent || apply to_string_silent|]; intros ?).
  reflexivity.
Qed.

Lemma flatten_section_silent (section : value) (i : nat) :
  fst (flatten_section ToString section i) = [].
Proof.
  unfold flatten_section.
  repeat (apply bind_silent;
          [apply prop_silent || apply to_string_silent|]; intros ?).
  apply bind_silent; [|intros ?; reflexivity].
  match goal with
  | |- fst (match ?subheadings with _ => _ end) = [] => destruct subheadings
  end; try reflexivity.
  apply bind_silent;
    [apply mapi_M_silent, flatten_subheading_silent | intros ?; reflexivity].
Qed.

Lemma articleContent_silent (article : value) :
  fst (articleContent ToString article) = [].
Proof.
  unfold articleContent.
  apply bind_silent; [apply prop_silent|]; intros sections.
  destruct sections; try reflexivity.
  apply bind_silent;
    [apply mapi_M_silent, flatten_section_silent | intros ?; reflexivity].
Qed.

Lemma attach_seo_failure (request : Request)
      (article keyword description baseUrl : value) :
  (forall url sent, fetch_failed (fetch url sent) = true) ->
  exists warning,
    attach_seo ToString fetch request article keyword description baseUrl
    = ([ConsoleWarn warning], inr article).
Proof.
  intros Hfail; unfold attach_seo.
  pose proof (articleContent_silent article) as Hsilent.
  destruct (articleContent ToString article) as [out [e|text]];
    simpl in Hsilent; subst out.
  { eexists; reflexivity. }
  cbn [bind app].
  unfold prop at 1.
  destruct (get article (js "title")) as [title|];
    [|eexists; reflexivity].
  cbn [ret bind app].
  match goal with
  | |- context [fetch ?u ?b] =>
    specialize (Hfail u b); destruct (fetch u b) as [|[|] [seoData|]]
  end; simpl in Hfail; try (eexists; reflexivity).
  unfold prop.
  destruct (get seoData (js "seoMetadata")); [discriminate|].
  eexists; reflexivity.
Qed.

(** C4.  Article generation has succeeded with [article], metadata was
    requested (the [generateSEO] field is absent or truthy) and the
    dependent metadata call fails: the handler still answers 200 with
    exactly [article], and the only trace of the failure is one console
    warning after the output of the generation itself. *)
Theorem metadata_failure_keeps_article :
  forall (request : Request) (api : completion)
         (json title keyword generateSEO article : value)
         (out : list log_entry),
    body request = Some json ->
    get json (js "title") = Some title -> truthy title = true ->
    get json (js "keyword") = Some keyword -> truthy keyword = true ->
    get json (js "generateSEO") = Some generateSEO ->
    generateSEO = VUndefined \/ truthy generateSEO = true ->
    generateOptimizedArticleWithAI api = (out, inr article) ->
    (forall url sent, fetch_failed (fetch url sent) = true) ->
    exists warning,
      POST_article ToString fetch request api
      = (out ++ [ConsoleWarn warning],
         JsonResponse 200 (VObject [(js "article", article)])).
Proof.
  intros request api json title keyword generateSEO article out
         Hbody Htitle Htt Hkw Hkt Hgen Hreq Hart Hfail.
  unfold POST_article, request_json; rewrite Hbody.
  assert (Hobj : exists props, json = VObject props).
  { destruct json; try discriminate; simpl in Htitle;
      try (injection Htitle as <-; discriminate).
    now eexists. }
  destruct Hobj as [props ->].
  simpl in Htitle, Hkw, Hgen.
  injection Htitle as Htitle; injection Hkw as Hkw; injection Hgen as Hgen.
  destruct (attach_seo_failure
              request article keyword
              (lookup props (js "description"))
              (lookup props (js "baseUrl")) Hfail) as [warning Hattach].
  exists warning.
  rewrite bind_ret, !prop_object, !bind_ret.
  rewrite Htitle, Hkw, Hgen, Htt, Hkt; cbn [negb orb].
  rewrite Hart; cbn [bind].
  assert (Htruthy :
            truthy match generateSEO with
                   | VUndefined => VBool true
                   | v => v
                   end = true).
  { destruct Hreq as [-> | H]; [reflexivity|].
    destruct generateSEO; try exact H; discriminate. }
  rewrite Htruthy, Hattach; reflexivity.
Qed.

End ArticleRouteFacts.

Lemma metadata_failure_witness :
  exists warning,
    POST_article (fun _ => []) (fun _ _ => FetchRejects)
                 sample_request sample_completion
    = ([] ++ [ConsoleWarn warning],
       JsonResponse 200
         (VObject
            [(js "article",
              VObject [(js "title", VString (js "T"));
                       (js "sections",
                        VArray [VObject [(js "heading", VString (js "H"));
                                         (js "content", VString (js "C"))]])])])).
Proof.
  eapply (metadata_failure_keeps_article
            (fun _ => []) (fun _ _ => FetchRejects) sample_request
            sample_completion _ (VString (js "T")) (VString (js "k"))
            VUndefined).
  - reflexivity.
  - reflexivity.
  - reflexivity.
  - reflexivity.
  - reflexivity.
  - reflexivity.
  - left; reflexivity.
  - vm_compute; reflexivity.
  - intros url sent; reflexivity.
Defined.

(** *** Validation of a generated article *)

Lemma generation_accepts (api : completion) (out : list log_entry)
      (article : value) :
  generateOptimizedArticleWithAI api = (out, inr article) ->
  exists response title items,
    api = ApiReturns (Some response)
    /\ JSON_parse (extractJsonFromResponse response) = Some article
    /\ get article (js "title") = Some title
    /\ truthy title = true
    /\ get article (js "sections") = Some (VArray items).
Proof.
  unfold generateOptimizedArticleWithAI, completion_text.
  destruct api as [|[response|]]; try discriminate.
  destruct (jsstring_eqb response []); [discriminate|].
  rewrite bind_ret.
  unfold parse, prop.
  destruct (JSON_parse (extractJsonFromResponse response)) as [parsed|]
    eqn:Ep; [|discriminate].
  rewrite bind_ret.
  destruct (get parsed (js "title")) as [title|] eqn:Et; [|discriminate].
  rewrite bind_ret.
  destruct (truthy title) eqn:Ett; [|discriminate].
  cbn [negb].
  destruct (get parsed (js "sections")) as [sections|] eqn:Es;
    [|discriminate].
  rewrite bind_ret.
  destruct (truthy sections); [|discriminate].
  destruct sections; try discriminate.
  cbn; intros H; injection H as <- <-.
  exists response, title, items; repeat split; auto.
Qed.

Lemma generation_rejects (response : jsstring) (parsed : value) :
  JSON_parse (extractJsonFromResponse response) = Some parsed ->
  (forall t, get parsed (js "title") = Some t -> truthy t = false)
  \/ (forall s, get parsed (js "sections") = Some s -> isArray s = false) ->
  exists out,
    generateOptimizedArticleWithAI (ApiReturns (Some response))
    = (out, inl api_error).
Proof.
  intros Hparse Hlack.
  unfold generateOptimizedArticleWithAI, completion_text.
  destruct (jsstring_eqb response []); [eexists; reflexivity|].
  rewrite bind_ret.
  unfold parse, prop; rewrite Hparse, bind_ret.
  destruct (get parsed (js "title")) as [title|] eqn:Et;
    [|eexists; reflexivity].
  rewrite bind_ret.
  destruct (truthy title) eqn:Ett; [|eexists; reflexivity].
  destruct Hlack as [Hlack|Hlack]; [rewrite (Hlack _ eq_refl) in Ett; discriminate|].
  cbn [negb].
  destruct (get parsed (js "sections")) as [sections|] eqn:Es;
    [|eexists; reflexivity].
  rewrite bind_ret, (Hlack _ eq_refl), orb_true_r.
  eexists; reflexivity.
Qed.

Lemma sections_invariant_halves (article : value) :
  sections_invariant article
  <-> sections_nonempty article /\ sections_wellformed article.
Proof.
  unfold sections_invariant, sections_nonempty, sections_wellformed,
    has_nonempty.
  split.
  - intros (first & others & Hget & Hall); split.
    + now exists first, others.
    + now exists (first :: others).
  - intros [(first & others & Hget) (items & Hget' & Hall)].
    exists first, others; split; [exact Hget|].
    rewrite Hget in Hget'; now injection Hget' as <-.
Qed.

Lemma generation_accepts_any_items (response : jsstring)
      (parsed title : value) (items : list value) :
  response <> [] ->
  JSON_parse (extractJsonFromResponse response) = Some parsed ->
  get parsed (js "title") = Some title ->
  truthy title = true ->
  get parsed (js "sections") = Some (VArray items) ->
  generateOptimizedArticleWithAI (ApiReturns (Some response))
  = ([], inr parsed).
Proof.
  intros Hresponse Hparse Htitle Htruthy Hsections.
  unfold generateOptimizedArticleWithAI, completion_text.
  apply jsstring_eqb_neq in Hresponse; rewrite Hresponse, bind_ret.
  unfold parse, prop.
  rewrite Hparse, bind_ret, Htitle, bind_ret, Htruthy.
  cbn [negb]; rewrite Hsections, bind_ret.
  reflexivity.
Qed.

(** C6, as the code has it.  An article that article generation returns
    is the parsed response itself, with a truthy [title] and a [sections]
    property that is an array.  Nothing more is checked: every non-empty
    answer whose recovered text parses to a value with a truthy [title]
    and an array as [sections] is returned, whatever the array holds, and
    nothing is logged.  And a parsed response whose [title] is missing
    (or otherwise falsy), or whose [sections] is not an array, is
    rejected: generation ends with an error. *)
Theorem validation_checks_title_and_sections_array :
  (forall api out article,
      generateOptimizedArticleWithAI api = (out, inr article) ->
      exists response title items,
        api = ApiReturns (Some response)
        /\ JSON_parse (extractJsonFromResponse response) = Some article
        /\ get article (js "title") = Some title
        /\ truthy title = true
        /\ get article (js "sections") = Some (VArray items))
  /\ (forall response parsed title items,
         response <> [] ->
         JSON_parse (extractJsonFromResponse response) = Some parsed ->
         get parsed (js "title") = Some title ->
         truthy title = true ->
         get parsed (js "sections") = Some (VArray items) ->
         generateOptimizedArticleWithAI (ApiReturns (Some response))
         = ([], inr parsed))
  /\ (forall response parsed,
         JSON_parse (extractJsonFromResponse response) = Some parsed ->
         (forall t, get parsed (js "title") = Some t -> truthy t = false)
         \/ (forall s, get parsed (js "sections") = Some s
                       -> isArray s = false) ->
         exists out,
           generateOptimizedArticleWithAI (ApiReturns (Some response))
           = (out, inl api_error)).
Proof.
  split; [|split].
  - exact generation_accepts.
  - exact generation_accepts_any_items.
  - exact generation_rejects.
Qed.

Lemma validation_witness :
  (exists response title items,
      sample_completion = ApiReturns (Some response)
      /\ JSON_parse (extractJsonFromResponse response)
         = Some (VObject
                   [(js "title", VString (js "T"));
                    (js "sections",
                     VArray [VObject [(js "heading", VString (js "H"));
                                      (js "content", VString (js "C"))]])])
      /\ get (VObject
                [(js "title", VString (js "T"));
                 (js "sections",
                  VArray [VObject [(js "heading", VString (js "H"));
                                   (js "content", VString (js "C"))]])])
             (js "title") = Some title
      /\ truthy title = true
      /\ get (VObject
                [(js "title", VString (js "T"));
                 (js "sections",
                  VArray [VObject [(js "heading", VString (js "H"));
                                   (js "content", VString (js "C"))]])])
             (js "sections") = Some (VArray items))
  /\ generateOptimizedArticleWithAI
       (ApiReturns
          (Some (js "{\x22title\x22:\x22T\x22,\x22sections\x22:[{\x22heading\x22:\x22\x22,\x22content\x22:\x22\x22},null,true]}")))
     = ([],
        inr (VObject
               [(js "title", VString (js "T"));
                (js "sections",
                 VArray [VObject [(js "heading", VString []);
                                  (js "content", VString [])];
                         VNull; VBool true])]))
  /\ (exists out,
         generateOptimizedArticleWithAI
           (ApiReturns (Some (js "{\x22sections\x22: [], \x22title\x22: \x22\x22}")))
         = (out, inl api_error)).
Proof.
  destruct validation_checks_title_and_sections_array
    as (Hinv & Haccept & Hreject).
  split; [|split].
  - apply (Hinv sample_completion []).
    vm_compute; reflexivity.
  - apply (Haccept _ _ (VString (js "T"))
                   [VObject [(js "heading", VString []);
                             (js "content", VString [])];
                    VNull; VBool true]).
    + discriminate.
    + vm_compute; reflexivity.
    + vm_compute; reflexivity.
    + reflexivity.
    + vm_compute; reflexivity.
  - apply (Hreject _ (VObject [(js "sections", VArray []);
                               (js "title", VString [])])).
    + vm_compute; reflexivity.
    + left; intros t Ht; vm_compute in Ht; injection Ht as <-; reflexivity.
Defined.

(** An answer whose [sections] array holds an object with an empty
    heading and an empty content, [null] and a number is returned as it
    is. *)
Lemma malformed_sections_accepted :
  generateOptimizedArticleWithAI malformed_sections_completion
  = ([],
     inr (VObject
            [(js "title", VString (js "T"));
             (js "sections",
              VArray [VObject [(js "heading", VString []);
                               (js "content", VString [])];
                      VNull; VNumber false 7 0])])).
Proof. vm_compute; reflexivity. Qed.

(** The claim as the specification words it fails, and so does each of
    its parts: an answer with an empty [sections] array passes
    validation, and so does an answer whose array is not empty and whose
    elements are not sections in good form; the heading and the content
    of an element of an accepted article may both be empty. *)
Lemma accepted_article_breaks_the_invariant :
  ~ (forall api out article,
        generateOptimizedArticleWithAI api = (out, inr article) ->
        sections_invariant article)
  /\ ~ (forall api out article,
           generateOptimizedArticleWithAI api = (out, inr article) ->
           sections_nonempty article)
  /\ ~ (forall api out article,
           generateOptimizedArticleWithAI api = (out, inr article) ->
           sections_nonempty article -> sections_wellformed article)
  /\ ~ (forall api out article items section,
           generateOptimizedArticleWithAI api = (out, inr article) ->
           get article (js "sections") = Some (VArray items) ->
           In section items ->
           has_nonempty (js "heading") section
           \/ has_nonempty (js "content") section).
Proof.
  assert (Hnone :
            ~ (forall api out article,
                  generateOptimizedArticleWithAI api = (out, inr article) ->
                  sections_nonempty article)).
  { intros Hclaim.
    destruct (Hclaim no_sections_completion []
                     (VObject [(js "title", VString (js "T"));
                               (js "sections", VArray [])]))
      as (first & others & Hget).
    - vm_compute; reflexivity.
    - vm_compute in Hget; discriminate. }
  assert (Hany :
            ~ (forall api out article items section,
                  generateOptimizedArticleWithAI api = (out, inr article) ->
                  get article (js "sections") = Some (VArray items) ->
                  In section items ->
                  has_nonempty (js "heading") section
                  \/ has_nonempty (js "content") section)).
  { intros Hclaim.
    pose proof malformed_sections_accepted as Hgen.
    destruct (Hclaim _ _ _ _
                     (VObject [(js "heading", VString []);
                               (js "content", VString [])])
                     Hgen eq_refl)
      as [(v & Hget & c & s & ->)|(v & Hget & c & s & ->)];
      [now left|vm_compute in Hget; discriminate
       |vm_compute in Hget; discriminate]. }
  split; [|split; [exact Hnone|split; [|exact Hany]]].
  - intros Hclaim; apply Hnone; intros api out article Hgen.
    now apply sections_invariant_halves, (Hclaim api out).
  - intros Hclaim.
    pose proof malformed_sections_accepted as Hgen.
    destruct (Hclaim _ _ _ Hgen) as (items & Hget & Hall).
    + now eexists _, _.
    + vm_compute in Hget; injection Hget as <-.
      apply Forall_inv_tail, Forall_inv in Hall.
      destruct Hall as [(v & Hv & _) _]; discriminate.
Qed.

(** *** Title candidates *)

Lemma decimal_of_uint_inj (d d' : Decimal.uint) :
  decimal_of_uint d = decimal_of_uint d' -> d = d'.
Proof.
  revert d'; induction d; intros d'; destruct d'; simpl; intros H;
    try discriminate; try reflexivity;
    injection H as H; f_equal; auto.
Qed.

Lemma decimal_inj (n m : nat) : decimal n = decimal m -> n = m.
Proof.
  unfold decimal; intros H.
  now apply Unsigned.to_uint_inj, decimal_of_uint_inj.
Qed.

Lemma title_id_inj (i j : nat) : title_id i = title_id j -> i = j.
Proof.
  unfold title_id; intros H.
  apply app_inv_head, decimal_inj in H; lia.
Qed.

Lemma toGeneratedTitle_ok (entry : value) (index : nat)
      (out : list log_entry) (t : GeneratedTitle) :
  toGeneratedTitle entry index = (out, inr t) ->
  id t = title_id index
  /\ get entry (js "title") = Some (title t)
  /\ get entry (js "description") = Some (description t).
Proof.
  unfold toGeneratedTitle, prop.
  destruct (get entry (js "title")) as [x|]; [|discriminate].
  destruct (get entry (js "description")) as [y|]; [|discriminate].
  rewrite !bind_ret; intros H; injection H as _ <-.
  repeat split.
Qed.

Lemma mapi_M_inv {A B} (f : A -> nat -> M B) (x : A) (rest : list A)
      (i : nat) (out : list log_entry) (ys : list B) :
  mapi_M f (x :: rest) i = (out, inr ys) ->
  exists out1 y out2 ys',
    f x i = (out1, inr y) /\ mapi_M f rest (S i) = (out2, inr ys')
    /\ ys = y :: ys'.
Proof.
  simpl; unfold bind at 1.
  destruct (f x i) as [out1 [e|y]]; [discriminate|].
  unfold bind at 1.
  destruct (mapi_M f rest (S i)) as [out2 [e|ys']]; [discriminate|].
  simpl; intros H; injection H as _ <-.
  now exists out1, y, out2, ys'.
Qed.

Lemma mapped_titles (entries : list value) :
  forall (i : nat) (out : list log_entry) (titles : list GeneratedTitle),
    mapi_M toGeneratedTitle entries i = (out, inr titles) ->
    map id titles = map title_id (seq i (length entries))
    /\ Forall2 (fun entry t =>
                  get entry (js "title") = Some (title t)
                  /\ get entry (js "description") = Some (description t))
               entries titles.
Proof.
  induction entries as [|entry entries IH]; intros i out titles H.
  - simpl in H; injection H as _ <-; split; constructor.
  - apply mapi_M_inv in H as (out1 & t & out2 & ts & Ht & Hts & ->).
    apply toGeneratedTitle_ok in Ht as (Hid & Htitle & Hdesc).
    destruct (IH _ _ _ Hts) as [Hids Hrest].
    split.
    + simpl; now rewrite Hid, Hids.
    + constructor; [split|]; assumption.
Qed.

Lemma title_ids_distinct (i n : nat) : NoDup (map title_id (seq i n)).
Proof.
  revert i; induction n as [|n IH]; intros i; simpl; constructor.
  - rewrite in_map_iff; intros (j & Hj & Hin).
    apply title_id_inj in Hj; subst j.
    apply in_seq in Hin; lia.
  - apply IH.
Qed.

(** C10.  When title generation succeeds, the parsed response has a
    [titles] array, and the candidates returned are as many as its
    entries; their identifiers are [ai-title-1], [ai-title-2], ... in
    order, whatever [id] the entries carry, hence pairwise distinct; and
    the title and the description of each candidate are those of the
    entry at the same position. *)
Theorem title_candidates_are_numbered :
  forall (api : completion) (out : list log_entry)
         (titles : list GeneratedTitle),
    generateOptimizedTitlesWithAI api = (out, inr titles) ->
    exists response parsed entries,
      api = ApiReturns (Some response)
      /\ JSON_parse (extractJsonFromResponse response) = Some parsed
      /\ get parsed (js "titles") = Some (VArray entries)
      /\ length titles = length entries
      /\ map id titles
         = map (fun index => js "ai-title-" ++ decimal (index + 1))
               (seq 0 (length entries))
      /\ NoDup (map id titles)
      /\ Forall2 (fun entry t =>
                    get entry (js "title") = Some (title t)
                    /\ get entry (js "description") = Some (description t))
                 entries titles.
Proof.
  intros api out titles.
  unfold generateOptimizedTitlesWithAI, completion_text.
  destruct api as [|[response|]]; try discriminate.
  destruct (jsstring_eqb response []); [discriminate|].
  rewrite bind_ret.
  unfold parse, prop at 1.
  destruct (JSON_parse (extractJsonFromResponse response)) as [parsed|]
    eqn:Ep; [|discriminate].
  rewrite bind_ret.
  destruct (get parsed (js "titles")) as [ts|] eqn:Et; [|discriminate].
  rewrite bind_ret.
  destruct (truthy ts); [|discriminate].
  destruct ts as [ | | | | |entries| ]; try discriminate.
  cbn [negb isArray orb].
  destruct (mapi_M toGeneratedTitle entries 0) as [out' [e|titles']] eqn:Em;
    [discriminate|].
  cbn; intros H; injection H as _ <-.
  destruct (mapped_titles _ _ _ _ Em) as [Hids Hfields].
  exists response, parsed, entries.
  repeat split; auto.
  - rewrite <- (length_map id), Hids, length_map; apply length_seq.
  - rewrite Hids; apply title_ids_distinct.
Qed.

Lemma title_candidates_witness :
  exists response parsed entries,
    ApiReturns
      (Some (js "Sure! ```json\n{\x22titles\x22: [{\x22id\x22: \x22x\x22, \x22title\x22: \x22A\x22, \x22description\x22: \x22a\x22}, {\x22id\x22: \x22x\x22, \x22title\x22: \x22B\x22}]}\n```"))
    = ApiReturns (Some response)
    /\ JSON_parse (extractJsonFromResponse response) = Some parsed
    /\ get parsed (js "titles") = Some (VArray entries)
    /\ length [ {| id := js "ai-title-1"; title := VString (js "A");
                   description := VString (js "a") |};
                {| id := js "ai-title-2"; title := VString (js "B");
                   description := VUndefined |} ]
       = length entries
    /\ map id [ {| id := js "ai-title-1"; title := VString (js "A");
                   description := VString (js "a") |};
                {| id := js "ai-title-2"; title := VString (js "B");
                   description := VUndefined |} ]
       = map (fun index => js "ai-title-" ++ decimal (index + 1))
             (seq 0 (length entries))
    /\ NoDup (map id
                [ {| id := js "ai-title-1"; title := VString (js "A");
                     description := VString (js "a") |};
                  {| id := js "ai-title-2"; title := VString (js "B");
                     description := VUndefined |} ])
    /\ Forall2 (fun entry t =>
                  get entry (js "title") = Some (title t)
                  /\ get entry (js "description") = Some (description t))
               entries
               [ {| id := js "ai-title-1"; title := VString (js "A");
                    description := VString (js "a") |};
                 {| id := js "ai-title-2"; title := VString (js "B");
                    description := VUndefined |} ].
Proof.
  apply (title_candidates_are_numbered _ []).
  vm_compute; reflexivity.
Defined.

(** ** HTML export: every interpolated field is escaped *)

(** *** The document as a sequence of segments *)

Lemma render_app (a b : list segment) : render (a ++ b) = render a ++ render b.
Proof. apply flat_map_app. Qed.

Lemma render_cons (seg : segment) (segs : list segment) :
  render (seg :: segs) = text_of seg ++ render segs.
Proof. reflexivity. Qed.

Lemma render_nil : render [] = [].
Proof. reflexivity. Qed.

(** The literals are kept abstract while both sides are brought to the
    same right-nested form. *)
Ltac abstract_literals :=
  repeat match goal with
         | |- context [js ?s] =>
           let lit := fresh "lit" in generalize (js s); intros lit
         end.

Ltac render_norm :=
  abstract_literals;
  repeat (rewrite ?render_app, ?render_cons, ?render_nil);
  cbn [text_of inline paragraphs];
  repeat rewrite <- app_assoc;
  repeat (rewrite ?app_nil_r, ?app_nil_l).

#[local] Opaque js.

Lemma html_subheading_layout (html : jsstring) (sub : Subheading) :
  html_subheading html sub = html ++ render (subheading_layout sub).
Proof.
  unfold html_subheading, subheading_layout; render_norm; reflexivity.
Qed.

Lemma fold_html_subheading (subs : list Subheading) (html : jsstring) :
  fold_left html_subheading subs html
  = html ++ render (flat_map subheading_layout subs).
Proof.
  revert html; induction subs as [|sub subs IH]; intros html;
    cbn [fold_left flat_map].
  - now rewrite render_nil, app_nil_r.
  - rewrite IH, html_subheading_layout, render_app; now rewrite app_assoc.
Qed.

Lemma html_section_layout (html : jsstring) (section : ArticleSection) :
  html_section html section = html ++ render (section_layout section).
Proof.
  unfold html_section, section_layout.
  destruct (subheadings section) as [subs|].
  - rewrite fold_html_subheading; render_norm; reflexivity.
  - render_norm; reflexivity.
Qed.

Lemma fold_html_section (secs : list ArticleSection) (html : jsstring) :
  fold_left html_section secs html
  = html ++ render (flat_map section_layout secs).
Proof.
  revert html; induction secs as [|sec secs IH]; intros html;
    cbn [fold_left flat_map].
  - now rewrite render_nil, app_nil_r.
  - rewrite IH, html_section_layout, render_app; now rewrite app_assoc.
Qed.

Lemma generateHTML_layout (stringify : StructuredData -> jsstring)
      (clock : Clock) (article : Article) (options : ExportOptions) :
  generateHTML stringify clock article options
  = render (html_layout stringify clock article options).
Proof.
  unfold generateHTML, html_layout, head_layout, banner_layout, meta_layout.
  rewrite fold_html_section.
  destruct (seo_included article options) as [seo|].
  - destruct (nonempty (canonicalUrl seo)), (structuredData seo),
      (includeStyles options) as [[|]|]; render_norm; reflexivity.
  - destruct (includeStyles options) as [[|]|]; render_norm; reflexivity.
Qed.

#[local] Transparent js.

(** *** The fields of an export *)

Lemma sources_app (a b : list segment) :
  sources (a ++ b) = sources a ++ sources b.
Proof. apply flat_map_app. Qed.

Lemma sources_sections (secs : list ArticleSection) :
  sources (flat_map section_layout secs) = flat_map section_fields secs.
Proof.
  induction secs as [|sec secs IH]; [reflexivity|].
  cbn [flat_map]; rewrite sources_app, IH; f_equal.
  unfold section_layout, section_fields.
  rewrite !sources_app; cbn [sources flat_map inline paragraphs app].
  rewrite app_nil_r; do 2 f_equal.
  destruct (subheadings sec) as [subs|]; [|reflexivity].
  induction subs as [|sub subs IHs]; [reflexivity|].
  cbn [flat_map]; rewrite sources_app, IHs; reflexivity.
Qed.

Lemma html_layout_sources (stringify : StructuredData -> jsstring)
      (clock : Clock) (article : Article) (options : ExportOptions) :
  sources (html_layout stringify clock article options)
  = html_fields article options.
Proof.
  unfold html_layout, html_fields, head_layout, banner_layout, meta_layout,
    seo_fields, canonical_field.
  rewrite !sources_app, sources_sections.
  generalize html_styles; intros styles.
  destruct (seo_included article options) as [seo|].
  - rewrite !sources_app.
    destruct (nonempty (canonicalUrl seo)), (structuredData seo),
      (includeStyles options) as [[|]|]; abstract_literals;
      cbn [sources flat_map inline paragraphs app];
      now rewrite ?app_nil_r.
  - destruct (includeStyles options) as [[|]|]; abstract_literals;
      cbn [sources flat_map inline paragraphs app];
      now rewrite ?app_nil_r.
Qed.

(** *** What [escapeHtml] produces *)

Lemma escapeHtml_cons (c : char) (t : jsstring) :
  escapeHtml (c :: t)
  = match html_entity c with
    | Some entity => entity
    | None => [c]
    end ++ escapeHtml t.
Proof. reflexivity. Qed.

Lemma reference_to_entity (c : char) :
  reference_to c character_references = html_entity c.
Proof.
  unfold html_entity; cbn [reference_to character_references].
  repeat match goal with
         | |- context [(c =? ?k)%N] => destruct (c =? k)%N; [reflexivity|]
         end.
  reflexivity.
Qed.

(** The code's [escapeHtml] gives the escaped form. *)
Lemma escapeHtml_escaped_form (text : jsstring) :
  escapeHtml text = escaped_form text.
Proof.
  unfold escapeHtml, escaped_form.
  induction text as [|c t IH]; [reflexivity|].
  cbn [flat_map]; now rewrite IH, reference_to_entity.
Qed.

Lemma escaped_form_cons (c : char) (t : jsstring) :
  escaped_form (c :: t)
  = match reference_to c character_references with
    | Some r => r
    | None => [c]
    end ++ escaped_form t.
Proof. reflexivity. Qed.

(** The five characters and their references, and the other
    characters. *)
Lemma reference_to_cases (c : char) :
  (reference_to c character_references = None
   /\ c <> 38%N /\ c <> 60%N /\ c <> 62%N /\ c <> 34%N /\ c <> 39%N)
  \/ (c = 38%N /\ reference_to c character_references = Some (js "&amp;"))
  \/ (c = 60%N /\ reference_to c character_references = Some (js "&lt;"))
  \/ (c = 62%N /\ reference_to c character_references = Some (js "&gt;"))
  \/ (c = 34%N /\ reference_to c character_references = Some (js "&quot;"))
  \/ (c = 39%N /\ reference_to c character_references = Some (js "&#039;")).
Proof.
  cbn [reference_to character_references].
  destruct (N.eqb_spec c 38); [right; left; auto|].
  destruct (N.eqb_spec c 60); [right; right; left; auto|].
  destruct (N.eqb_spec c 62); [right; right; right; left; auto|].
  destruct (N.eqb_spec c 34); [right; right; right; right; left; auto|].
  destruct (N.eqb_spec c 39); [right; right; right; right; right; auto|].
  left; repeat split; auto.
Qed.

Lemma shown_from_skip (p rest : jsstring) :
  shown_from (length p) (p ++ rest) = shown_from 0 rest.
Proof. induction p as [|c p IH]; [reflexivity|exact IH]. Qed.

Lemma shown_reference (c : char) (name rest : jsstring) :
  reference (name ++ rest) = Some (c, length name) ->
  shown_from 0 (38%N :: name ++ rest) = c :: shown_from 0 rest.
Proof.
  intros H; cbn [shown_from].
  change (38 =? 38)%N with true; cbv iota.
  now rewrite H, shown_from_skip.
Qed.

(** What is shown for the escaped form of a text is the text. *)
Lemma shown_escaped_form (text : jsstring) : shown (escaped_form text) = text.
Proof.
  unfold shown; induction text as [|c t IH]; [reflexivity|].
  rewrite escaped_form_cons.
  destruct (reference_to_cases c)
    as [(-> & Hc & _) | [(-> & ->) | [(-> & ->) | [(-> & ->)
        | [(-> & ->) | (-> & ->)]]]]].
  - cbn [app shown_from].
    destruct (N.eqb_spec c 38); [congruence|]; now rewrite IH.
  - change (js "&amp;" ++ escaped_form t)
      with (38%N :: js "amp;" ++ escaped_form t).
    rewrite (shown_reference 38%N (js "amp;")) by reflexivity; now rewrite IH.
  - change (js "&lt;" ++ escaped_form t)
      with (38%N :: js "lt;" ++ escaped_form t).
    rewrite (shown_reference 60%N (js "lt;")) by reflexivity; now rewrite IH.
  - change (js "&gt;" ++ escaped_form t)
      with (38%N :: js "gt;" ++ escaped_form t).
    rewrite (shown_reference 62%N (js "gt;")) by reflexivity; now rewrite IH.
  - change (js "&quot;" ++ escaped_form t)
      with (38%N :: js "quot;" ++ escaped_form t).
    rewrite (shown_reference 34%N (js "quot;")) by reflexivity; now rewrite IH.
  - change (js "&#039;" ++ escaped_form t)
      with (38%N :: js "#039;" ++ escaped_form t).
    rewrite (shown_reference 39%N (js "#039;")) by reflexivity; now rewrite IH.
Qed.

Lemma ampersands_escaped_form (text : jsstring) :
  ampersands_begin_references (escaped_form text) = true.
Proof.
  induction text as [|c t IH]; [reflexivity|].
  rewrite escaped_form_cons.
  destruct (reference_to_cases c)
    as [(-> & Hc & _) | [(-> & ->) | [(-> & ->) | [(-> & ->)
        | [(-> & ->) | (-> & ->)]]]]].
  - cbn [app ampersands_begin_references].
    destruct (N.eqb_spec c 38); [congruence|exact IH].
  - change (ampersands_begin_references (js "&amp;" ++ escaped_form t))
      with (ampersands_begin_references (escaped_form t)); exact IH.
  - change (ampersands_begin_references (js "&lt;" ++ escaped_form t))
      with (ampersands_begin_references (escaped_form t)); exact IH.
  - change (ampersands_begin_references (js "&gt;" ++ escaped_form t))
      with (ampersands_begin_references (escaped_form t)); exact IH.
  - change (ampersands_begin_references (js "&quot;" ++ escaped_form t))
      with (ampersands_begin_references (escaped_form t)); exact IH.
  - change (ampersands_begin_references (js "&#039;" ++ escaped_form t))
      with (ampersands_begin_references (escaped_form t)); exact IH.
Qed.

Lemma html_entity_cases (c : char) :
  (html_entity c = None /\ is_markup c = false /\ c <> 38%N)
  \/ (exists entity, html_entity c = Some entity /\ markup_free entity).
Proof.
  unfold html_entity, is_markup.
  destruct (N.eqb_spec c 38); [right; eexists; split; reflexivity|].
  destruct (N.eqb_spec c 60); [right; eexists; split; reflexivity|].
  destruct (N.eqb_spec c 62); [right; eexists; split; reflexivity|].
  destruct (N.eqb_spec c 34); [right; eexists; split; reflexivity|].
  destruct (N.eqb_spec c 39); [right; eexists; split; reflexivity|].
  left; auto.
Qed.

Lemma markup_free_app (a b : jsstring) :
  markup_free a -> markup_free b -> markup_free (a ++ b).
Proof.
  unfold markup_free; intros Ha Hb; now rewrite forallb_app, Ha, Hb.
Qed.

Lemma escapeHtml_markup_free (text : jsstring) :
  markup_free (escapeHtml text).
Proof.
  induction text as [|c t IH]; [reflexivity|].
  rewrite escapeHtml_cons; apply markup_free_app; [|exact IH].
  destruct (html_entity_cases c) as [(-> & Hc & _)|(entity & -> & He)];
    [|exact He].
  unfold markup_free; simpl; now rewrite Hc.
Qed.

(** *** No raw script tag *)

Lemma scan_app (q : nat) (a b : jsstring) :
  scan q (a ++ b) = scan (scan q a) b.
Proof. apply fold_left_app. Qed.

Lemma step_bound (q : nat) (c : char) : q <= 8 -> step q c <= 8.
Proof.
  intros Hq; unfold step.
  destruct (Nat.eqb_spec q 8); [lia|].
  destruct (nth q script_tag 0 =? c)%N; [lia|].
  destruct (c =? 60)%N; lia.
Qed.

Lemma scan_bound (text : jsstring) (q : nat) : q <= 8 -> scan q text <= 8.
Proof.
  revert q; induction text as [|c t IH]; intros q Hq; simpl; [exact Hq|].
  now apply IH, step_bound.
Qed.

Lemma scan_found (text : jsstring) : scan 8 text = 8.
Proof. induction text as [|c t IH]; simpl; [reflexivity|exact IH]. Qed.

Lemma scan_tag (q : nat) : q <= 8 -> scan q script_tag = 8.
Proof.
  intros Hq.
  do 9 (destruct q as [|q]; [vm_compute; reflexivity|]); lia.
Qed.

Lemma quiet_has_no_tag (text : jsstring) :
  quiet text -> ~ infix script_tag text.
Proof.
  unfold quiet; intros Hq (a & b & ->).
  rewrite !scan_app, scan_tag, scan_found in Hq by (apply scan_bound; lia).
  discriminate.
Qed.

Lemma quiet_app (a b : jsstring) : quiet a -> quiet b -> quiet (a ++ b).
Proof. unfold quiet; intros Ha Hb; now rewrite scan_app, Ha. Qed.

Lemma quiet_nil : quiet [].
Proof. reflexivity. Qed.

Lemma step_plain (c : char) : (c =? 60)%N = false -> step 0 c = 0.
Proof.
  intros Hc; unfold step.
  change (nth 0 script_tag 0%N) with 60%N.
  now rewrite N.eqb_sym, Hc.
Qed.

Lemma no_lt_quiet (t : jsstring) : no_lt t -> quiet t.
Proof.
  unfold no_lt, quiet; induction t as [|c t IH]; simpl; [reflexivity|].
  intros H; apply andb_true_iff in H as [Hc Ht].
  apply negb_true_iff in Hc; rewrite (step_plain _ Hc); auto.
Qed.

Lemma markup_free_no_lt (t : jsstring) : markup_free t -> no_lt t.
Proof.
  unfold markup_free, no_lt, is_markup; induction t as [|c t IH]; simpl;
    [reflexivity|].
  intros H; apply andb_true_iff in H as [Hc Ht].
  rewrite (IH Ht), andb_true_r.
  destruct (c =? 60)%N; [discriminate|reflexivity].
Qed.

Lemma replaceAll_quiet (break t : jsstring) :
  quiet break -> no_lt t -> quiet (replaceAll LF break t).
Proof.
  intros Hb; unfold no_lt; induction t as [|c t IH]; simpl;
    [reflexivity|].
  intros H; apply andb_true_iff in H as [Hc Ht].
  apply quiet_app; [|auto].
  destruct (c =? LF)%N; [exact Hb|].
  apply no_lt_quiet; unfold no_lt; simpl; now rewrite Hc.
Qed.

Lemma render_quiet (segs : list segment) :
  Forall (fun seg => quiet (text_of seg)) segs -> quiet (render segs).
Proof.
  induction 1 as [|seg segs Hseg _ IH]; [reflexivity|].
  rewrite render_cons; now apply quiet_app.
Qed.

Lemma field_quiet (source : jsstring) (break : option jsstring) :
  match break with Some b => quiet b | None => True end ->
  quiet (text_of (Field source break)).
Proof.
  pose proof (markup_free_no_lt _ (escapeHtml_markup_free source)) as H.
  destruct break as [b|]; simpl; intros Hb.
  - now apply replaceAll_quiet.
  - now apply no_lt_quiet.
Qed.

(** Every segment of a layout leaves the automaton in its initial
    state: templates by evaluation, fields because they are escaped. *)
Ltac quiet_segments :=
  repeat match goal with
         | |- Forall _ [] => apply Forall_nil
         | |- Forall _ (_ :: _) => apply Forall_cons
         | |- Forall _ (_ ++ _) => apply Forall_app; split
         end;
  try match goal with
      | |- quiet (text_of (inline _)) => apply field_quiet; exact I
      | |- quiet (text_of (paragraphs _ _)) =>
        apply field_quiet; vm_compute; reflexivity
      | |- quiet (text_of (Template _)) => vm_compute; reflexivity
      end.

Lemma subheading_layout_quiet (sub : Subheading) :
  Forall (fun seg => quiet (text_of seg)) (subheading_layout sub).
Proof. unfold subheading_layout; quiet_segments. Qed.

Lemma section_layout_quiet (section : ArticleSection) :
  Forall (fun seg => quiet (text_of seg)) (section_layout section).
Proof.
  unfold section_layout; quiet_segments.
  destruct (subheadings section) as [subs|]; [|constructor].
  apply Forall_flat_map, Forall_forall; intros sub _.
  apply subheading_layout_quiet.
Qed.

Lemma html_layout_quiet (stringify : StructuredData -> jsstring)
      (clock : Clock) (article : Article) (options : ExportOptions) :
  clock_no_lt clock ->
  match payload stringify article options with
  | Some text => no_lt text
  | None => True
  end ->
  Forall (fun seg => quiet (text_of seg))
         (html_layout stringify clock article options).
Proof.
  intros (Hbanner & Hdate & Htime) Hpayload.
  unfold payload in Hpayload.
  unfold html_layout, head_layout, banner_layout, meta_layout.
  destruct (seo_included article options) as [seo|].
  - destruct (nonempty (canonicalUrl seo)), (structuredData seo),
      (includeStyles options) as [[|]|];
      quiet_segments;
      try (apply no_lt_quiet; assumption);
      try (apply Forall_flat_map, Forall_forall; intros sec _;
           apply section_layout_quiet).
  - destruct (includeStyles options) as [[|]|];
      quiet_segments;
      try (apply no_lt_quiet; assumption);
      try (apply Forall_flat_map, Forall_forall; intros sec _;
           apply section_layout_quiet).
Qed.

Lemma field_text_of (source : jsstring) (break : option jsstring) :
  text_of (Field source break) = field_text break source.
Proof.
  destruct break; cbn [text_of field_text];
    now rewrite escapeHtml_escaped_form.
Qed.

Lemma in_sources (source : jsstring) (segs : list segment) :
  In source (sources segs) -> exists break, In (Field source break) segs.
Proof.
  induction segs as [|seg segs IH]; [intros []|].
  change (sources (seg :: segs))
    with (match seg with Field f _ => [f] | _ => [] end ++ sources segs).
  intros H; apply in_app_or in H as [H|H].
  - destruct seg as [t|f b|t|t]; try (now destruct H).
    destruct H as [->|[]]; exists b; now left.
  - destruct (IH H) as [b Hb]; exists b; now right.
Qed.

Lemma infix_segment (seg : segment) (segs : list segment) :
  In seg segs -> infix (text_of seg) (render segs).
Proof.
  intros H; apply in_split in H as (l1 & l2 & ->).
  exists (render l1), (render l2).
  now rewrite render_app, render_cons.
Qed.

(** C1.  The HTML document is the exporter's literal text with, in its
    holes, the fields of the article and of its metadata, the
    serialized structured data and the dates.  The fields in the holes
    are exactly [html_fields]: the title, every heading and content,
    every subheading title and content, and every metadata string of the
    head.  Each hole of a field holds the escaped form of the field
    (with its line feeds replaced by the paragraph break, in a
    paragraph), so the document contains the escaped form of every
    field; and [escapeHtml] computes the escaped form.  The escaped
    form of a text has none of less-than, greater-than, double quote and
    apostrophe, each of its ampersands begins a character reference, and
    what a browser shows for it is the text itself.  Hence a field
    never contributes a script tag: when the dates and the serialized
    structured data bring no less-than sign, the document has no
    occurrence of the tag at all. *)
Theorem html_export_escapes_every_field :
  forall (stringify : StructuredData -> jsstring) (clock : Clock)
         (article : Article) (options : ExportOptions),
    generateHTML stringify clock article options
    = render (html_layout stringify clock article options)
    /\ sources (html_layout stringify clock article options)
       = html_fields article options
    /\ (forall source break,
           In (Field source break)
              (html_layout stringify clock article options) ->
           text_of (Field source break) = field_text break source)
    /\ (forall source,
           In source (html_fields article options) ->
           exists break,
             infix (field_text break source)
                   (generateHTML stringify clock article options))
    /\ (forall text,
           escapeHtml text = escaped_form text
           /\ shown (escaped_form text) = text
           /\ markup_free (escaped_form text)
           /\ ampersands_begin_references (escaped_form text) = true)
    /\ (clock_no_lt clock ->
        match payload stringify article options with
        | Some text => no_lt text
        | None => True
        end ->
        ~ infix script_tag (generateHTML stringify clock article options)).
Proof.
  intros stringify clock article options.
  split; [apply generateHTML_layout|].
  split; [apply html_layout_sources|].
  split; [intros source break _; apply field_text_of|].
  split; [|split].
  - intros source Hin.
    rewrite <- (html_layout_sources stringify clock) in Hin.
    destruct (in_sources _ _ Hin) as [break Hfield].
    exists break.
    rewrite generateHTML_layout, <- field_text_of.
    now apply infix_segment.
  - intros text.
    split; [apply escapeHtml_escaped_form|].
    split; [apply shown_escaped_form|].
    split; [|apply ampersands_escaped_form].
    rewrite <- escapeHtml_escaped_form; apply escapeHtml_markup_free.
  - intros Hclock Hpayload.
    rewrite generateHTML_layout.
    now apply quiet_has_no_tag, render_quiet, html_layout_quiet.
Qed.

(** An article with a script tag in every field: the document shows
    the title as it is written, and holds no script tag. *)
Lemma html_export_witness :
  infix (js "&lt;script&gt;alert(1)&lt;/script&gt;")
        (generateHTML (fun _ => js "{}") sample_clock script_article
                      with_seo)
  /\ shown (js "&lt;script&gt;alert(1)&lt;/script&gt;")
     = js "<script>alert(1)</script>"
  /\ ~ infix script_tag
         (generateHTML (fun _ => js "{}") sample_clock script_article
                       with_seo).
Proof.
  destruct (html_export_escapes_every_field
              (fun _ => js "{}") sample_clock script_article with_seo)
    as (_ & _ & _ & Hheld & Hform & Hno).
  split; [|split].
  - destruct (Hheld (js "<script>alert(1)</script>")) as [break Hin].
    + vm_compute; auto 20.
    + destruct break; exact Hin.
  - exact (proj1 (proj2 (Hform (js "<script>alert(1)</script>")))).
  - apply Hno.
    + repeat split; vm_compute; reflexivity.
    + vm_compute; exact I.
Defined.

(** ** Markdown export and re-extraction *)

(** *** Lines *)







Lemma join_cons (sep p q : jsstring) (rest : list jsstring) :
  join sep (p :: q :: rest) = p ++ sep ++ join sep (q :: rest).
Proof. reflexivity. Qed.




(** *** Kinds of lines *)







(** *** The exported text *)

#[local] Opaque js.

Ltac text_norm :=
  abstract_literals;
  repeat rewrite <- app_assoc;
  repeat (rewrite ?app_nil_r, ?app_nil_l).

Lemma markdown_subheading_text (markdown : jsstring) (sub : Subheading) :
  markdown_subheading markdown sub = markdown ++ subheading_text sub.
Proof.
  unfold markdown_subheading, subheading_text; text_norm; reflexivity.
Qed.

Lemma fold_markdown_subheading (subs : list Subheading) (markdown : jsstring) :
  fold_left markdown_subheading subs markdown
  = markdown ++ flat_map subheading_text subs.
Proof.
  revert markdown; induction subs as [|sub subs IH]; intros markdown;
    cbn [fold_left flat_map].
  - now rewrite app_nil_r.
  - rewrite IH, markdown_subheading_text; now rewrite app_assoc.
Qed.

Lemma markdown_section_text (markdown : jsstring) (section : ArticleSection) :
  markdown_section markdown section = markdown ++ section_text section.
Proof.
  unfold markdown_section, section_text.
  destruct (subheadings section) as [subs|].
  - rewrite fold_markdown_subheading; text_norm; reflexivity.
  - text_norm; reflexivity.
Qed.

Lemma fold_markdown_section (secs : list ArticleSection) (markdown : jsstring) :
  fold_left markdown_section secs markdown
  = markdown ++ flat_map section_text secs.
Proof.
  revert markdown; induction secs as [|sec secs IH]; intros markdown;
    cbn [fold_left flat_map].
  - now rewrite app_nil_r.
  - rewrite IH, markdown_section_text; now rewrite app_assoc.
Qed.

Lemma generateMarkdown_text (clock : Clock) (article : Article)
      (options : ExportOptions) :
  generateMarkdown clock article options
  = front_matter clock article options
    ++ js "# " ++ art_title article ++ js "\n\n"
    ++ flat_map section_text (sections article)
    ++ markdown_footer clock.
Proof.
  unfold generateMarkdown, front_matter, front_matter_body, markdown_footer.
  rewrite fold_markdown_section.
  destruct (seo_included article options) as [seo|].
  - destruct (nonempty (canonicalUrl seo)); text_norm; reflexivity.
  - text_norm; reflexivity.
Qed.

#[local] Transparent js.

(** *** The lines of the exported text *)





(** *** Rules *)






(** *** Reading the lines back *)









(** *** The front matter *)









(* ================================================================== *)
(** * Part IV. Further properties of the code                          *)
(* ================================================================== *)

(** ** Text recovery: the last two steps *)

(** No fence is followed by a second one: neither pattern finds a
    block, with or without a tag after the opening fence. *)
Lemma no_closed_block (tag response : jsstring) :
  (forall a b, response = a ++ fence ++ b -> indexOf b fence = (-1)%Z) ->
  regex_match (lits (fence ++ tag) ++ re_block) response = None.
Proof.
  intros Hnone; apply regex_match_none; intros a b ->.
  destruct (exec (lits (fence ++ tag) ++ re_block) b) as [g|] eqn:E;
    [|reflexivity].
  destruct (exec_lits_inv _ _ _ _ E) as (rest & -> & Hrest).
  destruct (exec_re_block_inv _ _ Hrest) as (w1 & w2 & post & -> & _ & _).
  specialize (Hnone a (tag ++ w1 ++ g ++ w2 ++ fence ++ post)).
  rewrite <- !app_assoc in Hnone; specialize (Hnone eq_refl).
  exfalso; revert Hnone.
  apply (indexOf_from_found fence _ 0%Z ltac:(lia)
                            (tag ++ w1 ++ g ++ w2) post).
  now rewrite <- !app_assoc.
Qed.

Lemma no_closed_block_scan (response : jsstring) :
  JSON_parse (trim response) = None ->
  (forall a b, response = a ++ fence ++ b -> indexOf b fence = (-1)%Z) ->
  extractJsonFromResponse response = brace_scan response.
Proof.
  intros Hparse Hnone.
  unfold extractJsonFromResponse, any_fence_or_scan; rewrite Hparse.
  change re_json_fence with (lits (fence ++ js "json") ++ re_block).
  rewrite (no_closed_block _ _ Hnone).
  replace re_any_fence with (lits (fence ++ []) ++ re_block)
    by (now rewrite app_nil_r).
  now rewrite (no_closed_block _ _ Hnone).
Qed.

Lemma indexOf_from_char_first (c : char) (a t : jsstring) :
  ~ In c a ->
  forall i, indexOf_from (a ++ c :: t) [c] i = (i + Z.of_nat (length a))%Z.
Proof.
  induction a as [|x a IH]; intros Ha i.
  - simpl; rewrite N.eqb_refl; simpl; lia.
  - cbn [app indexOf_from startsWith].
    destruct (N.eqb_spec c x) as [->|Hx]; [elim Ha; now left|].
    cbn [andb]; rewrite IH by (intros H; apply Ha; now right).
    simpl length; lia.
Qed.

Lemma lastIndexOf_from_absent (c : char) (b : jsstring) :
  ~ In c b -> forall i, lastIndexOf_from b [c] i = (-1)%Z.
Proof.
  induction b as [|x b IH]; intros Hb i; [reflexivity|].
  cbn [lastIndexOf_from startsWith].
  rewrite IH by (intros H; apply Hb; now right).
  destruct (N.eqb_spec c x) as [->|Hx]; [elim Hb; now left|reflexivity].
Qed.

Lemma lastIndexOf_from_char_last (c : char) (a b : jsstring) :
  ~ In c b ->
  forall i, (0 <= i)%Z ->
            lastIndexOf_from (a ++ c :: b) [c] i
            = (i + Z.of_nat (length a))%Z.
Proof.
  intros Hb; induction a as [|x a IH]; intros i Hi.
  - cbn [app lastIndexOf_from startsWith].
    rewrite (lastIndexOf_from_absent _ _ Hb), N.eqb_refl; simpl; lia.
  - cbn [app lastIndexOf_from].
    rewrite IH by lia.
    destruct (Z.eqb_spec (i + 1 + Z.of_nat (length a)) (-1)); [lia|].
    simpl length; lia.
Qed.

Lemma absent_char (c : char) (s : jsstring) :
  indexOf s [c] = (-1)%Z -> ~ In c s.
Proof.
  intros H Hin; apply in_split in Hin as (a & b & ->).
  exact (indexOf_none _ _ H a b eq_refl).
Qed.

Lemma after_each_unfold (p s : jsstring) :
  after_each p s
  = (if startsWith s p then [skipn (length p) s] else [])
    ++ match s with
       | [] => []
       | _ :: t => after_each p t
       end.
Proof. destruct s; reflexivity. Qed.

Lemma after_each_spec (p s x y : jsstring) :
  s = x ++ p ++ y -> In y (after_each p s).
Proof.
  revert s; induction x as [|c x IH]; intros s ->.
  - rewrite after_each_unfold; apply in_or_app; left.
    cbn [app]; rewrite startsWith_app, skipn_prefix; now left.
  - cbn [app after_each]; apply in_or_app; right; now apply IH.
Qed.

(** The scan on a text laid out around its first opening brace and its
    last closing brace. *)
Lemma brace_scan_layout (a mid b : jsstring) :
  indexOf a (js "{") = (-1)%Z -> indexOf b (js "}") = (-1)%Z ->
  brace_scan (a ++ js "{" ++ mid ++ js "}" ++ b) = js "{" ++ mid ++ js "}".
Proof.
  intros Ha Hb.
  apply (absent_char 123%N) in Ha; apply (absent_char 125%N) in Hb.
  unfold brace_scan, indexOf, lastIndexOf.
  change (js "{") with (@cons N 123%N nil).
  change (js "}") with (@cons N 125%N nil).
  unfold jsstring, char in *; cbn [app].
  rewrite (indexOf_from_char_first _ _ _ Ha).
  replace (a ++ 123%N :: mid ++ 125%N :: b)
    with ((a ++ 123%N :: mid) ++ 125%N :: b)
    by (now rewrite <- app_assoc).
  rewrite (lastIndexOf_from_char_last _ _ _ Hb) by lia.
  rewrite length_app; simpl length.
  repeat match goal with
         | |- context [(?x =? ?y)%Z] =>
           replace (x =? y)%Z with false by (symmetry; apply Z.eqb_neq; unfold char; lia)
         | |- context [(?x <? ?y)%Z] =>
           replace (x <? y)%Z with true by (symmetry; apply Z.ltb_lt; unfold char; lia)
         end.
  cbn [negb andb].
  etransitivity;
    [|exact (substring_middle a (123%N :: mid ++ [125%N]) b)].
  f_equal.
  - cbn [app]; rewrite <- !app_assoc; reflexivity.
  - unfold char; simpl length; rewrite length_app; simpl length; lia.
Qed.

(** X1.  The text has no closed fenced block (no fence is followed by a
    second one) and no opening brace that comes before a closing brace:
    text recovery returns the text trimmed, whether or not it parses. *)
Theorem text_without_block_or_braces_is_trimmed :
  forall response : jsstring,
    (forall a b, response = a ++ fence ++ b -> indexOf b fence = (-1)%Z) ->
    indexOf response (js "{") = (-1)%Z
    \/ (lastIndexOf response (js "}") <= indexOf response (js "{"))%Z ->
    extractJsonFromResponse response = trim response.
Proof.
  intros response Hnone Hbraces.
  destruct (JSON_parse (trim response)) eqn:Hparse.
  { unfold extractJsonFromResponse; now rewrite Hparse. }
  rewrite (no_closed_block_scan _ Hparse Hnone); unfold brace_scan.
  destruct Hbraces as [-> | Hle]; [reflexivity|].
  destruct (Z.ltb_spec (indexOf response (js "{"))
                       (lastIndexOf response (js "}"))); [lia|].
  now rewrite andb_false_r.
Qed.

Lemma text_without_block_or_braces_witness :
  extractJsonFromResponse (js "  sorry } no { answer \n")
  = trim (js "  sorry } no { answer \n").
Proof.
  apply text_without_block_or_braces_is_trimmed.
  - intros a b Hab; exfalso; revert Hab.
    apply indexOf_none; vm_compute; reflexivity.
  - right; vm_compute; discriminate.
Defined.

(** X2.  The text does not parse as it stands and has no closed fenced
    block (it may hold one fence, as an answer cut short does): text
    recovery returns the part from the first opening brace to the last
    closing brace, both included, whatever stands before, between and
    after them. *)
Theorem braces_are_scanned_when_no_block_closes :
  forall a mid b : jsstring,
    JSON_parse (trim (a ++ js "{" ++ mid ++ js "}" ++ b)) = None ->
    (forall x y,
        a ++ js "{" ++ mid ++ js "}" ++ b = x ++ fence ++ y ->
        indexOf y fence = (-1)%Z) ->
    indexOf a (js "{") = (-1)%Z ->
    indexOf b (js "}") = (-1)%Z ->
    extractJsonFromResponse (a ++ js "{" ++ mid ++ js "}" ++ b)
    = js "{" ++ mid ++ js "}".
Proof.
  intros a mid b Hparse Hnone Ha Hb.
  rewrite (no_closed_block_scan _ Hparse Hnone).
  now apply brace_scan_layout.
Qed.

Lemma braces_are_scanned_witness :
  extractJsonFromResponse
    (js "Here you go:\n```json\n" ++ js "{"
        ++ js "\x22title\x22: \x22T\x22, \x22sections\x22: [{\x22heading\x22: \x22H\x22}]"
        ++ js "}" ++ js "\nand so")
  = js "{"
       ++ js "\x22title\x22: \x22T\x22, \x22sections\x22: [{\x22heading\x22: \x22H\x22}]"
       ++ js "}".
Proof.
  apply braces_are_scanned_when_no_block_closes;
    try (vm_compute; reflexivity).
  intros x y Hxy; apply after_each_spec in Hxy.
  vm_compute in Hxy; destruct Hxy as [<-|[]]; vm_compute; reflexivity.
Defined.

(** X3.  What text recovery returns has no whitespace at either end. *)
Theorem recovered_text_is_trimmed :
  forall response : jsstring,
    trim (extractJsonFromResponse response) = extractJsonFromResponse response.
Proof.
  intros response.
  assert (Hscan : trim (brace_scan response) = brace_scan response).
  { unfold brace_scan.
    destruct (negb (indexOf response (js "{") =? -1)%Z
              && negb (lastIndexOf response (js "}") =? -1)%Z
              && (indexOf response (js "{")
                  <? lastIndexOf response (js "}"))%Z) eqn:E;
      [|apply trim_idem].
    apply andb_true_iff in E as [E Hlt].
    apply andb_true_iff in E as [Hstart _].
    apply negb_true_iff, Z.eqb_neq in Hstart.
    apply Z.ltb_lt in Hlt.
    destruct (brace_scan_shape response Hstart Hlt)
      as (a & mid & b & _ & _ & _ & ->).
    change (js "{") with (@cons char 123%N nil).
    change (js "}") with (@cons char 125%N nil).
    unfold trim; cbn [app].
    rewrite trimStart_fixed by reflexivity.
    unfold trimEnd.
    change (123%N :: mid ++ [125%N]) with ([123%N] ++ mid ++ [125%N]).
    rewrite !rev_app_distr; cbn [rev app].
    rewrite trimStart_fixed by reflexivity.
    cbn [rev]; rewrite rev_app_distr, rev_involutive; reflexivity. }
  unfold extractJsonFromResponse, any_fence_or_scan.
  destruct (JSON_parse (trim response)); [apply trim_idem|].
  destruct (regex_match re_json_fence response); [apply trim_idem|].
  destruct (regex_match re_any_fence response) as [g|]; [|exact Hscan].
  destruct (startsWith (trim g) (js "{") && endsWith (trim g) (js "}"));
    [apply trim_idem | exact Hscan].
Qed.

(** ** Generation services: how they fail *)

Lemma try_catch_ret {A} (a : A) (out : list log_entry) (h : exn -> M A) :
  try_catch (out, inr a) h = (out, inr a).
Proof. reflexivity. Qed.

(** The outer [catch] of a service: whatever was thrown, the caller gets
    the generic error, and the console one more line. *)
Lemma outer_catch {A} (m : M A) (out : list log_entry) (e : exn) :
  try_catch m on_apiError = (out, inl e) ->
  e = api_error /\ exists before, out = before ++ api_failure_log.
Proof.
  destruct m as [o [e'|a]]; simpl; intros H; [|discriminate].
  injection H as <- <-; split; [reflexivity|now exists o].
Qed.

(** X4.  Whatever goes wrong in a generation service (the call is
    rejected, the answer is empty, it does not parse, it has the wrong
    shape, a property cannot be read), the caller gets one and the same
    error, and the last console line is that of the outer catch. *)
Theorem generation_errors_are_masked :
  forall (api : completion) (content : value) (out : list log_entry)
         (e : exn),
    (generateOptimizedArticleWithAI api = (out, inl e) ->
     e = api_error /\ exists before, out = before ++ api_failure_log)
    /\ (generateOptimizedTitlesWithAI api = (out, inl e) ->
        e = api_error /\ exists before, out = before ++ api_failure_log)
    /\ (generateSEOMetadataWithAI content api = (out, inl e) ->
        e = api_error /\ exists before, out = before ++ api_failure_log).
Proof.
  intros api content out e.
  split; [|split]; intros H; apply outer_catch in H; exact H.
Qed.

Lemma generation_errors_witness :
  (api_error = api_error
   /\ exists before, api_failure_log = before ++ api_failure_log)
  /\ (api_error = api_error
      /\ exists before, api_failure_log = before ++ api_failure_log)
  /\ (api_error = api_error
      /\ exists before, api_failure_log = before ++ api_failure_log).
Proof.
  destruct (generation_errors_are_masked
              ApiRejects VUndefined api_failure_log api_error)
    as (Harticle & Htitles & Hseo).
  split; [|split].
  - apply Harticle; vm_compute; reflexivity.
  - apply Htitles; vm_compute; reflexivity.
  - apply Hseo; vm_compute; reflexivity.
Defined.

Lemma completion_text_some (response : jsstring) :
  response <> [] -> completion_text (ApiReturns (Some response)) = ret response.
Proof.
  intros H; unfold completion_text.
  now rewrite (proj2 (jsstring_eqb_neq _ _) H).
Qed.

(** X5.  What the console shows, and what is thrown, for each way
    article generation fails.  No answer: the line of the outer catch.
    An answer whose recovered text does not parse: the three lines of
    the inner catch, then that of the outer.  An answer that parses to a
    value without a title or without a sections array: the line of the
    validation, and then the same four lines, the inner catch taking the
    validation error for a parse error. *)
Theorem article_generation_console_trace :
  (forall api : completion,
      api = ApiRejects \/ api = ApiReturns None \/ api = ApiReturns (Some []) ->
      generateOptimizedArticleWithAI api = (api_failure_log, inl api_error))
  /\ (forall response : jsstring,
         response <> [] ->
         JSON_parse (extractJsonFromResponse response) = None ->
         generateOptimizedArticleWithAI (ApiReturns (Some response))
         = (parse_failure_log ++ api_failure_log, inl api_error))
  /\ (forall (response : jsstring) (parsed t s : value),
         response <> [] ->
         JSON_parse (extractJsonFromResponse response) = Some parsed ->
         get parsed (js "title") = Some t ->
         get parsed (js "sections") = Some s ->
         truthy t = false \/ isArray s = false ->
         generateOptimizedArticleWithAI (ApiReturns (Some response))
         = (ConsoleError (js "Invalid response structure:")
              :: parse_failure_log ++ api_failure_log,
            inl api_error)).
Proof.
  split; [|split].
  - intros api [-> | [-> | ->]]; reflexivity.
  - intros response Hne Hparse.
    unfold generateOptimizedArticleWithAI.
    rewrite (completion_text_some _ Hne), bind_ret.
    unfold parse; rewrite Hparse; reflexivity.
  - intros response parsed t s Hne Hparse Ht Hs Hbad.
    unfold generateOptimizedArticleWithAI.
    rewrite (completion_text_some _ Hne), bind_ret.
    unfold parse, prop; rewrite Hparse, bind_ret, Ht, bind_ret.
    destruct (truthy t) eqn:Ett; [|reflexivity].
    destruct Hbad as [Hbad|Hbad]; [discriminate|].
    cbn [negb]; rewrite Hs, bind_ret, Hbad, orb_true_r; reflexivity.
Qed.

Lemma article_generation_console_witness :
  generateOptimizedArticleWithAI (ApiReturns None)
  = (api_failure_log, inl api_error)
  /\ generateOptimizedArticleWithAI (ApiReturns (Some (js "I cannot help.")))
     = (parse_failure_log ++ api_failure_log, inl api_error)
  /\ generateOptimizedArticleWithAI
       (ApiReturns (Some (js "{\x22title\x22: \x22T\x22, \x22sections\x22: {}}")))
     = (ConsoleError (js "Invalid response structure:")
          :: parse_failure_log ++ api_failure_log,
        inl api_error).
Proof.
  destruct article_generation_console_trace as (Hnone & Hparse & Hshape).
  split; [|split].
  - apply Hnone; right; left; reflexivity.
  - apply Hparse; [discriminate | vm_compute; reflexivity].
  - apply (Hshape _ (VObject [(js "title", VString (js "T"));
                              (js "sections", VObject [])])
                  (VString (js "T")) (VObject []));
      try (vm_compute; reflexivity); [discriminate | now right].
Defined.

(** ** Title candidates: entries are read, not checked *)

Lemma toGeneratedTitle_nullish (entry : value) (index : nat) :
  toGeneratedTitle entry index
  = if is_nullish entry then throw TypeError
    else ret {| id := js "ai-title-" ++ decimal (index + 1);
                title := match entry with
                         | VObject props => lookup props (js "title")
                         | _ => VUndefined
                         end;
                description := match entry with
                               | VObject props =>
                                 lookup props (js "description")
                               | _ => VUndefined
                               end |}.
Proof. destruct entry; reflexivity. Qed.

Lemma mapped_entries (entries : list value) :
  forall i : nat,
    if existsb is_nullish entries
    then mapi_M toGeneratedTitle entries i = throw TypeError
    else exists titles,
        mapi_M toGeneratedTitle entries i = ret titles
        /\ length titles = length entries.
Proof.
  induction entries as [|entry entries IH]; intros i.
  - now exists [].
  - cbn [existsb mapi_M]; rewrite toGeneratedTitle_nullish.
    destruct (is_nullish entry); [reflexivity|].
    cbn [orb]; rewrite bind_ret.
    specialize (IH (S i)); destruct (existsb is_nullish entries).
    + now rewrite IH.
    + destruct IH as (titles & -> & Hlen).
      rewrite bind_ret; eexists; split; [reflexivity|].
      simpl; now rewrite Hlen.
Qed.

(** X6.  The answer parses to a value with a [titles] array.  Title
    generation succeeds, silently and with as many candidates as the
    array has entries, exactly when no entry is [null]: an entry of any
    other kind is accepted as it is, and one [null] entry loses the
    whole list, logged as a parse failure. *)
Theorem titles_are_lost_to_a_null_entry :
  forall (response : jsstring) (parsed : value) (entries : list value),
    response <> [] ->
    JSON_parse (extractJsonFromResponse response) = Some parsed ->
    get parsed (js "titles") = Some (VArray entries) ->
    if existsb is_nullish entries
    then generateOptimizedTitlesWithAI (ApiReturns (Some response))
         = (parse_failure_log ++ api_failure_log, inl api_error)
    else exists titles,
        generateOptimizedTitlesWithAI (ApiReturns (Some response))
        = ([], inr titles)
        /\ length titles = length entries.
Proof.
  intros response parsed entries Hne Hparse Htitles.
  unfold generateOptimizedTitlesWithAI.
  rewrite (completion_text_some _ Hne), bind_ret.
  unfold parse, prop; rewrite Hparse, bind_ret, Htitles, bind_ret.
  cbn [truthy isArray negb orb].
  pose proof (mapped_entries entries 0) as Hmap.
  destruct (existsb is_nullish entries).
  - rewrite Hmap; reflexivity.
  - destruct Hmap as (titles & -> & Hlen).
    exists titles; split; [reflexivity|exact Hlen].
Qed.

Lemma titles_null_entry_witness :
  generateOptimizedTitlesWithAI
    (ApiReturns
       (Some (js "{\x22titles\x22: [{\x22title\x22: \x22A\x22}, null]}")))
  = (parse_failure_log ++ api_failure_log, inl api_error).
Proof.
  apply (titles_are_lost_to_a_null_entry
           (js "{\x22titles\x22: [{\x22title\x22: \x22A\x22}, null]}")
           (VObject [(js "titles",
                      VArray [VObject [(js "title", VString (js "A"))];
                              VNull])])
           [VObject [(js "title", VString (js "A"))]; VNull]).
  - discriminate.
  - vm_compute; reflexivity.
  - reflexivity.
Defined.

(** ** Metadata generation *)

(** X7.  Metadata generation returns the parsed answer itself, and
    silently, exactly when the answer's [title], [description] and
    [keywords] are all truthy; nothing else is checked, not even that
    [keywords] is an array. *)
Theorem seo_validation_checks_three_fields :
  (forall (content : value) (api : completion) (out : list log_entry)
          (seo : value),
      generateSEOMetadataWithAI content api = (out, inr seo) ->
      out = []
      /\ exists response t d k,
          api = ApiReturns (Some response)
          /\ JSON_parse (extractJsonFromResponse response) = Some seo
          /\ get seo (js "title") = Some t /\ truthy t = true
          /\ get seo (js "description") = Some d /\ truthy d = true
          /\ get seo (js "keywords") = Some k /\ truthy k = true)
  /\ (forall (content : value) (response : jsstring) (seo t d k : value),
         truthy content = false \/ (exists s, content = VString s) ->
         response <> [] ->
         JSON_parse (extractJsonFromResponse response) = Some seo ->
         get seo (js "title") = Some t -> truthy t = true ->
         get seo (js "description") = Some d -> truthy d = true ->
         get seo (js "keywords") = Some k -> truthy k = true ->
         generateSEOMetadataWithAI content (ApiReturns (Some response))
         = ([], inr seo)).
Proof.
  split.
  - intros content api out seo.
    unfold generateSEOMetadataWithAI, content_excerpt, completion_text.
    destruct (truthy content);
      [destruct content; try discriminate|];
      (destruct api as [|[response|]]; try discriminate;
       destruct (jsstring_eqb response []); [discriminate|];
       rewrite !bind_ret;
       unfold parse, prop;
       destruct (JSON_parse (extractJsonFromResponse response))
         as [parsed|] eqn:Ep; [|discriminate];
       rewrite bind_ret;
       destruct (get parsed (js "title")) as [t|] eqn:Et; [|discriminate];
       rewrite bind_ret;
       destruct (truthy t) eqn:Ett; [|discriminate];
       cbn [negb];
       destruct (get parsed (js "description")) as [d|] eqn:Ed;
         [|discriminate];
       rewrite bind_ret;
       destruct (truthy d) eqn:Edt; [|discriminate];
       cbn [negb];
       destruct (get parsed (js "keywords")) as [k|] eqn:Ek;
         [|discriminate];
       rewrite bind_ret;
       destruct (truthy k) eqn:Ekt; [|discriminate];
       cbn; intros H; injection H as <- <-;
       split; [reflexivity|];
       exists response, t, d, k; repeat split; auto).
  - intros content response seo t d k Hcontent Hne Hparse Ht Htt Hd Hdt Hk Hkt.
    unfold generateSEOMetadataWithAI.
    assert (Hex : exists excerpt, content_excerpt content = ret excerpt).
    { unfold content_excerpt.
      destruct Hcontent as [-> | [s ->]]; [now eexists|].
      destruct (truthy (VString s)); now eexists. }
    destruct Hex as [excerpt ->].
    rewrite bind_ret, (completion_text_some _ Hne), bind_ret.
    unfold parse, prop.
    rewrite Hparse, bind_ret, Ht, bind_ret, Htt; cbn [negb].
    rewrite Hd, bind_ret, Hdt; cbn [negb].
    rewrite Hk, bind_ret, Hkt; reflexivity.
Qed.

Lemma seo_validation_witness :
  ([] = ([] : list log_entry)
   /\ exists response t d k,
       ApiReturns
         (Some (js "{\x22title\x22: \x22T\x22, \x22description\x22: \x22D\x22, \x22keywords\x22: \x22a, b\x22}"))
       = ApiReturns (Some response)
       /\ JSON_parse (extractJsonFromResponse response)
          = Some (VObject [(js "title", VString (js "T"));
                           (js "description", VString (js "D"));
                           (js "keywords", VString (js "a, b"))])
       /\ get (VObject [(js "title", VString (js "T"));
                        (js "description", VString (js "D"));
                        (js "keywords", VString (js "a, b"))])
              (js "title") = Some t /\ truthy t = true
       /\ get (VObject [(js "title", VString (js "T"));
                        (js "description", VString (js "D"));
                        (js "keywords", VString (js "a, b"))])
              (js "description") = Some d /\ truthy d = true
       /\ get (VObject [(js "title", VString (js "T"));
                        (js "description", VString (js "D"));
                        (js "keywords", VString (js "a, b"))])
              (js "keywords") = Some k /\ truthy k = true)
  /\ generateSEOMetadataWithAI
       (VString (js "text"))
       (ApiReturns
          (Some (js "{\x22title\x22: \x22T\x22, \x22description\x22: \x22D\x22, \x22keywords\x22: \x22a, b\x22}")))
     = ([], inr (VObject [(js "title", VString (js "T"));
                          (js "description", VString (js "D"));
                          (js "keywords", VString (js "a, b"))])).
Proof.
  destruct seo_validation_checks_three_fields as [Hreturned Haccepted].
  split.
  - apply (Hreturned VUndefined).
    vm_compute; reflexivity.
  - apply (Haccepted _ _ _ (VString (js "T")) (VString (js "D"))
                     (VString (js "a, b")));
      try (vm_compute; reflexivity); [right; now eexists | discriminate].
Defined.

(** ** The routes *)

(** A value other than [null] and [undefined] lets every property be
    read. *)
Lemma prop_readable (json : value) (k : jsstring) (v : value) :
  get json k = Some v ->
  forall k', exists v', get json k' = Some v' /\ prop json k' = ret v'.
Proof.
  intros H k'; unfold prop.
  destruct json; try discriminate; simpl; eexists; split; reflexivity.
Qed.

Ltac read_props json H :=
  repeat match goal with
         | |- context [prop json ?k] =>
           let v := fresh "v" in
           let Hv := fresh "Hv" in
           let Hp := fresh "Hp" in
           destruct (prop_readable json _ _ H k) as (v & Hv & Hp);
           rewrite Hp, bind_ret; clear Hp
         end.

(** X8.  A request whose body can be read but lacks a required field
    (the field is missing, empty, or falsy in any other way) is answered
    400 with the route's message; nothing is logged, and the answer is
    the same whatever the model would have said. *)
Theorem missing_required_field_is_a_400 :
  forall (request : Request) (json : value) (api : completion),
    body request = Some json ->
    (forall keyword,
        get json (js "keyword") = Some keyword ->
        truthy keyword = false ->
        POST_titles request api
        = ([], JsonResponse 400 (error_body (js "キーワードが必要です"))))
    /\ (forall (ToString : value -> jsstring)
               (fetch : jsstring -> value -> fetch_result) title keyword,
           get json (js "title") = Some title ->
           get json (js "keyword") = Some keyword ->
           truthy title = false \/ truthy keyword = false ->
           POST_article ToString fetch request api
           = ([], JsonResponse 400
                    (error_body (js "タイトルとキーワードが必要です"))))
    /\ (forall title keyword,
           get json (js "title") = Some title ->
           get json (js "keyword") = Some keyword ->
           truthy title = false \/ truthy keyword = false ->
           POST_seo request api
           = ([], JsonResponse 400
                    (error_body (js "タイトルとキーワードが必要です")))).
Proof.
  intros request json api Hbody.
  split; [|split].
  - intros keyword Hk Hfalsy.
    unfold POST_titles, request_json; rewrite Hbody, bind_ret.
    read_props json Hk.
    assert (v = keyword) by congruence; subst v.
    now rewrite Hfalsy.
  - intros ToString fetch title keyword Ht Hk Hfalsy.
    unfold POST_article, request_json; rewrite Hbody, bind_ret.
    read_props json Hk.
    assert (v = title) by congruence; subst v.
    assert (v1 = keyword) by congruence; subst v1.
    destruct Hfalsy as [-> | ->]; [reflexivity|].
    now rewrite orb_true_r.
  - intros title keyword Ht Hk Hfalsy.
    unfold POST_seo, request_json; rewrite Hbody, bind_ret.
    read_props json Hk.
    assert (v = title) by congruence; subst v.
    assert (v1 = keyword) by congruence; subst v1.
    destruct Hfalsy as [-> | ->]; [reflexivity|].
    now rewrite orb_true_r.
Qed.

Lemma missing_required_field_witness :
  POST_titles {| body := Some (VObject [(js "keyword", VString [])]);
                 origin := [] |} sample_completion
  = ([], JsonResponse 400 (error_body (js "キーワードが必要です")))
  /\ POST_article (fun _ => []) (fun _ _ => FetchRejects)
                  {| body := Some (VObject [(js "keyword", VString [])]);
                     origin := [] |} sample_completion
     = ([], JsonResponse 400
              (error_body (js "タイトルとキーワードが必要です")))
  /\ POST_seo {| body := Some (VObject [(js "keyword", VString [])]);
                 origin := [] |} sample_completion
     = ([], JsonResponse 400
              (error_body (js "タイトルとキーワードが必要です"))).
Proof.
  destruct (missing_required_field_is_a_400
              {| body := Some (VObject [(js "keyword", VString [])]);
                 origin := [] |}
              (VObject [(js "keyword", VString [])])
              sample_completion eq_refl)
    as (Htitles & Harticle & Hseo).
  split; [|split].
  - apply (Htitles (VString [])); reflexivity.
  - apply (Harticle _ _ VUndefined (VString [])); try reflexivity.
    now left.
  - apply (Hseo VUndefined (VString [])); try reflexivity.
    now left.
Defined.

(** X9.  A request whose body cannot be read as JSON, or is the JSON
    value [null], is answered 500 with the route's generic message, and
    the route logs one error: the failure is not told apart from a
    failure of the generation. *)
Theorem unreadable_body_is_a_500 :
  forall (request : Request) (api : completion),
    body request = None \/ body request = Some VNull ->
    POST_titles request api
    = ([ConsoleError (js "タイトル生成エラー:")],
       JsonResponse 500 (error_body (js "タイトル生成に失敗しました")))
    /\ (forall (ToString : value -> jsstring)
               (fetch : jsstring -> value -> fetch_result),
           POST_article ToString fetch request api
           = ([ConsoleError (js "記事生成エラー:")],
              JsonResponse 500 (error_body (js "記事生成に失敗しました"))))
    /\ POST_seo request api
       = ([ConsoleError (js "SEOメタデータ生成エラー:")],
          JsonResponse 500
            (error_body (js "SEOメタデータの生成に失敗しました"))).
Proof.
  intros request api Hbody.
  unfold POST_titles, POST_article, POST_seo, request_json.
  destruct Hbody as [-> | ->]; repeat split.
Qed.

Lemma unreadable_body_witness :
  POST_titles {| body := Some VNull; origin := [] |} sample_completion
  = ([ConsoleError (js "タイトル生成エラー:")],
     JsonResponse 500 (error_body (js "タイトル生成に失敗しました")))
  /\ (forall (ToString : value -> jsstring)
             (fetch : jsstring -> value -> fetch_result),
         POST_article ToString fetch
                      {| body := Some VNull; origin := [] |} sample_completion
         = ([ConsoleError (js "記事生成エラー:")],
            JsonResponse 500 (error_body (js "記事生成に失敗しました"))))
  /\ POST_seo {| body := Some VNull; origin := [] |} sample_completion
     = ([ConsoleError (js "SEOメタデータ生成エラー:")],
        JsonResponse 500
          (error_body (js "SEOメタデータの生成に失敗しました"))).
Proof.
  apply (unreadable_body_is_a_500
           {| body := Some VNull; origin := [] |} sample_completion).
  now right.
Defined.

(** *** The article route *)

Section ArticleRouteAnswers.

Variable ToString : value -> jsstring.
Variable fetch : jsstring -> value -> fetch_result.

(** The metadata step never throws, and the article it leaves is the
    generated one, with at most its [seoMetadata] property set. *)
Lemma attach_seo_total (request : Request)
      (article keyword description baseUrl : value) :
  exists out article',
    attach_seo ToString fetch request article keyword description baseUrl
    = (out, inr article')
    /\ (article' = article
        \/ exists props m,
            article = VObject props
            /\ article' = VObject (set_prop props (js "seoMetadata") m)).
Proof.
  unfold attach_seo.
  match goal with
  | |- context [try_catch ?m ?h] =>
    destruct m as [o [e|a]] eqn:Em
  end.
  - do 2 eexists; split; [reflexivity|now left].
  - exists o, a; split; [reflexivity|].
    revert Em.
    destruct (articleContent ToString article) as [o1 [e1|text]];
      [discriminate|].
    cbn [bind]; unfold prop at 1.
    destruct (get article (js "title")) as [t|]; [|discriminate].
    cbn [ret bind].
    match goal with
    | |- context [fetch ?u ?b] => destruct (fetch u b) as [|[|] [seoData|]]
    end; try discriminate.
    + unfold prop.
      destruct (get seoData (js "seoMetadata")) as [m|]; [|discriminate].
      cbn [ret bind]; unfold assign_seoMetadata.
      destruct article; try discriminate.
      cbn; intros H; injection H as _ <-.
      right; now exists props, m.
    + cbn; intros H; injection H as _ <-; now left.
    + cbn; intros H; injection H as _ <-; now left.
Qed.

(** X10.  The article route answers in one of three ways only: 400 with
    the message about the required fields; 500 with one fixed message,
    whatever failed; or 200 with the article that generation returned,
    as it is or with its [seoMetadata] property set. *)
Theorem article_route_answers :
  forall (request : Request) (api : completion),
    snd (POST_article ToString fetch request api)
    = JsonResponse 400 (error_body (js "タイトルとキーワードが必要です"))
    \/ snd (POST_article ToString fetch request api)
       = JsonResponse 500 (error_body (js "記事生成に失敗しました"))
    \/ exists out article,
        generateOptimizedArticleWithAI api = (out, inr article)
        /\ (snd (POST_article ToString fetch request api)
            = JsonResponse 200 (VObject [(js "article", article)])
            \/ exists props m,
                article = VObject props
                /\ snd (POST_article ToString fetch request api)
                   = JsonResponse 200
                       (VObject
                          [(js "article",
                            VObject (set_prop props (js "seoMetadata") m))])).
Proof.
  intros request api.
  unfold POST_article, request_json.
  destruct (body request) as [json|]; [|right; left; reflexivity].
  rewrite bind_ret.
  destruct (get json (js "title")) as [t|] eqn:Ht;
    [|right; left; unfold prop; now rewrite Ht].
  read_props json Ht.
  destruct (negb (truthy v) || negb (truthy v1)); [left; reflexivity|].
  destruct (generateOptimizedArticleWithAI api) as [out [e|article]] eqn:Eg;
    [right; left; reflexivity|].
  right; right; exists out, article; split; [reflexivity|].
  cbn [bind].
  destruct (truthy match v2 with VUndefined => VBool true | _ => v2 end).
  - destruct (attach_seo_total request article v1 v0 v3)
      as (o & article' & -> & [-> | (props & m & -> & ->)]).
    + left; reflexivity.
    + right; exists props, m; split; reflexivity.
  - left; reflexivity.
Qed.

End ArticleRouteAnswers.

Lemma lookup_set_prop_same (props : list (jsstring * value)) (k : jsstring)
      (v : value) :
  lookup (set_prop props k v) k = v.
Proof.
  induction props as [|[k' v'] props IH]; simpl.
  - now rewrite (proj2 (jsstring_eqb_eq k k) eq_refl).
  - destruct (jsstring_eqb k' k) eqn:E; simpl.
    + now rewrite (proj2 (jsstring_eqb_eq k k) eq_refl).
    + now rewrite E.
Qed.

Lemma lookup_set_prop_other (props : list (jsstring * value))
      (k k' : jsstring) (v : value) :
  k' <> k -> lookup (set_prop props k v) k' = lookup props k'.
Proof.
  intros Hk; induction props as [|[k0 v0] props IH]; simpl.
  - destruct (jsstring_eqb k k') eqn:E; [|reflexivity].
    apply jsstring_eqb_eq in E; congruence.
  - destruct (jsstring_eqb k0 k) eqn:E; simpl.
    + apply jsstring_eqb_eq in E; subst k0.
      destruct (jsstring_eqb k k') eqn:E'; [|reflexivity].
      apply jsstring_eqb_eq in E'; congruence.
    + destruct (jsstring_eqb k0 k'); [reflexivity|exact IH].
Qed.

Section ArticleRouteMetadata.

Variable ToString : value -> jsstring.
Variable fetch : jsstring -> value -> fetch_result.

(** The route up to its metadata step, for a request with a title and a
    keyword. *)
Lemma POST_article_generated (request : Request) (api : completion)
      (json title keyword generateSEO article : value)
      (out : list log_entry) :
  body request = Some json ->
  get json (js "title") = Some title -> truthy title = true ->
  get json (js "keyword") = Some keyword -> truthy keyword = true ->
  get json (js "generateSEO") = Some generateSEO ->
  generateOptimizedArticleWithAI api = (out, inr article) ->
  exists description baseUrl,
    get json (js "description") = Some description
    /\ get json (js "baseUrl") = Some baseUrl
    /\ POST_article ToString fetch request api
       = respond
           (let (out', r) :=
              (article' <- (if truthy match generateSEO with
                                      | VUndefined => VBool true
                                      | v => v
                                      end
                            then attach_seo ToString fetch request article
                                            keyword description baseUrl
                            else ret article) ;;
               ret (JsonResponse 200 (VObject [(js "article", article')])))
            in (out ++ out', r))
           (js "記事生成エラー:") (js "記事生成に失敗しました").
Proof.
  intros Hbody Ht Htt Hk Hkt Hg Hgen.
  unfold POST_article, request_json; rewrite Hbody, bind_ret.
  read_props json Ht.
  assert (v = title) by congruence; subst v.
  assert (v1 = keyword) by congruence; subst v1.
  assert (v2 = generateSEO) by congruence; subst v2.
  exists v0, v3; split; [assumption|]; split; [assumption|].
  rewrite Htt, Hkt; cbn [negb orb].
  rewrite Hgen; reflexivity.
Qed.

(** X11.  Metadata is requested unless the request says otherwise: the
    [generateSEO] field is present and falsy ([false], [null], [0], the
    empty string).  Then the route makes no metadata call: it answers
    with the article as generated and logs nothing of its own, whatever
    the network would do.  ([null] switches the metadata off although
    the default of the field is [true]: a default applies to a missing
    field only.) *)
Theorem metadata_is_skipped_when_switched_off :
  forall (request : Request) (api : completion)
         (json title keyword generateSEO article : value)
         (out : list log_entry),
    body request = Some json ->
    get json (js "title") = Some title -> truthy title = true ->
    get json (js "keyword") = Some keyword -> truthy keyword = true ->
    get json (js "generateSEO") = Some generateSEO ->
    generateSEO <> VUndefined -> truthy generateSEO = false ->
    generateOptimizedArticleWithAI api = (out, inr article) ->
    POST_article ToString fetch request api
    = (out, JsonResponse 200 (VObject [(js "article", article)])).
Proof.
  intros request api json title keyword generateSEO article out
         Hbody Ht Htt Hk Hkt Hg Hdef Hoff Hgen.
  destruct (POST_article_generated request api _ _ _ _ _ _
                                   Hbody Ht Htt Hk Hkt Hg Hgen)
    as (description & baseUrl & _ & _ & ->).
  assert (Hswitch :
            truthy match generateSEO with
                   | VUndefined => VBool true
                   | v => v
                   end = false)
    by (destruct generateSEO; try exact Hoff; congruence).
  rewrite Hswitch, bind_ret; cbn [respond ret]; now rewrite app_nil_r.
Qed.

(** X12.  Metadata is requested and the metadata call answers with an
    [ok] response whose body has a [seoMetadata] property: the route
    answers 200 with the generated article, its [seoMetadata] property
    set to what was received (replacing one the model may have put
    there) and every other property as generated; it logs nothing of
    its own. *)
Theorem metadata_is_attached :
  forall (request : Request) (api : completion)
         (json title keyword generateSEO description baseUrl : value)
         (props : list (jsstring * value)) (out : list log_entry)
         (content : jsstring) (seoData m : value),
    body request = Some json ->
    get json (js "title") = Some title -> truthy title = true ->
    get json (js "keyword") = Some keyword -> truthy keyword = true ->
    get json (js "generateSEO") = Some generateSEO ->
    generateSEO = VUndefined \/ truthy generateSEO = true ->
    get json (js "description") = Some description ->
    get json (js "baseUrl") = Some baseUrl ->
    generateOptimizedArticleWithAI api = (out, inr (VObject props)) ->
    articleContent ToString (VObject props) = ([], inr content) ->
    fetch (origin request ++ js "/api/generate-seo")
          (VObject [(js "title", lookup props (js "title"));
                    (js "content", VString content);
                    (js "keyword", keyword);
                    (js "description", description);
                    (js "baseUrl", baseUrl)])
    = FetchResponds true (Some seoData) ->
    get seoData (js "seoMetadata") = Some m ->
    POST_article ToString fetch request api
    = (out,
       JsonResponse 200
         (VObject [(js "article",
                    VObject (set_prop props (js "seoMetadata") m))]))
    /\ lookup (set_prop props (js "seoMetadata") m) (js "seoMetadata") = m
    /\ forall k, k <> js "seoMetadata" ->
                 lookup (set_prop props (js "seoMetadata") m) k
                 = lookup props k.
Proof.
  intros request api json title keyword generateSEO description baseUrl
         props out content seoData m
         Hbody Ht Htt Hk Hkt Hg Hon Hd Hb Hgen Hcontent Hfetch Hm.
  split; [|split;
           [apply lookup_set_prop_same
           |intros k Hk'; now apply lookup_set_prop_other]].
  destruct (POST_article_generated request api _ _ _ _ _ _
                                   Hbody Ht Htt Hk Hkt Hg Hgen)
    as (description' & baseUrl' & Hd' & Hb' & ->).
  assert (description' = description) by congruence; subst description'.
  assert (baseUrl' = baseUrl) by congruence; subst baseUrl'.
  assert (Hswitch :
            truthy match generateSEO with
                   | VUndefined => VBool true
                   | v => v
                   end = true)
    by (destruct Hon as [-> | H]; [reflexivity|];
        destruct generateSEO; try exact H; discriminate).
  rewrite Hswitch.
  unfold attach_seo; rewrite Hcontent; cbn [bind app].
  rewrite prop_object; cbn [ret bind app].
  rewrite Hfetch; unfold prop; rewrite Hm.
  cbn [assign_seoMetadata ret try_catch bind respond app].
  now rewrite app_nil_r.
Qed.

End ArticleRouteMetadata.

Lemma metadata_is_skipped_witness :
  POST_article
    (fun _ => [])
    (fun _ _ =>
       FetchResponds true
         (Some (VObject [(js "seoMetadata", VString (js "m"))])))
    {| body := Some (VObject [(js "title", VString (js "T"));
                              (js "keyword", VString (js "k"));
                              (js "generateSEO", VNull)]);
       origin := js "http://localhost:3000" |}
    sample_completion
  = ([],
     JsonResponse 200
       (VObject
          [(js "article",
            VObject [(js "title", VString (js "T"));
                     (js "sections",
                      VArray [VObject [(js "heading", VString (js "H"));
                                       (js "content", VString (js "C"))]])])])).
Proof.
  eapply (metadata_is_skipped_when_switched_off
            _ _ _ sample_completion _ (VString (js "T")) (VString (js "k"))
            VNull);
    try reflexivity; try discriminate.
Defined.

Lemma metadata_is_attached_witness :
  POST_article
    (fun v => match v with VString s => s | _ => [] end)
    (fun _ _ =>
       FetchResponds true
         (Some (VObject [(js "seoMetadata", VString (js "m"))])))
    sample_request sample_completion
  = ([],
     JsonResponse 200
       (VObject
          [(js "article",
            VObject
              (set_prop
                 [(js "title", VString (js "T"));
                  (js "sections",
                   VArray [VObject [(js "heading", VString (js "H"));
                                    (js "content", VString (js "C"))]])]
                 (js "seoMetadata") (VString (js "m"))))])).
Proof.
  eapply (metadata_is_attached
            _ _ sample_request sample_completion _
            (VString (js "T")) (VString (js "k")) VUndefined
            VUndefined VUndefined _ [] (js "H\nC\n")
            (VObject [(js "seoMetadata", VString (js "m"))])
            (VString (js "m")));
    try reflexivity.
  now left.
Defined.

(** *** The article route calling the metadata route *)




(** X14.  The metadata route puts an excerpt of [content] in its prompt
    by calling [substring] on it.  A [content] that is truthy and not a
    string (a number, an array, an object) makes that call throw: the
    route answers 500 although the title and the keyword are there, and
    the model's answer plays no part. *)
Theorem metadata_route_needs_text_content :
  forall (request : Request) (api : completion)
         (json title keyword content : value),
    body request = Some json ->
    get json (js "title") = Some title -> truthy title = true ->
    get json (js "keyword") = Some keyword -> truthy keyword = true ->
    get json (js "content") = Some content ->
    truthy content = true ->
    (forall s, content <> VString s) ->
    POST_seo request api
    = (api_failure_log ++ [ConsoleError (js "SEOメタデータ生成エラー:")],
       JsonResponse 500
         (error_body (js "SEOメタデータの生成に失敗しました"))).
Proof.
  intros request api json title keyword content
         Hbody Ht Htt Hk Hkt Hc Hct Hnot.
  unfold POST_seo, request_json; rewrite Hbody, bind_ret.
  read_props json Ht.
  assert (v = title) by congruence; subst v.
  assert (v0 = content) by congruence; subst v0.
  assert (v1 = keyword) by congruence; subst v1.
  rewrite Htt, Hkt; cbn [negb orb].
  unfold generateSEOMetadataWithAI, content_excerpt; rewrite Hct.
  destruct content; try reflexivity.
  now elim (Hnot s).
Qed.

Lemma metadata_route_needs_text_witness :
  POST_seo {| body := Some (VObject [(js "title", VString (js "T"));
                                     (js "keyword", VString (js "k"));
                                     (js "content", VNumber false 42 0)]);
              origin := [] |} sample_completion
  = (api_failure_log ++ [ConsoleError (js "SEOメタデータ生成エラー:")],
     JsonResponse 500
       (error_body (js "SEOメタデータの生成に失敗しました"))).
Proof.
  eapply (metadata_route_needs_text_content
            _ _ _ (VString (js "T")) (VString (js "k"))
            (VNumber false 42 0));
    try reflexivity.
  discriminate.
Defined.

(** ** [escapeHtml] as a function *)

Lemma is_special_cases (c : char) :
  (is_special c = false /\ html_entity c = None
   /\ c <> 38%N /\ c <> 60%N /\ c <> 62%N /\ c <> 34%N /\ c <> 39%N)
  \/ (c = 38%N /\ html_entity c = Some (js "&amp;"))
  \/ (c = 60%N /\ html_entity c = Some (js "&lt;"))
  \/ (c = 62%N /\ html_entity c = Some (js "&gt;"))
  \/ (c = 34%N /\ html_entity c = Some (js "&quot;"))
  \/ (c = 39%N /\ html_entity c = Some (js "&#039;")).
Proof.
  unfold is_special, html_entity.
  destruct (N.eqb_spec c 38); [right; left; auto|].
  destruct (N.eqb_spec c 60); [right; right; left; auto|].
  destruct (N.eqb_spec c 62); [right; right; right; left; auto|].
  destruct (N.eqb_spec c 34); [right; right; right; right; left; auto|].
  destruct (N.eqb_spec c 39); [right; right; right; right; right; auto|].
  left; repeat split; auto.
Qed.

Lemma escaped_char_length (c : char) :
  1 <= length (escapeHtml [c]) <= 6
  /\ (is_special c = true -> 4 <= length (escapeHtml [c])).
Proof.
  unfold escapeHtml; cbn [flat_map]; rewrite app_nil_r.
  destruct (is_special_cases c)
    as [(E & -> & _) | [(-> & ->) | [(-> & ->) | [(-> & ->)
        | [(-> & ->) | (-> & ->)]]]]];
    try rewrite E; cbn; repeat split; try lia; discriminate.
Qed.

Lemma escapeHtml_app (a b : jsstring) :
  escapeHtml (a ++ b) = escapeHtml a ++ escapeHtml b.
Proof. apply flat_map_app. Qed.

Lemma escapeHtml_at_least (text : jsstring) :
  length text <= length (escapeHtml text).
Proof.
  induction text as [|c t IH]; [reflexivity|].
  change (c :: t) with ([c] ++ t).
  rewrite escapeHtml_app, !length_app.
  destruct (escaped_char_length c) as [Hb _].
  change (length [c]) with 1; unfold jsstring, char in *; lia.
Qed.

Lemma escapeHtml_longer (text : jsstring) :
  existsb is_special text = true -> length text < length (escapeHtml text).
Proof.
  induction text as [|c t IH]; [discriminate|].
  change (c :: t) with ([c] ++ t).
  rewrite escapeHtml_app, !length_app.
  destruct (escaped_char_length c) as [Hb Hs].
  pose proof (escapeHtml_at_least t) as Ht.
  change (length [c]) with 1; unfold jsstring, char in *.
  cbn [app existsb].
  destruct (is_special c); [specialize (Hs eq_refl); lia|].
  cbn [orb]; intros H; specialize (IH H); lia.
Qed.

(** X15.  The escaped text is at least as long as the text and at most
    six times as long; it is longer as soon as the text holds one of the
    five characters. *)
Theorem escapeHtml_length :
  forall text : jsstring,
    length text <= length (escapeHtml text) <= 6 * length text
    /\ (existsb is_special text = true ->
        length text < length (escapeHtml text)).
Proof.
  intros text; split; [split|apply escapeHtml_longer].
  - apply escapeHtml_at_least.
  - induction text as [|c t IH]; [reflexivity|].
    change (c :: t) with ([c] ++ t).
    rewrite escapeHtml_app, !length_app.
    destruct (escaped_char_length c) as [Hb _].
    change (length [c]) with 1; unfold jsstring, char in *; lia.
Qed.

Lemma escapeHtml_length_witness :
  length (js "a<b") < length (escapeHtml (js "a<b")).
Proof.
  apply (escapeHtml_length (js "a<b")); reflexivity.
Defined.

(** X16.  The texts [escapeHtml] leaves as they are, are exactly those
    with none of the five characters; in particular escaping an escaped
    text again changes it whenever the first escaping did (every entity
    begins with an ampersand). *)
Theorem escapeHtml_fixed_points :
  forall text : jsstring,
    escapeHtml text = text <-> existsb is_special text = false.
Proof.
  intros text; split.
  - intros H.
    destruct (existsb is_special text) eqn:E; [|reflexivity].
    apply escapeHtml_longer in E; rewrite H in E; lia.
  - induction text as [|c t IH]; [reflexivity|].
    cbn [existsb]; intros H; apply orb_false_iff in H as [Hc Ht].
    rewrite escapeHtml_cons, (IH Ht).
    unfold is_special in Hc; now destruct (html_entity c).
Qed.

Lemma escapeHtml_fixed_points_witness :
  escapeHtml (js "plain text, 100%") = js "plain text, 100%"
  /\ existsb is_special (js "R&D") = true.
Proof.
  split.
  - apply escapeHtml_fixed_points; reflexivity.
  - destruct (existsb is_special (js "R&D")) eqn:E; [reflexivity|].
    apply escapeHtml_fixed_points in E; discriminate.
Defined.

(** ** HTML export: paragraphs *)






(** ** Export options *)

(** X18.  Metadata reaches an exported document only on request: unless
    [includeSEO] is [true], two articles with the same title and the
    same sections export to the same Markdown and to the same HTML,
    whatever metadata either has.  Options that are left out count as
    not asking. *)
Theorem metadata_is_exported_only_on_request :
  forall (stringify : StructuredData -> jsstring) (clock : Clock)
         (a b : Article) (o : ExportOptions),
    includeSEO o <> Some true ->
    art_title a = art_title b ->
    sections a = sections b ->
    generateMarkdown clock a o = generateMarkdown clock b o
    /\ generateHTML stringify clock a o = generateHTML stringify clock b o
    /\ includeSEO default_options <> Some true.
Proof.
  intros stringify clock a b o Hoff Ht Hs.
  assert (Hflag : flag (includeSEO o) = false)
    by (destruct (includeSEO o) as [[|]|] eqn:E;
        [congruence|reflexivity|reflexivity]).
  unfold generateMarkdown, generateHTML, seo_included.
  rewrite Hflag, Ht, Hs; split; [reflexivity|split; [reflexivity|discriminate]].
Qed.

Lemma metadata_is_exported_only_on_request_witness :
  generateMarkdown sample_clock plain_article default_options
  = generateMarkdown sample_clock (without_metadata plain_article)
                     default_options
  /\ generateHTML (fun _ => []) sample_clock plain_article default_options
     = generateHTML (fun _ => []) sample_clock
                    (without_metadata plain_article) default_options
  /\ includeSEO default_options <> Some true.
Proof.
  apply metadata_is_exported_only_on_request;
    [discriminate | reflexivity | reflexivity].
Defined.

(** ** HTML export: the structured data and the stylesheet *)

Lemma infix_render_block (pre block post : list segment) :
  infix (render block) (render (pre ++ block ++ post)).
Proof. exists (render pre), (render post); now rewrite !render_app. Qed.

#[local] Opaque js.

Lemma head_layout_structured (stringify : StructuredData -> jsstring)
      (a : Article) (o : ExportOptions) (seo : SEOMetadata)
      (data : StructuredData) :
  seo_included a o = Some seo ->
  structuredData seo = Some data ->
  exists pre,
    head_layout stringify a o
    = pre ++ [ Template (js "  <script type=\x22application/ld+json\x22>\n");
               Template (js "  "); Payload (stringify data);
               Template (js "\n");
               Template (js "  </script>\n") ].
Proof.
  intros Hseo Hdata; unfold head_layout; rewrite Hseo, Hdata.
  rewrite !app_assoc; eexists; reflexivity.
Qed.

(** X19.  When metadata is included and has structured data, the HTML
    document holds a script element of type [application/ld+json] whose
    content is the serialized data exactly as [JSON.stringify] gives it:
    no character of it is escaped. *)
Theorem structured_data_is_embedded_verbatim :
  forall (stringify : StructuredData -> jsstring) (clock : Clock)
         (a : Article) (o : ExportOptions) (seo : SEOMetadata)
         (data : StructuredData),
    seo_included a o = Some seo ->
    structuredData seo = Some data ->
    infix (render [ Template (js "  <script type=\x22application/ld+json\x22>\n");
                    Template (js "  "); Payload (stringify data);
                    Template (js "\n");
                    Template (js "  </script>\n") ])
          (generateHTML stringify clock a o).
Proof.
  intros stringify clock a o seo data Hseo Hdata.
  rewrite generateHTML_layout.
  destruct (head_layout_structured stringify a o seo data Hseo Hdata)
    as [pre Hhead].
  unfold html_layout; rewrite Hhead.
  rewrite <- (app_assoc pre), (app_assoc _ pre).
  apply infix_render_block.
Qed.
#[local] Transparent js.

Lemma structured_data_witness :
  infix (render [ Template (js "  <script type=\x22application/ld+json\x22>\n");
                  Template (js "  ");
                  Payload (js "{\x22name\x22: \x22</script>\x22}");
                  Template (js "\n");
                  Template (js "  </script>\n") ])
        (generateHTML
           (fun _ => js "{\x22name\x22: \x22</script>\x22}") sample_clock
           {| art_title := js "T"; sections := [];
              seoMetadata :=
                Some {| seo_title := js "T"; seo_description := js "D";
                        keywords := []; ogTitle := js "T";
                        ogDescription := js "D"; twitterTitle := js "T";
                        twitterDescription := js "D";
                        metaRobots := js "index, follow";
                        canonicalUrl := None;
                        structuredData :=
                          Some {| sd_type := js "Article";
                                  sd_name := js "</script>";
                                  sd_description := js "D";
                                  sd_author := js "A";
                                  sd_datePublished := js "2025-01-15";
                                  sd_dateModified := js "2025-01-15";
                                  sd_keywords := [] |} |} |}
           with_seo).
Proof.
  eapply (structured_data_is_embedded_verbatim
            (fun _ => js "{\x22name\x22: \x22</script>\x22}"));
    reflexivity.
Defined.

Lemma head_layout_styles (stringify : StructuredData -> jsstring)
      (a : Article) (o : ExportOptions) (b : option bool) :
  head_layout stringify a (set_includeStyles o b) = head_layout stringify a o.
Proof. reflexivity. Qed.

Lemma banner_layout_styles (clock : Clock) (a : Article) (o : ExportOptions)
      (b : option bool) :
  banner_layout clock a (set_includeStyles o b) = banner_layout clock a o.
Proof. reflexivity. Qed.

Lemma includeStyles_set (o : ExportOptions) (b : option bool) :
  includeStyles (set_includeStyles o b) = b.
Proof. reflexivity. Qed.

#[local] Opaque js html_styles.

Lemma html_layout_styles (stringify : StructuredData -> jsstring)
      (clock : Clock) (a : Article) (o : ExportOptions) :
  exists before after : list segment,
    forall b : option bool,
      html_layout stringify clock a (set_includeStyles o b)
      = before
          ++ match b with
             | Some false => []
             | _ => [ Template html_styles ]
             end
          ++ after.
Proof.
  eexists (_ ++ head_layout stringify a o), _; intros b.
  unfold html_layout.
  rewrite head_layout_styles, banner_layout_styles, includeStyles_set.
  rewrite app_assoc; reflexivity.
Qed.

(** X20.  Switching the stylesheet off removes the stylesheet and
    nothing else: the document with styles is the document without
    them, with the fixed stylesheet inserted at one place (the end of
    the head).  Styles are on unless [includeStyles] is [false]. *)
Theorem styles_only_add_the_stylesheet :
  forall (stringify : StructuredData -> jsstring) (clock : Clock)
         (a : Article) (o : ExportOptions),
  exists before after : jsstring,
    generateHTML stringify clock a (set_includeStyles o (Some false))
    = before ++ after
    /\ forall b : option bool,
        b <> Some false ->
        generateHTML stringify clock a (set_includeStyles o b)
        = before ++ html_styles ++ after.
Proof.
  intros stringify clock a o.
  destruct (html_layout_styles stringify clock a o)
    as (before & after & Hlayout).
  exists (render before), (render after); split.
  - now rewrite generateHTML_layout, Hlayout, !render_app.
  - intros b Hb.
    rewrite generateHTML_layout, Hlayout, !render_app.
    destruct b as [[|]|]; [|congruence|];
      now rewrite render_cons, render_nil, app_nil_r.
Qed.

#[local] Transparent js html_styles.

(** ** The file an export sends *)

Lemma hex_upper_unreserved (d : N) :
  (d < 16)%N -> uri_unreserved (hex_upper d) = true.
Proof.
  intros H.
  assert (Hd : In d [0;1;2;3;4;5;6;7;8;9;10;11;12;13;14;15]%N).
  { destruct d as [|p]; [now left|].
    do 15 (destruct p as [p|p|]; try lia; simpl; auto 20). }
  simpl in Hd.
  repeat (destruct Hd as [<-|Hd]; [reflexivity|]); destruct Hd.
Qed.

Lemma percent_octet_safe (octet : N) :
  (octet < 256)%N -> forallb uri_safe (percent_octet octet) = true.
Proof.
  intros H; unfold percent_octet, uri_safe; cbn [forallb].
  rewrite !hex_upper_unreserved.
  - reflexivity.
  - now apply N.mod_upper_bound.
  - apply N.Div0.div_lt_upper_bound; lia.
Qed.

Lemma utf8_octets (cp : N) :
  (cp < 1114112)%N -> Forall (fun o => (o < 256)%N) (utf8_of_code_point cp).
Proof.
  intros H; unfold utf8_of_code_point.
  assert (H64 : forall x, (128 + x mod 64 < 256)%N)
    by (intros x; pose proof (N.mod_upper_bound x 64); lia).
  destruct (N.ltb_spec cp 128); [repeat constructor; lia|].
  destruct (N.ltb_spec cp 2048).
  { repeat constructor; [|apply H64].
    assert (cp / 64 < 32)%N by (apply N.Div0.div_lt_upper_bound; lia); lia. }
  destruct (N.ltb_spec cp 65536).
  { repeat constructor; try apply H64.
    assert (cp / 4096 < 16)%N by (apply N.Div0.div_lt_upper_bound; lia); lia. }
  repeat constructor; try apply H64.
  assert (cp / 262144 < 5)%N by (apply N.Div0.div_lt_upper_bound; lia); lia.
Qed.

Lemma percent_encoded_safe (cp : N) :
  (cp < 1114112)%N -> forallb uri_safe (percent_encoded cp) = true.
Proof.
  intros H; unfold percent_encoded.
  induction (utf8_octets cp H) as [|o os Ho _ IH]; [reflexivity|].
  cbn [flat_map]; now rewrite forallb_app, percent_octet_safe, IH.
Qed.

Lemma surrogate_pair_code_point (c d : char) :
  is_high_surrogate c = true -> is_low_surrogate d = true ->
  (65536 + (c - 55296) * 1024 + (d - 56320) < 1114112)%N.
Proof.
  unfold is_high_surrogate, is_low_surrogate; intros Hc Hd.
  apply andb_true_iff in Hc as [Hc1 Hc2]; apply andb_true_iff in Hd as [Hd1 Hd2].
  apply N.leb_le in Hc1, Hc2, Hd1, Hd2; unfold char in *; lia.
Qed.

(** Induction on texts that takes one or two characters at a time. *)
Lemma jsstring_pair_ind (P : jsstring -> Prop) :
  P [] ->
  (forall c t, P t -> (forall d t', t = d :: t' -> P t') -> P (c :: t)) ->
  forall s, P s.
Proof.
  intros Hnil Hcons s.
  assert (H : P s /\ (forall d t', s = d :: t' -> P t')).
  { induction s as [|c t [IH1 IH2]].
    - split; [exact Hnil|discriminate].
    - split; [now apply Hcons|].
      intros d t' E; injection E as _ <-; exact IH1. }
  exact (proj1 H).
Qed.

Lemma some_inj {A} (a b : A) : Some a = Some b -> a = b.
Proof. now intros [= ->]. Qed.

Lemma encoded_is_safe (s : jsstring) :
  forallb is_code_unit s = true ->
  forall e, encodeURIComponent s = Some e -> forallb uri_safe e = true.
Proof.
  induction s as [|c t IHt IHt'] using jsstring_pair_ind;
    intros Hs e; cbn [encodeURIComponent].
  { intros H; injection H as <-; reflexivity. }
  cbn [forallb] in Hs; apply andb_true_iff in Hs as [Hc Ht].
  unfold is_code_unit in Hc; apply N.ltb_lt in Hc.
  destruct (uri_unreserved c) eqn:Eu.
  { destruct (encodeURIComponent t) as [e'|]; [|discriminate].
    cbn [option_map]; intros H; apply some_inj in H; rewrite <- H.
    cbn [forallb]; unfold uri_safe at 1; rewrite Eu; cbn [orb andb].
    now apply IHt. }
  destruct (is_low_surrogate c); [discriminate|].
  destruct (is_high_surrogate c) eqn:Eh.
  - destruct t as [|d t']; [discriminate|].
    destruct (is_low_surrogate d) eqn:El; [|discriminate].
    destruct (encodeURIComponent t') as [e'|] eqn:E'; [|discriminate].
    cbn [option_map]; intros H; apply some_inj in H; rewrite <- H.
    rewrite forallb_app, percent_encoded_safe
      by now apply surrogate_pair_code_point.
    cbn [forallb] in Ht; apply andb_true_iff in Ht as [_ Ht'].
    now apply (IHt' d t' eq_refl).
  - destruct (encodeURIComponent t) as [e'|]; [|discriminate].
    cbn [option_map]; intros H; apply some_inj in H; rewrite <- H.
    rewrite forallb_app, percent_encoded_safe by (unfold char in *; lia).
    now apply IHt.
Qed.




(** *** The page's file name *)

Lemma remove_symbols_chars (s : jsstring) :
  forallb (fun c => isWordChar c || isWhiteSpace c || (c =? 45)%N)
          (remove_symbols s) = true.
Proof.
  unfold remove_symbols; induction s as [|c s IH]; [reflexivity|].
  cbn [filter].
  destruct (isWordChar c || isWhiteSpace c || (c =? 45)%N) eqn:E;
    [|exact IH].
  cbn [forallb]; now rewrite E, IH.
Qed.

Lemma hyphenate_chars (s : jsstring) :
  forallb (fun c => isWordChar c || isWhiteSpace c || (c =? 45)%N) s = true ->
  forall in_run,
    forallb (fun c => isWordChar c || (c =? 45)%N) (hyphenate_from in_run s)
    = true.
Proof.
  induction s as [|c s IH]; intros H in_run; [reflexivity|].
  cbn [forallb] in H; apply andb_true_iff in H as [Hc Hs].
  cbn [hyphenate_from].
  destruct (isWhiteSpace c) eqn:Ew.
  - destruct in_run; [now apply IH|].
    cbn [forallb]; rewrite (IH Hs); reflexivity.
  - cbn [forallb]; rewrite (IH Hs), andb_true_r.
    now rewrite orb_false_r in Hc.
Qed.

Lemma word_char_cases (c : char) :
  isWordChar c || (c =? 45)%N = true ->
  is_ascii c = true /\ is_slug_char (ascii_lower c) = true.
Proof.
  unfold isWordChar, is_ascii, is_slug_char, ascii_lower; intros H.
  repeat match type of H with
         | _ || _ = true => apply orb_true_iff in H as [H|H]
         end;
    repeat match goal with
           | H : _ && _ = true |- _ => apply andb_true_iff in H as [? ?]
           | H : (_ <=? _)%N = true |- _ => apply N.leb_le in H
           | H : (_ =? _)%N = true |- _ => apply N.eqb_eq in H; subst
           end;
    try (split; reflexivity).
  - split; [apply N.ltb_lt; unfold char in *; lia|].
    replace ((65 <=? c) && (c <=? 90))%N with true
      by (symmetry; apply andb_true_iff; split; now apply N.leb_le).
    replace ((97 <=? c + 32) && (c + 32 <=? 122))%N with true
      by (symmetry; apply andb_true_iff; split; apply N.leb_le;
          unfold char in *; lia).
    reflexivity.
  - split; [apply N.ltb_lt; unfold char in *; lia|].
    replace ((65 <=? c) && (c <=? 90))%N with false
      by (symmetry; apply andb_false_iff; right; apply N.leb_gt;
          unfold char in *; lia).
    replace ((97 <=? c) && (c <=? 122))%N with true
      by (symmetry; apply andb_true_iff; split; now apply N.leb_le).
    reflexivity.
  - split; [apply N.ltb_lt; unfold char in *; lia|].
    replace ((65 <=? c) && (c <=? 90))%N with false
      by (symmetry; apply andb_false_iff; left; apply N.leb_gt;
          unfold char in *; lia).
    replace ((48 <=? c) && (c <=? 57))%N with true
      by (symmetry; apply andb_true_iff; split; now apply N.leb_le).
    now rewrite orb_true_r.
Qed.


Lemma slug_chars (title : jsstring) :
  forallb is_ascii (hyphenate (remove_symbols title)) = true
  /\ forallb is_slug_char (slug title) = true.
Proof.
  unfold slug, hyphenate.
  pose proof (hyphenate_chars _ (remove_symbols_chars title) false) as H.
  induction (hyphenate_from false (remove_symbols title)) as [|c s IH];
    [split; reflexivity|].
  cbn [forallb map] in *; apply andb_true_iff in H as [Hc Hs].
  destruct (word_char_cases c Hc) as [-> ->], (IH Hs) as [-> ->].
  split; reflexivity.
Qed.

Section PageExport.

Variable toLowerCase : jsstring -> jsstring.
Hypothesis toLowerCase_ascii : lowers_ascii toLowerCase.

Lemma export_filename_slug (title : jsstring) (fmt : ExportFormat) :
  export_filename toLowerCase title fmt
  = slug title ++ js "." ++ extension fmt.
Proof.
  unfold export_filename, slug.
  rewrite toLowerCase_ascii by apply slug_chars.
  now destruct fmt.
Qed.

(** X21.  The name the page asks for is made of small letters, digits,
    underscores and hyphens, followed by the extension of the format:
    every other character of the title is dropped, runs of white space
    become one hyphen each, and capital letters become small ones. *)
Theorem export_file_name_is_a_slug :
  forall (title : jsstring) (fmt : ExportFormat),
    export_filename toLowerCase title fmt
    = slug title ++ js "." ++ extension fmt
    /\ forallb is_slug_char (slug title) = true
    /\ (forall c, In c (slug title) ->
                  exists d, In d title
                            /\ (c = ascii_lower d
                                \/ (c = 45%N /\ isWhiteSpace d = true))).
Proof.
  intros title fmt.
  split; [apply export_filename_slug|].
  split; [apply slug_chars|].
  unfold slug, hyphenate; intros c Hin.
  apply in_map_iff in Hin as (d & <- & Hin).
  assert (Hfrom : forall s in_run,
             In d (hyphenate_from in_run s) ->
             In d s \/ (d = 45%N /\ exists w, In w s /\ isWhiteSpace w = true)).
  { induction s as [|x s IH]; intros in_run H; [destruct H|].
    cbn [hyphenate_from] in H.
    destruct (isWhiteSpace x) eqn:Ew.
    - destruct in_run.
      + destruct (IH _ H) as [H'|(-> & w & Hw & Hws)];
          [left; now right|right; split; [reflexivity|]].
        exists w; split; [now right|exact Hws].
      + destruct H as [<-|H];
          [right; split; [reflexivity|exists x; split; [now left|exact Ew]]|].
        destruct (IH _ H) as [H'|(-> & w & Hw & Hws)];
          [left; now right|right; split; [reflexivity|]].
        exists w; split; [now right|exact Hws].
    - destruct H as [<-|H]; [left; now left|].
      destruct (IH _ H) as [H'|(-> & w & Hw & Hws)];
        [left; now right|right; split; [reflexivity|]].
      exists w; split; [now right|exact Hws]. }
  destruct (Hfrom _ _ Hin) as [H|(-> & w & Hw & Hws)].
  - unfold remove_symbols in H; apply filter_In in H as [H _].
    exists d; split; [exact H|now left].
  - unfold remove_symbols in Hw; apply filter_In in Hw as [Hw _].
    exists w; split; [exact Hw|right; split; [reflexivity|exact Hws]].
Qed.


End PageExport.

Lemma map_ascii_lower_lowers : lowers_ascii (map ascii_lower).
Proof. intros s _; reflexivity. Qed.

Lemma export_file_name_witness :
  export_filename (map ascii_lower) (js "LLMO 入門: Remote  Work (2025)!")
                  Markdown
  = js "llmo-remote-work-2025.md".
Proof.
  etransitivity.
  - apply (export_file_name_is_a_slug (map ascii_lower)
                                      map_ascii_lower_lowers).
  - vm_compute; reflexivity.
Defined.


(** *** The header of the file *)

(** X23.  Whatever file name a request asks for, the name inside the
    quotes of the [Content-Disposition] header is made of unreserved
    characters and percent signs only: it holds no double quote, no
    line break and nothing outside ASCII. *)
Theorem file_name_in_header_is_safe :
  forall (stringify : StructuredData -> jsstring) (clock : Clock)
         (request : option ExportRequest)
         (content type disposition : jsstring),
    (forall req o f,
        request = Some req -> options req = Some o -> filename o = Some f ->
        forallb is_code_unit f = true) ->
    snd (POST_export stringify clock request)
    = FileResponse content type disposition ->
    exists encoded,
      disposition = js "attachment; filename=\x22" ++ encoded ++ js "\x22"
      /\ forallb uri_safe encoded = true
      /\ ~ In 34%N encoded /\ ~ In 10%N encoded /\ ~ In 13%N encoded
      /\ forallb is_ascii encoded = true.
Proof.
  intros stringify clock request content type disposition Hunits Hfile.
  assert (Hsent :
            exists called exported mime name,
              forallb is_code_unit name = true
              /\ snd (send_file called exported mime name)
                 = FileResponse content type disposition).
  { unfold POST_export in Hfile.
    destruct request as [req|]; [|discriminate].
    assert (Hname :
              forall default,
                forallb is_code_unit default = true ->
                forallb is_code_unit
                        match
                          nonempty
                            (filename match options req with
                                      | Some o => o
                                      | None => default_options
                                      end)
                        with
                        | Some f => f
                        | None => default
                        end = true).
    { intros default Hd.
      destruct (options req) as [o|] eqn:Eo; [|exact Hd].
      destruct (filename o) as [[|c f]|] eqn:Ef; try exact Hd.
      exact (Hunits req o _ eq_refl Eo Ef). }
    destruct (truthy (format req)); [|discriminate].
    destruct (article req) as [a|]; [|discriminate].
    destruct (format req) as [| | | |fmt| |]; try discriminate.
    destruct (jsstring_eqb fmt (js "markdown")).
    - do 4 eexists; split; [|exact Hfile]; now apply Hname.
    - destruct (jsstring_eqb fmt (js "html")); [|discriminate].
      do 4 eexists; split; [|exact Hfile]; now apply Hname. }
  destruct Hsent as (called & exported & mime & name & Hname & Hsend).
  unfold send_file in Hsend.
  destruct (encodeURIComponent name) as [encoded|] eqn:E; [|discriminate].
  cbn [snd] in Hsend.
  exists encoded.
  pose proof (encoded_is_safe _ Hname _ E) as Hsafe.
  assert (Hchars : forall c, In c encoded -> uri_safe c = true)
    by (now apply forallb_forall).
  split; [congruence|].
  split; [exact Hsafe|].
  repeat split;
    try (intros Hin; apply Hchars in Hin; discriminate).
  apply forallb_forall; intros c Hin; apply Hchars in Hin.
  unfold uri_safe, uri_unreserved in Hin; unfold is_ascii.
  apply N.ltb_lt.
  repeat match type of Hin with
         | _ || _ = true => apply orb_true_iff in Hin as [Hin|Hin]
         end;
    repeat match goal with
           | H : _ && _ = true |- _ => apply andb_true_iff in H as [? ?]
           | H : (_ <=? _)%N = true |- _ => apply N.leb_le in H
           | H : (_ =? _)%N = true |- _ => apply N.eqb_eq in H
           end;
    unfold char in *; lia.
Qed.

Lemma file_name_in_header_witness :
  exists encoded,
    js "attachment; filename=\x22%E8%A8%98%E4%BA%8B%22%0D%0A.md\x22"
    = js "attachment; filename=\x22" ++ encoded ++ js "\x22"
    /\ forallb uri_safe encoded = true
    /\ ~ In 34%N encoded /\ ~ In 10%N encoded /\ ~ In 13%N encoded
    /\ forallb is_ascii encoded = true.
Proof.
  eapply (file_name_in_header_is_safe
            (fun _ => []) sample_clock
            (Some (export_request
                     Markdown sample_article
                     {| includeSEO := None; includeStyles := None;
                        filename := Some (js "記事\x22\x0D\n.md") |}))).
  - intros req o f Hreq Ho Hf.
    apply some_inj in Hreq; subst req.
    apply some_inj in Ho; subst o.
    apply some_inj in Hf; subst f.
    reflexivity.
  - vm_compute; reflexivity.
Defined.


(** *** The Markdown export and the copy button *)

Lemma join_empty_separator (parts : list jsstring) :
  join [] parts = concat parts.
Proof.
  induction parts as [|p [|q parts] IH]; [reflexivity| |].
  - cbn; now rewrite app_nil_r.
  - rewrite join_cons, IH; reflexivity.
Qed.

Lemma copied_section_text (section : ArticleSection) :
  copied_section section = section_text section.
Proof.
  unfold copied_section, section_text.
  rewrite <- !app_assoc; do 4 f_equal.
  destruct (subheadings section) as [subs|]; [|reflexivity].
  rewrite join_empty_separator, <- flat_map_concat_map; reflexivity.
Qed.

(** X25.  The Markdown export is the text the page's copy button puts
    on the clipboard, between the front matter (when metadata is
    exported) and the footer; without metadata the two differ by the
    footer alone. *)
Theorem markdown_export_wraps_the_copied_text :
  forall (clock : Clock) (a : Article) (o : ExportOptions),
    generateMarkdown clock a o
    = front_matter clock a o ++ copied_article a ++ markdown_footer clock
    /\ (seo_included a o = None ->
        generateMarkdown clock a o = copied_article a ++ markdown_footer clock).
Proof.
  intros clock a o.
  assert (H : generateMarkdown clock a o
              = front_matter clock a o ++ copied_article a
                  ++ markdown_footer clock).
  { rewrite generateMarkdown_text; unfold copied_article.
    rewrite join_empty_separator, <- flat_map_concat_map.
    rewrite (flat_map_ext _ _ copied_section_text).
    now rewrite <- !app_assoc. }
  split; [exact H|].
  intros Hnone; rewrite H; unfold front_matter; rewrite Hnone.
  reflexivity.
Qed.

(** *** The page's title request *)

Lemma trim_of_empty (s : jsstring) : trim s <> [] -> s <> [].
Proof. intros H ->; now apply H. Qed.

(** X26.  The page sends a title request only for a keyword that is not
    blank, and such a request is never found invalid: the title route
    answers 200 with the titles, or 500 when title generation fails. *)
Theorem page_title_request_is_valid :
  forall (keyword overview o : jsstring) (sent : value) (api : completion),
    generateTitles_body keyword overview = Some sent ->
    POST_titles {| body := Some sent; origin := o |} api
    = match generateOptimizedTitlesWithAI api with
      | (out, inr titles) =>
        (out,
         JsonResponse 200
           (VObject [(js "titles",
                      VArray (map GeneratedTitle_value titles))]))
      | (out, inl _) =>
        (out ++ [ConsoleError (js "タイトル生成エラー:")],
         JsonResponse 500 (error_body (js "タイトル生成に失敗しました")))
      end.
Proof.
  intros keyword overview o sent api Hsent.
  unfold generateTitles_body in Hsent.
  destruct (trim keyword) as [|c t] eqn:E; [discriminate|].
  injection Hsent as <-.
  assert (Hk : keyword <> []) by (intros ->; discriminate).
  unfold POST_titles, request_json; cbn [body]; rewrite bind_ret.
  rewrite prop_object.
  replace (lookup _ (js "keyword")) with (VString keyword) by reflexivity.
  rewrite bind_ret; cbn [truthy].
  apply jsstring_eqb_neq in Hk; rewrite Hk; cbn [negb].
  destruct (generateOptimizedTitlesWithAI api) as [out [e|titles]];
    cbn [bind ret respond try_catch app]; now rewrite ?app_nil_r.
Qed.

Lemma page_title_request_witness :
  POST_titles {| body := Some (VObject [(js "keyword", VString (js " AI "));
                                        (js "overview", VString [])]);
                 origin := [] |} ApiRejects
  = ([ConsoleError (js "OpenAI API エラー:")]
       ++ [ConsoleError (js "タイトル生成エラー:")],
     JsonResponse 500 (error_body (js "タイトル生成に失敗しました"))).
Proof.
  etransitivity.
  - apply (page_title_request_is_valid (js " AI ") [] []); reflexivity.
  - vm_compute; reflexivity.
Defined.


(** *** A section that cannot be flattened *)

Section UnconvertibleSection.

Variable ToString : value -> jsstring.
Variable fetch : jsstring -> value -> fetch_result.

Lemma to_string_throws (v : value) :
  converts v = false -> to_string ToString v = ([], inl TypeError).
Proof. unfold to_string; now intros ->. Qed.

(** X27.  The heading of the first section of the generated article is
    an object with a [toString] property of its own (or holds one in an
    array): flattening the article throws, the metadata call is never
    made, and the step leaves the article as it is after one warning,
    that of its catch block. *)
Theorem unconvertible_heading_skips_the_metadata_call :
  forall (request : Request)
         (article keyword description baseUrl section h : value)
         (others : list value),
    get article (js "sections") = Some (VArray (section :: others)) ->
    get section (js "heading") = Some h ->
    converts h = false ->
    attach_seo ToString fetch request article keyword description baseUrl
    = ([ConsoleWarn
          (js "SEOメタデータ生成でエラーが発生しましたが、記事は正常に生成されました:")],
       inr article).
Proof.
  intros request article keyword description baseUrl section h others
         Hsections Hheading Hh.
  unfold attach_seo, articleContent, prop at 1; rewrite Hsections.
  rewrite bind_ret; cbn [mapi_M].
  unfold flatten_section at 1, prop at 1; rewrite Hheading, bind_ret.
  rewrite (to_string_throws _ Hh); reflexivity.
Qed.

End UnconvertibleSection.

Lemma unconvertible_heading_witness :
  attach_seo (fun _ => [])
             (fun _ _ =>
                FetchResponds true
                  (Some (VObject [(js "seoMetadata", VString (js "m"))])))
             sample_request
             (VObject
                [(js "title", VString (js "T"));
                 (js "sections",
                  VArray [VObject
                            [(js "heading",
                              VObject [(js "toString", VNumber false 1 0)]);
                             (js "content", VString (js "C"))]])])
             (VString (js "k")) VUndefined VUndefined
  = ([ConsoleWarn
        (js "SEOメタデータ生成でエラーが発生しましたが、記事は正常に生成されました:")],
     inr (VObject
            [(js "title", VString (js "T"));
             (js "sections",
              VArray [VObject
                        [(js "heading",
                          VObject [(js "toString", VNumber false 1 0)]);
                         (js "content", VString (js "C"))]])])).
Proof.
  eapply unconvertible_heading_skips_the_metadata_call; reflexivity.
Defined.
